(** * Analytics helper scripts: query splitting, power analysis, stratified sampling

    A shallow embedding of [utils/db_query_utils.py], [utils/power_analysis.py]
    and [utils/stratified_sampling.py], and the properties the specification
    states about them; then [utils/db_connection.py], [notebooks/SELECT.py]
    and the cache class as an object, with further properties of all five
    files.

    Conventions of the embedding:
    - a Python call that may raise returns a [result]: [Ok v] or [Raise e];
    - Python [str] is [string]; Python lists are [list]; [None]-able arguments
      are [option]s;
    - the numbers of [utils/power_analysis.py] are a parameter: its functions
      are written over any set of values with the operations that the code
      uses, each of which may raise, so that what is proved of their control
      flow holds of floats as they are (rounding, [inf] and [nan], complex
      results, [OverflowError]). What depends on the values is stated for
      the reading of floats as real numbers, [PowerAnalysis.exact]: it is
      exact, and where the code leaves the real numbers (a division by zero
      that NumPy answers with [inf] or [nan], a fractional power of a
      negative number, which Python answers with a complex number) it has no
      value to give and stops with the pseudo-exception [NotReal];
    - objects that the code mutates in place live in an explicit heap. *)

From Stdlib Require Import ZArith List String Ascii Lia Reals Lra Bool.
From stdpp Require Import base tactics option list gmap strings sorting.

Open Scope Z_scope.

(** ** Python results *)

Module Py.

Inductive exn :=
  | AssertionError
  | TypeError
  | AttributeError
  | KeyError
  | ValueError
  | ZeroDivisionError
  | FileNotFoundError
  | DatabaseError
  | OverflowError
  | NotReal.

Inductive result (A : Type) :=
  | Ok (a : A)
  | Raise (e : exn).
Arguments Ok {A} a.
Arguments Raise {A} e.

#[export] Instance result_ret : MRet result := fun A a => Ok a.
#[export] Instance result_bind : MBind result := fun A B f m =>
  match m with
  | Ok a => f a
  | Raise e => Raise e
  end.
#[export] Instance result_fmap : FMap result := fun A B f m =>
  match m with
  | Ok a => Ok (f a)
  | Raise e => Raise e
  end.

(** [assert c], raising [AssertionError] when [c] is false. *)
Definition py_assert (c : bool) : result unit :=
  if c then Ok tt else Raise AssertionError.

(** [x in s] for strings: [needle] occurs in [hay]. *)
Fixpoint contains (needle hay : string) : bool :=
  if String.prefix needle hay then true
  else match hay with
       | EmptyString => false
       | String _ hay' => contains needle hay'
       end.

(** [str.join] with the empty separator. *)
Definition str_join (l : list string) : string :=
  foldr String.append EmptyString l.

Definition newline : ascii := ascii_of_nat 10.

(** [s.split(newline)]: the pieces between line feeds, the line feeds
    dropped; the empty string gives one empty piece. *)
Fixpoint split_nl (s : string) : list string :=
  match s with
  | EmptyString => [EmptyString]
  | String c s' =>
      if Ascii.eqb c newline then EmptyString :: split_nl s'
      else match split_nl s' with
           | [] => [String c EmptyString]
           | l :: ls => String c l :: ls
           end
  end.

(** [f.readlines()] on a file whose text, line ends already translated to
    line feeds, is [s]: the lines, each with its line feed kept; no empty
    last line. *)
Fixpoint readlines (s : string) : list string :=
  match s with
  | EmptyString => []
  | String c s' =>
      if Ascii.eqb c newline then String c EmptyString :: readlines s'
      else match readlines s' with
           | [] => [String c EmptyString]
           | l :: ls => String c l :: ls
           end
  end.

(** [q[a:b]] for non-negative [a] and [b]; [b = None] is an open end. *)
Definition slice {A} (a : nat) (b : option nat) (q : list A) : list A :=
  match b with
  | Some b => take (b - a) (drop a q)
  | None => drop a q
  end.

(** [[i for i, e in enumerate(q) if p(e)]], counting from [i0]. *)
Fixpoint indices_from {A} (p : A -> bool) (i0 : nat) (q : list A) : list nat :=
  match q with
  | [] => []
  | e :: q' => if p e then i0 :: indices_from p (S i0) q'
               else indices_from p (S i0) q'
  end.

Definition indices {A} (p : A -> bool) (q : list A) : list nat :=
  indices_from p 0 q.

(** [range(start, stop, step)]; a zero step raises [ValueError]. *)
Definition range_len (start stop step : Z) : Z :=
  if 0 <? step then
    if start <? stop then (stop - start - 1) / step + 1 else 0
  else
    if stop <? start then (start - stop - 1) / (- step) + 1 else 0.

Definition py_range (start stop step : Z) : result (list Z) :=
  if step =? 0 then Raise ValueError
  else Ok (map (fun k : nat => start + step * Z.of_nat k)
               (seq 0 (Z.to_nat (range_len start stop step)))).

End Py.
Import Py.

(** ** [utils/db_query_utils.py] *)

Module DbQueryUtils.

(** A result table: [pd.DataFrame(data, columns=cols)]. *)
Record table (value : Type) := Table {
  tcolumns : list string;
  tdata : list (list value)
}.
Arguments Table {value} _ _.
Arguments tcolumns {value} _.
Arguments tdata {value} _.

(** [DBQueryCache]: the dictionary from query text to result, with [put],
    [get] and [clear]. *)
Definition cache_put {value} (c : gmap string (table value)) (query : string)
    (res : table value) : gmap string (table value) :=
  <[query := res]> c.

Definition cache_get {value} (c : gmap string (table value)) (query : string)
    : option (table value) :=
  c !! query.

Definition cache_clear {value} (c : gmap string (table value))
    : gmap string (table value) :=
  ∅.

(** The [old_cache] argument of the constructor, by its run-time type. *)
Inductive old_cache_arg (value : Type) :=
  | OldNone
  | OldCache (c : gmap string (table value))
  | OldDict (d : gmap string (table value))
  | OldOther.
Arguments OldNone {value}.
Arguments OldCache {value} c.
Arguments OldDict {value} d.
Arguments OldOther {value}.

(** The [cx_Oracle] cursor, as the code uses it. *)
Class CursorAPI (cursor value : Type) := {
  execute : cursor -> string -> result cursor;
  description : cursor -> option (list string);
  fetchall : cursor -> cursor * list (list value);
  fetchmany : cursor -> Z -> cursor * list (list value)
}.

Definition is_sub_query (e : string) : bool := contains "SUB_QUERY" e.

Definition is_step (e : string) : bool :=
  contains "BASE_QUERY" e || contains "QUERY_STEP" e.

(** [DBQuery.__process_steps] *)
Definition process_steps (q : list string) : list string :=
  let steps := indices is_step q in
  let steps :=
    match steps with
    | base :: rest => map (fun s => (base, s)) (map Some rest ++ [None])
    | [] => [(0%nat, None)]
    end in
  let steps := map (fun ab : nat * option nat => slice ab.1 ab.2 q) steps in
  map str_join steps.

(** [DBQuery.__process_subqueries] *)
Definition process_subqueries (qry : list string) : list (list string) :=
  let sub_queries := indices is_sub_query qry in
  let sub_queries := zip sub_queries (map Some (tail sub_queries) ++ [None]) in
  let sub_queries :=
    map (fun ab : nat * option nat => slice ab.1 ab.2 qry) sub_queries in
  map process_steps sub_queries.

Section DBQuery.

Context {cursor value : Type} `{!CursorAPI cursor value}.

(** The environment: the files by path, the working directory and
    [pathlib]'s [/]. *)
Variable fs : gmap string string.
Variable cwd : string.
Variable path_join : string -> string -> string.

(** The dictionary that is the default of [DBQueryCache.__init__]'s
    [initialCache]: Python makes it once, so every cache built without an
    argument holds this one dictionary; its content at the time of the
    call. *)
Variable default_cache : gmap string (table value).

Record DBQuery := MkDBQuery {
  root_folder : option string;
  by_file : bool;
  file_path : option string;
  raw_qry : option string;
  by_steps : bool;
  qry : option (list (list string));
  cursor_of : cursor;
  limit : option Z;
  transform : option (list (string * (value -> value)));
  cache : option (gmap string (table value))
}.

Definition set_qry (self : DBQuery) (q : list (list string)) : DBQuery :=
  MkDBQuery (root_folder self) (by_file self) (file_path self) (raw_qry self)
    (by_steps self) (Some q) (cursor_of self) (limit self) (transform self)
    (cache self).

Definition set_cursor_cache (self : DBQuery) (c : cursor)
    (k : option (gmap string (table value))) : DBQuery :=
  MkDBQuery (root_folder self) (by_file self) (file_path self) (raw_qry self)
    (by_steps self) (qry self) c (limit self) (transform self) k.

(** The first lines of [__populate_query]: the lines of the file or of the
    literal query. *)
Definition load_lines (self : DBQuery) : result (list string) :=
  if by_file self then
    match file_path self with
    | Some p =>
        match fs !! p with
        | Some txt => Ok (readlines txt)
        | None => Raise FileNotFoundError
        end
    | None => Raise TypeError
    end
  else
    match raw_qry self with
    | Some q => Ok (split_nl q)
    | None => Raise AttributeError
    end.

(** [DBQuery.__populate_query] *)
Definition populate_query (self : DBQuery) : result DBQuery :=
  lines ← load_lines self;
  if by_steps self then Ok (set_qry self (process_subqueries lines))
  else Ok (set_qry self [[str_join lines]]).

(** [DBQuery.__init__] *)
Definition init (cur : cursor) (file_name query base_folder root : option string)
    (steps : bool) (lim : option Z) (use_cache : bool)
    (old_cache : old_cache_arg value)
    (tr : option (list (string * (value -> value)))) : result DBQuery :=
  _ ← py_assert (negb (bool_decide (file_name = None)
                        && bool_decide (query = None)));
  let '(path, raw) :=
    match file_name with
    | Some f =>
        (Some match base_folder with
              | None => path_join cwd f
              | Some b => path_join (path_join cwd b) f
              end, None)
    | None => (None, query)
    end in
  path ← match root with
         | Some r =>
             match base_folder, file_name with
             | Some b, Some f => Ok (Some (path_join (path_join r b) f))
             | _, _ => Raise TypeError
             end
         | None => Ok path
         end;
  let self :=
    MkDBQuery root (bool_decide (file_name <> None)) path raw steps None cur
      lim tr None in
  self ← populate_query self;
  let c :=
    match use_cache, old_cache with
    | true, OldCache c => Some c
    | true, OldDict d => Some d
    | true, OldNone => Some default_cache
    | _, _ => None
    end in
  Ok (set_cursor_cache self cur c).

Definition column_index (col : string) (cols : list string) : option nat :=
  head (indices (fun c => bool_decide (c = col)) cols).

(** [DBQuery.__apply_transform] *)
Fixpoint apply_transform (ts : list (string * (value -> value)))
    (res : table value) : result (table value) :=
  match ts with
  | [] => Ok res
  | (col_name, func) :: ts' =>
      match column_index col_name (tcolumns res) with
      | None => Raise KeyError
      | Some i =>
          apply_transform ts'
            (Table (tcolumns res) (map (alter func i) (tdata res)))
      end
  end.

(** [DBQuery.__run_query_step]; the new object state comes with the
    result. *)
Definition run_query_step (self : DBQuery) (query : string)
    (num_rows : option Z) (use_cache do_transform : bool)
    : result (DBQuery * table value) :=
  match (if use_cache then cache self ≫= (fun c => cache_get c query)
         else None) with
  | Some res => Ok (self, res)
  | None =>
      cur ← execute (cursor_of self) query;
      cols ← match description cur with
             | Some d => Ok d
             | None => Raise TypeError
             end;
      let '(cur, data) :=
        match num_rows with
        | None => fetchall cur
        | Some n => fetchmany cur n
        end in
      let res := Table cols data in
      res ← match do_transform, transform self with
            | true, Some ts => apply_transform ts res
            | _, _ => Ok res
            end;
      let k :=
        if use_cache then (fun c => cache_put c query res) <$> cache self
        else cache self in
      Ok (set_cursor_cache self cur k, res)
  end.

(** The comprehension of [run]: the steps one after the other. *)
Fixpoint run_steps (self : DBQuery) (steps : list string)
    (use_cache do_transform : bool) : result (DBQuery * list (table value)) :=
  match steps with
  | [] => Ok (self, [])
  | s :: steps' =>
      '(self, r) ← run_query_step self s (limit self) use_cache do_transform;
      '(self, rs) ← run_steps self steps' use_cache do_transform;
      Ok (self, r :: rs)
  end.

(** [DBQuery.run] *)
Definition run (self : DBQuery) (use_cache do_transform : bool)
    : result (DBQuery * list (table value)) :=
  self ← populate_query self;
  run_steps self (concat (default [] (qry self))) use_cache do_transform.

End DBQuery.

Arguments DBQuery : clear implicits.

End DbQueryUtils.

(** ** [utils/power_analysis.py] *)

Module PowerAnalysis.

(** *** The numbers *)

(** The values that the functions compute with, and the operations of
    Python, NumPy and SciPy that they use on them. Every operation may
    raise. *)
Class Numbers (F : Type) := {
  (** an [int] where a float is wanted: a literal, or a number of
      observations *)
  of_int : Z -> result F;
  (** [x + y], [x - y], [x * y], [x / y] *)
  add : F -> F -> result F;
  sub : F -> F -> result F;
  mul : F -> F -> result F;
  div : F -> F -> result F;
  (** [x / y] where [x] is a NumPy number, as it is when it was computed
      from an answer of SciPy *)
  np_div : F -> F -> result F;
  (** [x ** (1 / 2)] and [x ** 2] *)
  root : F -> result F;
  square : F -> result F;
  (** [abs(x)] *)
  absolute : F -> result F;
  (** [x > y], [x >= y], [x <= y] *)
  gt : F -> F -> result bool;
  ge : F -> F -> result bool;
  le : F -> F -> result bool;
  (** [scipy.stats.norm.sf] and [scipy.stats.norm.isf] at [loc=0, scale=1] *)
  norm_sf : F -> result F;
  norm_isf : F -> result F
}.

Section functions.

Context {F : Type} {arithmetic : Numbers F}.

(** [get_p_value] *)
Definition get_p_value (mean sd : F) (two_sided : bool) : result F :=
  z_score ← div mean sd;
  a ← absolute z_score;
  p_val ← norm_sf a;
  if two_sided then
    two ← of_int 2;
    mul p_val two
  else Ok p_val.

(** [get_power] *)
Definition get_power (p_A p_B se1 se2 : F) (two_sided : bool)
    (significance : F) : result F :=
  positive ← gt p_B p_A;
  null_hyp_z_score ← norm_isf significance;
  if positive || negb two_sided then
    t ← mul se1 null_hyp_z_score;
    s ← add p_A t;
    d ← sub s p_B;
    x ← np_div d se2;
    norm_sf x
  else
    t ← mul se2 null_hyp_z_score;
    s ← add p_B t;
    d ← sub s p_A;
    x ← np_div d se1;
    norm_sf x.

(** [(p * (1 - p) / nobs) ** (1 / 2)] *)
Definition standard_error (p : F) (nobs : Z) : result F :=
  one ← of_int 1;
  a ← sub one p;
  v ← mul p a;
  n ← of_int nobs;
  q ← div v n;
  root q.

(** [get_p_val_and_power]: the p-value, the power, and whether the result
    is significant. *)
Definition get_p_val_and_power (nobs_A : Z) (p_A min_detect_effect : F)
    (nobs_B : option Z) (two_sided : bool)
    (statistical_significance min_power : F) : result (F * F * bool) :=
  let nobs_B := default nobs_A nobs_B in
  p_B ← add p_A min_detect_effect;
  significance ←
    (if two_sided then
       two ← of_int 2;
       div statistical_significance two
     else Ok statistical_significance);
  se1 ← standard_error p_A nobs_A;
  se2 ← standard_error p_B nobs_B;
  s1 ← square se1;
  s2 ← square se2;
  s ← add s1 s2;
  sd_of_sum ← root s;
  d_hat ← sub p_B p_A;
  p_value ← get_p_value d_hat sd_of_sum two_sided;
  power ← get_power p_A p_B se1 se2 two_sided significance;
  enough ← ge power min_power;
  result_is_significant ←
    (if enough : bool then le p_value statistical_significance else Ok false);
  Ok (p_value, power, result_is_significant).

(** The loop of [calculate_min_sample_size] over the candidates that are
    left. *)
Fixpoint scan_sample_sizes (candidates : list Z) (p_A min_detect_effect : F)
    (two_sided : bool) (statistical_significance min_power : F)
    : result (option Z) :=
  match candidates with
  | [] => Ok None
  | nobs :: rest =>
      res ← get_p_val_and_power nobs p_A min_detect_effect None two_sided
              statistical_significance min_power;
      if (res : F * F * bool).2 then Ok (Some nobs)
      else scan_sample_sizes rest p_A min_detect_effect two_sided
             statistical_significance min_power
  end.

(** [calculate_min_sample_size] *)
Definition calculate_min_sample_size (p_A min_detect_effect : F)
    (step_size max_feasible_observations : Z) (two_sided : bool)
    (statistical_significance min_power : F) : result (option Z) :=
  candidates ← py_range step_size max_feasible_observations step_size;
  scan_sample_sizes candidates p_A min_detect_effect two_sided
    statistical_significance min_power.

(** [np.arange(start, stop, step)], the candidates of
    [calculate_min_detect_effect]. *)
Variable np_arange : F -> F -> F -> result (list F).

(** The loop of [calculate_min_detect_effect] over the candidates that are
    left. *)
Fixpoint scan_effects (candidates : list F) (p_A : F) (nobs_A : Z)
    (nobs_B : option Z) (two_sided : bool)
    (statistical_significance min_power : F) : result (option F) :=
  match candidates with
  | [] => Ok None
  | min_detect_effect :: rest =>
      res ← get_p_val_and_power nobs_A p_A min_detect_effect nobs_B two_sided
              statistical_significance min_power;
      if (res : F * F * bool).2 then Ok (Some min_detect_effect)
      else scan_effects rest p_A nobs_A nobs_B two_sided
             statistical_significance min_power
  end.

(** [calculate_min_detect_effect] *)
Definition calculate_min_detect_effect (p_A : F) (nobs_A : Z)
    (nobs_B : option Z) (step_size max_effect_tested : F) (two_sided : bool)
    (statistical_significance min_power : F) : result (option F) :=
  stop ← add max_effect_tested step_size;
  candidates ← np_arange step_size stop step_size;
  scan_effects candidates p_A nobs_A nobs_B two_sided
    statistical_significance min_power.

End functions.

(** *** Floats read as real numbers *)

#[export] Instance R_eq_dec : EqDecision R := Req_dec_T.
#[export] Instance Rlt_decision : RelDecision Rlt := Rlt_dec.
#[export] Instance Rle_decision : RelDecision Rle := Rle_dec.
#[export] Instance Rgt_decision : RelDecision Rgt := Rgt_dec.
#[export] Instance Rge_decision : RelDecision Rge := Rge_dec.

(** The least [int] that is too large to convert to a float: the ints from
    here on round to [2 ** 1024]. *)
Definition float_int_bound : Z := 2 ^ 1024 - 2 ^ 970.

(** The arithmetic of Python floats with every result exact, for a survival
    function [sf] and its inverse [isf] in the place of SciPy's: [x / 0]
    raises, as it does for Python floats; the results that are no real
    numbers ([inf] or [nan] from NumPy's division, a complex power) stop the
    reading. *)
Definition exact (sf isf : R -> R) : Numbers R := {|
  of_int z :=
    if decide (Z.abs z < float_int_bound) then Ok (IZR z)
    else Raise OverflowError;
  add x y := Ok (x + y)%R;
  sub x y := Ok (x - y)%R;
  mul x y := Ok (x * y)%R;
  div x y := if decide (y = 0%R) then Raise ZeroDivisionError else Ok (x / y)%R;
  np_div x y := if decide (y = 0%R) then Raise NotReal else Ok (x / y)%R;
  root x := if decide (x < 0)%R then Raise NotReal else Ok (sqrt x);
  square x := Ok (x ^ 2)%R;
  absolute x := Ok (Rabs x);
  gt x y := Ok (bool_decide (x > y)%R);
  ge x y := Ok (bool_decide (x >= y)%R);
  le x y := Ok (bool_decide (x <= y)%R);
  norm_sf x := Ok (sf x);
  norm_isf q := Ok (isf q)
|}.

End PowerAnalysis.

(** ** [utils/stratified_sampling.py] *)

Module StratifiedSampling.

(** [x.sample(n)], without replacement: [n] rows of [xs], each picked by the
    next random draw among the rows that are left. Returns the rows drawn and
    the draws that remain. *)
Fixpoint sample (draws : list nat) (xs : list nat) (n : nat)
    : list nat * list nat :=
  match n with
  | O => ([], draws)
  | S n' =>
      let i := (hd 0 draws mod length xs)%nat in
      match xs !! i with
      | None => ([], draws)
      | Some x =>
          let '(chosen, draws') := sample (tl draws) (delete i xs) n' in
          (x :: chosen, draws')
      end
  end.

(** The order of tuples of strings, by which [groupby] sorts its groups. *)
Fixpoint key_leb (a b : list string) : bool :=
  match a, b with
  | [], _ => true
  | _ :: _, [] => false
  | x :: a', y :: b' =>
      match String.compare x y with
      | Lt => true
      | Gt => false
      | Eq => key_leb a' b'
      end
  end.

Definition key_le (a b : list string) : Prop := key_leb a b.

#[export] Instance key_le_dec : RelDecision key_le.
Proof. intros a b. unfold key_le. apply _. Defined.

Section pandas.

(** The cells of the caller's data, whatever they are. *)
Variable raw : Type.

Inductive cell :=
  | CRaw (x : raw)
  | CStr (s : string)
  | CInt (z : Z)
  | CNone.

(** A column: whether its dtype is numeric ([dtype.kind in "biufc"]) and its
    cells by row position. *)
Record column := Column {
  numeric : bool;
  values : list cell
}.

Record DataFrame := Frame {
  nrows : nat;
  columns : list (string * column)
}.

(** [pd.qcut(series, q)], which may raise [ValueError]; and what
    [astype(str)] makes of a cell: a string, or nothing when the cell is a
    missing value that stays missing (whether it does depends on the version
    of pandas: [None] for it, or the string ["None"] or ["nan"]). *)
Variable qcut : list cell -> Z -> result (list cell).
Variable astype_str : cell -> option string.

(** The number of rows [round(frac * len)] that [x.sample(frac=frac)] draws
    from [len] rows for [frac = 1 / k], a product and a rounding of floats. *)
Variable round_frac : nat -> Z -> nat.

(** [groupby(...).apply(lambda x: x.sample(frac=1 / k))]: a sample from
    each group in turn; the rows drawn, all groups together. *)
Fixpoint sample_groups (draws : list nat) (groups : list (list nat)) (k : Z)
    : list nat * list nat :=
  match groups with
  | [] => ([], draws)
  | xs :: groups' =>
      let '(chosen, draws) := sample draws xs (round_frac (length xs) k) in
      let '(rest, draws) := sample_groups draws groups' k in
      (chosen ++ rest, draws)
  end.

Definition isna (c : cell) : bool :=
  match c with
  | CNone => true
  | _ => false
  end.

Definition column_names (f : DataFrame) : list string := (columns f).*1.

(** [df[name]]: the first column of that name. *)
Fixpoint get_in (cols : list (string * column)) (name : string)
    : option column :=
  match cols with
  | [] => None
  | (n, c) :: cols' => if decide (n = name) then Some c else get_in cols' name
  end.

Definition get_column (f : DataFrame) (name : string) : option column :=
  get_in (columns f) name.

(** [df[name] = col]: replaces the column of that name, or adds it last. *)
Fixpoint set_in (cols : list (string * column)) (name : string) (col : column)
    : list (string * column) :=
  match cols with
  | [] => [(name, col)]
  | (n, c) :: cols' =>
      if decide (n = name) then (n, col) :: cols'
      else (n, c) :: set_in cols' name col
  end.

Definition set_column (f : DataFrame) (name : string) (col : column)
    : DataFrame :=
  Frame (nrows f) (set_in (columns f) name col).

(** [df.drop(columns=names)] *)
Definition drop_columns (f : DataFrame) (names : list string) : DataFrame :=
  Frame (nrows f) (filter (fun nc => nc.1 ∉ names) (columns f)).

(** The cell of column [name] at row position [p]. *)
Definition cell_at (f : DataFrame) (name : string) (p : nat) : cell :=
  default CNone (get_column f name ≫= (fun c => values c !! p)).

(** [series.astype(str)] on a cell. *)
Definition astype_cell (c : cell) : cell :=
  match astype_str c with
  | Some s => CStr s
  | None => CNone
  end.

(** The value of a cell as a grouping key; a missing value is none. *)
Definition cell_key (c : cell) : option string :=
  match c with
  | CStr s => Some s
  | CNone => None
  | _ => astype_str c
  end.

(** The stratum of row [p]: its strings in the stratifying columns, when
    none of them is missing. *)
Definition row_key (f : DataFrame) (cols : list string) (p : nat)
    : option (list string) :=
  mapM (fun name => cell_key (cell_at f name p)) cols.

(** [df[cols].value_counts()]: each stratum with its number of rows (the
    order of the entries is not pandas's; the code only takes the minimum).
    A row with a missing value in one of the columns is not counted
    ([dropna=True]). Grouping by no column or by a repeated column raises
    [ValueError]. *)
Definition value_counts (f : DataFrame) (cols : list string)
    : result (list (list string * nat)) :=
  if bool_decide (cols = [] /\ nrows f <> 0%nat) then Raise ValueError
  else if bool_decide (NoDup cols) then
    let keys := omap (row_key f cols) (seq 0 (nrows f)) in
    Ok (map (fun k => (k, length (filter (fun k' => k' = k) keys)))
            (remove_dups keys))
  else Raise ValueError.

(** [series.min() >= n]; the minimum of an empty series is [nan], which
    compares false. *)
Definition min_at_least (counts : list nat) (n : Z) : bool :=
  match counts with
  | [] => false
  | c :: cs => bool_decide (n <= Z.of_nat (foldr Nat.min c cs))
  end.

(** *** The heap of dataframe objects and the random draws *)

Record state := State {
  heap : list DataFrame;
  draws : list nat
}.

Definition M (A : Type) : Type := state -> state * result A.

#[export] Instance M_ret : MRet M := fun A a st => (st, Ok a).
#[export] Instance M_bind : MBind M := fun A B f m st =>
  match m st with
  | (st', Ok a) => f a st'
  | (st', Raise e) => (st', Raise e)
  end.

Definition lift {A} (r : result A) : M A := fun st => (st, r).

Definition load (l : nat) : M DataFrame := fun st =>
  (st, match heap st !! l with
       | Some f => Ok f
       | None => Raise AttributeError
       end).

Definition store (l : nat) (f : DataFrame) : M unit := fun st =>
  (State (<[l := f]> (heap st)) (draws st), Ok tt).

Definition alloc (f : DataFrame) : M nat := fun st =>
  (State (heap st ++ [f]) (draws st), Ok (length (heap st))).

Definition with_draws {A} (f : list nat -> A * list nat) : M A := fun st =>
  let '(a, d) := f (draws st) in (State (heap st) d, Ok a).

Definition lookup_column (f : DataFrame) (name : string) : M column :=
  lift (match get_column f name with
        | Some c => Ok c
        | None => Raise KeyError
        end).

(** One turn of the first loop: the string column [col + "_stratify"] is
    added to the dataframe object [df] itself. *)
Definition transform_column (df : nat) (col : string) (buckets : Z)
    : M string :=
  let name := col +:+ "_stratify" in
  f ← load df;
  c ← lookup_column f col;
  (if numeric c then
     cut ← lift (qcut (values c) buckets);
     _ ← store df (set_column f name (Column false cut));
     f ← load df;
     c ← lookup_column f name;
     store df (set_column f name (Column false (map astype_cell (values c))))
   else
     store df (set_column f name (Column false (map astype_cell (values c)))));;
  mret name.

Fixpoint transform_columns (df : nat) (stratify_cols : list string)
    (buckets : Z) : M (list string) :=
  match stratify_cols with
  | [] => mret []
  | col :: cols =>
      name ← transform_column df col buckets;
      names ← transform_columns df cols buckets;
      mret (name :: names)
  end.

(** The bucket size check. *)
Definition check_bucket_sizes (df : nat) (tcols : list string) (n_splits : Z)
    : M unit :=
  f ← load df;
  bucket_counts ← lift (value_counts f tcols);
  lift (py_assert (min_at_least bucket_counts.*2 n_splits)).

(** [df.loc[indices, "group"] = i] on the cells of the group column. *)
Definition assign (g : list cell) (indices : list nat) (i : Z) : list cell :=
  imap (fun p v => if decide (p ∈ indices) then CInt i else v) g.

(** The rows without a group, and their split by stratum, the strata in
    sorted order; a row with a missing value in a stratifying column is in
    no group ([dropna=True]). *)
Definition ungrouped (f : DataFrame) : list nat :=
  filter (fun p => isna (cell_at f "group" p)) (seq 0 (nrows f)).

Definition groupby (f : DataFrame) (tcols : list string) (rows : list nat)
    : list (list nat) :=
  map (fun k => filter (fun p => row_key f tcols p = Some k) rows)
      (merge_sort key_le (remove_dups (omap (row_key f tcols) rows))).

(** One turn of the second loop. *)
Definition assign_group (df : nat) (tcols : list string) (n_splits i : Z)
    : M unit :=
  f ← load df;
  group_i_indices ←
    with_draws (fun d =>
      sample_groups d (groupby f tcols (ungrouped f)) (n_splits - i));
  g ← lookup_column f "group";
  store df (set_column f "group"
              (Column (numeric g) (assign (values g) group_i_indices i))).

Fixpoint assign_groups (df : nat) (tcols : list string) (n_splits : Z)
    (turns : list Z) : M unit :=
  match turns with
  | [] => mret tt
  | i :: turns' =>
      _ ← assign_group df tcols n_splits i;
      assign_groups df tcols n_splits turns'
  end.

(** The first half of [proportional_stratified_sample], up to the bucket
    size check: the check for a [group] column, the string columns added to
    the caller's object [df], the check itself. *)
Definition stratify_and_check (df : nat) (stratify_cols : list string)
    (n_splits : Z) (buckets : Z) : M (list string) :=
  f ← load df;
  _ ← lift (py_assert (bool_decide ("group" ∉ column_names f)));
  transformed_stratify_cols ← transform_columns df stratify_cols buckets;
  _ ← check_bucket_sizes df transformed_stratify_cols n_splits;
  mret transformed_stratify_cols.

(** The second half, from [df.reset_index(drop=True)] on: the work is done
    on a copy, and another copy without the added columns is returned. *)
Definition split_into_groups (df : nat) (transformed_stratify_cols : list string)
    (n_splits : Z) : M nat :=
  f ← load df;
  df' ← alloc f;
  _ ← store df' (set_column f "group"
                   (Column false (replicate (nrows f) CNone)));
  turns ← lift (py_range 0 n_splits 1);
  _ ← assign_groups df' transformed_stratify_cols n_splits turns;
  f ← load df';
  g ← lookup_column f "group";
  _ ← lift (py_assert (forallb (fun c => negb (isna c)) (values g)));
  alloc (drop_columns f transformed_stratify_cols).

(** [proportional_stratified_sample]: [df] is the caller's dataframe object;
    the answer is the object that the function returns. *)
Definition proportional_stratified_sample (df : nat)
    (stratify_cols : list string) (n_splits : Z) (buckets : Z) : M nat :=
  transformed_stratify_cols ←
    stratify_and_check df stratify_cols n_splits buckets;
  split_into_groups df transformed_stratify_cols n_splits.

(** The label of a cell of the group column. *)
Definition label_of (c : cell) : option Z :=
  match c with
  | CInt z => Some z
  | _ => None
  end.

End pandas.

Arguments CRaw {raw} x.
Arguments CStr {raw} s.
Arguments CInt {raw} z.
Arguments CNone {raw}.
Arguments Column {raw} numeric values.
Arguments numeric {raw} c.
Arguments values {raw} c.
Arguments Frame {raw} nrows columns.
Arguments nrows {raw} d.
Arguments columns {raw} d.
Arguments State {raw} heap draws.
Arguments heap {raw} s.
Arguments draws {raw} s.
Arguments isna {raw} c.
Arguments label_of {raw} c.
Arguments column_names {raw} f.
Arguments get_in {raw} cols name.
Arguments get_column {raw} f name.
Arguments set_in {raw} cols name col.
Arguments set_column {raw} f name col.
Arguments drop_columns {raw} f names.
Arguments cell_at {raw} f name p.
Arguments astype_cell {raw} astype_str c.
Arguments cell_key {raw} astype_str c.
Arguments row_key {raw} astype_str f cols p.
Arguments value_counts {raw} astype_str f cols.
Arguments lift {raw A} r _.
Arguments load {raw} l _.
Arguments store {raw} l f _.
Arguments alloc {raw} f _.
Arguments with_draws {raw A} f _.
Arguments lookup_column {raw} f name _.
Arguments transform_column {raw} qcut astype_str df col buckets _.
Arguments transform_columns {raw} qcut astype_str df stratify_cols buckets _.
Arguments check_bucket_sizes {raw} astype_str df tcols n_splits _.
Arguments assign {raw} g indices i.
Arguments ungrouped {raw} f.
Arguments groupby {raw} astype_str f tcols rows.
Arguments assign_group {raw} astype_str round_frac df tcols n_splits i _.
Arguments assign_groups {raw} astype_str round_frac df tcols n_splits turns _.
Arguments stratify_and_check {raw} qcut astype_str df stratify_cols n_splits
  buckets _.
Arguments split_into_groups {raw} astype_str round_frac df
  transformed_stratify_cols n_splits _.
Arguments proportional_stratified_sample {raw} qcut astype_str round_frac df
  stratify_cols n_splits buckets _.

End StratifiedSampling.

(** ** [DBQueryCache] as an object

    The class keeps its entries in a dictionary that it does not own: the
    constructor stores the dictionary that it is given, and its default
    argument is one dictionary, made when the class is defined. The objects
    and the dictionaries live in a heap, each under its address. *)

Module DbQueryCacheHeap.
Import DbQueryUtils.

Section heap.

(** The cached results. *)
Variable V : Type.

Record heap := Heap {
  dicts : list (gmap string V);
  objects : list nat
}.

(** The address of the default argument of [DBQueryCache.__init__]. *)
Definition default_dict : nat := 0%nat.

(** The heap when the class has been defined. *)
Definition initial : heap := Heap [∅] [].

(** A dictionary display: a new dictionary. *)
Definition new_dict (d : gmap string V) (h : heap) : heap * nat :=
  (Heap (dicts h ++ [d]) (objects h), length (dicts h)).

(** [DBQueryCache(initialCache)], [None] for a call without the argument. *)
Definition new_cache (initialCache : option nat) (h : heap) : heap * nat :=
  (Heap (dicts h) (objects h ++ [default default_dict initialCache]),
   length (objects h)).

(** The dictionary of [self.cache]. *)
Definition dict_of (h : heap) (self : nat) : result (nat * gmap string V) :=
  match objects h !! self with
  | Some d =>
      match dicts h !! d with
      | Some m => Ok (d, m)
      | None => Raise AttributeError
      end
  | None => Raise AttributeError
  end.

(** [DBQueryCache.put] *)
Definition put (self : nat) (query : string) (res : V) (h : heap)
    : result heap :=
  '(d, m) ← dict_of h self;
  Ok (Heap (<[d := <[query := res]> m]> (dicts h)) (objects h)).

(** [DBQueryCache.get] *)
Definition get (self : nat) (query : string) (h : heap) : result (option V) :=
  '(d, m) ← dict_of h self;
  Ok (m !! query).

(** [DBQueryCache.clear] *)
Definition clear (self : nat) (h : heap) : result heap :=
  _ ← dict_of h self;
  let '(h, d) := new_dict ∅ h in
  Ok (Heap (dicts h) (<[self := d]> (objects h))).

(** The [old_cache] argument of [DBQuery.__init__], as a reference. *)
Inductive old_cache_ref :=
  | RefNone
  | RefCache (o : nat)
  | RefDict (d : nat)
  | RefOther.

(** The end of [DBQuery.__init__]: the object's [cache] attribute. *)
Definition init_cache (use_cache : bool) (old_cache : old_cache_ref) (h : heap)
    : heap * option nat :=
  match use_cache, old_cache with
  | true, RefCache o => (h, Some o)
  | true, RefDict d => let '(h, o) := new_cache (Some d) h in (h, Some o)
  | true, RefNone => let '(h, o) := new_cache None h in (h, Some o)
  | _, _ => (h, None)
  end.

End heap.

Arguments Heap {V} dicts objects.
Arguments dicts {V} h.
Arguments objects {V} h.
Arguments initial {V}.
Arguments new_dict {V} d h.
Arguments new_cache {V} initialCache h.
Arguments dict_of {V} h self.
Arguments put {V} self query res h.
Arguments get {V} self query h.
Arguments clear {V} self h.
Arguments init_cache {V} use_cache old_cache h.

End DbQueryCacheHeap.

(** ** [utils/db_connection.py] *)

Module DbConnection.

Section DBConnection.

(** The values of the configuration, the connections and cursors of
    [cx_Oracle], and the state of the world outside the program. *)
Variables jvalue connection cursor world : Type.

(** What [json.load] returns: an object, or something else. *)
Inductive json :=
  | JObject (m : gmap string jvalue)
  | JOther.

(** [open(path, "r")] and the text read from it; [json.load] on a text;
    [os.getcwd()] and [pathlib]'s [/]; the string of a value in an
    f-string. *)
Variable open_ : string -> result string.
Variable json_load : string -> result json.
Variable cwd : string.
Variable path_join : string -> string -> string.
Variable format : jvalue -> string.

(** [cx_Oracle.connect(user, password, dsn, encoding="UTF-8")],
    [connection.cursor()] and [connection.close()]. *)
Variable cx_connect :
  world -> jvalue -> jvalue -> string -> world * result connection.
Variable conn_cursor : world -> connection -> world * result cursor.
Variable conn_close : world -> connection -> world * result unit.

Record DBConnection := MkDBConnection {
  root_folder : option string;
  config : json;
  connection_of : option connection
}.

Definition set_connection (self : DBConnection) (c : option connection)
    : DBConnection :=
  MkDBConnection (root_folder self) (config self) c.

(** The body of a [with open(path, "r") as f: ... json.load(f)]. *)
Definition load_config (path : string) : result json :=
  txt ← open_ path;
  json_load txt.

(** [DBConnection.__init__] *)
Definition init (config_file : string) (root : option string)
    : result DBConnection :=
  let config_path :=
    match root with
    | None => path_join cwd config_file
    | Some r => path_join r config_file
    end in
  match load_config config_path with
  | Ok c => Ok (MkDBConnection root c None)
  | Raise FileNotFoundError =>
      c ← load_config config_file;
      Ok (MkDBConnection root c None)
  | Raise e => Raise e
  end.

(** [config[key]] *)
Definition subscript (c : json) (key : string) : result jvalue :=
  match c with
  | JObject m =>
      match m !! key with
      | Some v => Ok v
      | None => Raise KeyError
      end
  | JOther => Raise TypeError
  end.

Definition line_feed : string := String newline EmptyString.

(** The f-string of [connect]. *)
Definition dsn_of (host port service : jvalue) : string :=
  "(DESCRIPTION =" +:+ line_feed
  +:+ "            (ADDRESS = (PROTOCOL = TCP)(HOST = " +:+ format host
  +:+ ")(PORT = " +:+ format port +:+ "))" +:+ line_feed
  +:+ "            (CONNECT_DATA =" +:+ line_feed
  +:+ "            (SERVER = DEDICATED)" +:+ line_feed
  +:+ "            (SERVICE_NAME = " +:+ format service +:+ ")))" +:+ line_feed
  +:+ "        ".

(** The arguments of [cx_Oracle.connect], in the order in which the code
    reads them from the configuration. *)
Definition connect_args (c : json) : result (jvalue * jvalue * string) :=
  host ← subscript c "host";
  port ← subscript c "port";
  service ← subscript c "service";
  user ← subscript c "user";
  pass ← subscript c "pass";
  Ok (user, pass, dsn_of host port service).

(** [DBConnection.connect]; the world and the object come back with the
    result. *)
Definition connect (self : DBConnection) (w : world)
    : world * DBConnection * result connection :=
  match connect_args (config self) with
  | Raise e => (w, self, Raise e)
  | Ok (user, pass, dsn) =>
      match cx_connect w user pass dsn with
      | (w', Ok c) => (w', set_connection self (Some c), Ok c)
      | (w', Raise e) => (w', self, Raise e)
      end
  end.

(** [DBConnection.disconnect] *)
Definition disconnect (self : DBConnection) (w : world)
    : world * DBConnection * result unit :=
  match connection_of self with
  | None => (w, self, Raise AttributeError)
  | Some c =>
      match conn_close w c with
      | (w', Ok _) => (w', set_connection self None, Ok tt)
      | (w', Raise e) => (w', self, Raise e)
      end
  end.

(** [DBConnection.get_cursor] *)
Definition get_cursor (self : DBConnection) (w : world)
    : world * DBConnection * result cursor :=
  match connection_of self with
  | Some c => let '(w', r) := conn_cursor w c in (w', self, r)
  | None =>
      match connect self w with
      | (w', self', Ok c) =>
          let '(w'', r) := conn_cursor w' c in (w'', self', r)
      | (w', self', Raise e) => (w', self', Raise e)
      end
  end.

End DBConnection.

Arguments JObject {jvalue} m.
Arguments JOther {jvalue}.
Arguments MkDBConnection {jvalue connection} root_folder config connection_of.
Arguments root_folder {jvalue connection} d.
Arguments config {jvalue connection} d.
Arguments connection_of {jvalue connection} d.
Arguments set_connection {jvalue connection} self c.
Arguments load_config {jvalue} open_ json_load path.
Arguments init {jvalue connection} open_ json_load cwd path_join config_file
  root.
Arguments subscript {jvalue} c key.
Arguments dsn_of {jvalue} format host port service.
Arguments connect_args {jvalue} format c.
Arguments connect {jvalue connection world} format cx_connect self w.
Arguments disconnect {jvalue connection world} conn_close self w.
Arguments get_cursor {jvalue connection cursor world} format cx_connect
  conn_cursor self w.

End DbConnection.

(** ** [notebooks/SELECT.py] *)

Module Select.
Import DbQueryUtils.

Section extract_table.

Context {cursor value : Type} `{!CursorAPI cursor value}.
Variables jvalue connection world : Type.

(** The environment of [DBConnection] and of [DBQuery]. *)
Variable open_ : string -> result string.
Variable json_load : string -> result (DbConnection.json jvalue).
Variable cwd : string.
Variable path_join : string -> string -> string.
Variable format : jvalue -> string.
Variable cx_connect :
  world -> jvalue -> jvalue -> string -> world * result connection.
Variable conn_cursor : world -> connection -> world * result cursor.
Variable fs : gmap string string.
Variable default_cache : gmap string (table value).

(** The folder that the notebook names. *)
Definition case_folder : string :=
  "C:\Users\a.tsereteli\Silknet_Cases\Case_11".

(** [extract_table]; the world comes back with the result, and the query
    object with the list that [run] returns. *)
Definition extract_table (query_name : string) (w : world)
    : world * result (DBQuery cursor value * list (table value)) :=
  match DbConnection.init (connection := connection) open_ json_load cwd
          path_join "db.conf.sample" (Some case_folder) with
  | Raise e => (w, Raise e)
  | Ok db_handler =>
      match DbConnection.get_cursor format cx_connect conn_cursor db_handler w
      with
      | (w, _, Raise e) => (w, Raise e)
      | (w, _, Ok cursor) =>
          (w,
           test_query ← init fs cwd path_join default_cache cursor
                          (Some query_name) None (Some "queries")
                          (Some case_folder) false None true OldNone None;
           run fs test_query true true)
      end
  end.

End extract_table.

End Select.

(** * Properties *)

(** ** Facts about the Python helpers *)

Module PyFacts.

Lemma append_assoc (a b c : string) :
  String.append (String.append a b) c = String.append a (String.append b c).
Proof.
  induction a as [|x a IH]; [done|].
  change (String x (String.append (String.append a b) c)
          = String x (String.append a (String.append b c))).
  by rewrite IH.
Qed.

Lemma append_empty_r (a : string) : String.append a EmptyString = a.
Proof.
  induction a as [|x a IH]; [done|].
  change (String x (String.append a EmptyString) = String x a). by rewrite IH.
Qed.

Lemma str_join_app (l k : list string) :
  str_join (l ++ k) = String.append (str_join l) (str_join k).
Proof.
  induction l as [|s l IH]; [done|].
  change (str_join ((s :: l) ++ k)) with (String.append s (str_join (l ++ k))).
  change (str_join (s :: l)) with (String.append s (str_join l)).
  by rewrite IH, append_assoc.
Qed.

Section indices.

Context {A : Type} (p : A -> bool).

Lemma indices_from_S (i0 : nat) (q : list A) :
  indices_from p (S i0) q = map S (indices_from p i0 q).
Proof.
  revert i0. induction q as [|e q IH]; intros i0; simpl; [done|].
  destruct (p e); simpl; by rewrite IH.
Qed.

Lemma indices_from_add (n i0 : nat) (q : list A) :
  indices_from p (n + i0) q = map (Nat.add n) (indices_from p i0 q).
Proof.
  induction n as [|n IH]; simpl.
  - by rewrite map_id.
  - rewrite indices_from_S, IH, map_map. done.
Qed.

Lemma indices_from_app (i0 : nat) (l k : list A) :
  indices_from p i0 (l ++ k)
  = indices_from p i0 l ++ indices_from p (length l + i0) k.
Proof.
  revert i0. induction l as [|e l IH]; intros i0; simpl; [done|].
  rewrite IH. replace (length l + S i0)%nat with (S (length l + i0)) by lia.
  by destruct (p e).
Qed.

Lemma indices_from_none (i0 : nat) (l : list A) :
  Forall (fun e => p e = false) l -> indices_from p i0 l = [].
Proof.
  intros H. revert i0. induction H as [|e l He _ IH]; intros i0; simpl; [done|].
  by rewrite He, IH.
Qed.

Lemma indices_from_ge (i0 i : nat) (q : list A) :
  i ∈ indices_from p i0 q -> (i0 <= i)%nat.
Proof.
  revert i0. induction q as [|e q IH]; intros i0; simpl.
  - by intros ?%elem_of_nil.
  - destruct (p e).
    + intros [->|H]%elem_of_cons; [lia|]. apply IH in H. lia.
    + intros H. apply IH in H. lia.
Qed.

(** The positions come out in increasing order. *)
Lemma indices_from_sorted (i0 : nat) (q : list A) :
  StronglySorted lt (indices_from p i0 q).
Proof.
  revert i0. induction q as [|e q IH]; intros i0; simpl; [constructor|].
  destruct (p e); [|apply IH].
  constructor; [apply IH|].
  apply Forall_forall. intros i Hi%indices_from_ge. lia.
Qed.

End indices.

Lemma sorted_lookup_lt (l : list nat) (i j x y : nat) :
  StronglySorted lt l -> (i < j)%nat ->
  l !! i = Some x -> l !! j = Some y -> (x < y)%nat.
Proof.
  intros Hs. revert i j. induction Hs as [|a l Hs IH Ha]; intros i j Hij Hi Hj.
  - done.
  - destruct j as [|j]; [lia|]. destruct i as [|i]; simpl in *.
    + simplify_eq. rewrite Forall_forall in Ha. apply Ha.
      by eapply list_elem_of_lookup_2.
    + eapply IH; [|done..]. lia.
Qed.

(** An earlier stop gives a slice that the later slice extends. *)
Lemma slice_prefix {A} (a b c : nat) (q : list A) :
  (b <= c)%nat -> slice a (Some b) q `prefix_of` slice a (Some c) q.
Proof.
  intros Hbc. unfold slice.
  replace (b - a)%nat with ((b - a) `min` (c - a))%nat by lia.
  rewrite <- take_take. apply prefix_take.
Qed.

Lemma slice_prefix_open {A} (a : nat) (b : option nat) (q : list A) :
  slice a b q `prefix_of` slice a None q.
Proof.
  destruct b as [b|]; simpl; [|done].
  exists (drop (b - a) (drop a q)). by rewrite take_drop.
Qed.

Lemma py_range_pos (start stop step : Z) :
  0 < step ->
  py_range start stop step
  = Ok (map (fun k : nat => start + step * Z.of_nat k)
            (seq 0 (Z.to_nat (range_len start stop step)))).
Proof.
  intros H. unfold py_range. destruct (Z.eqb_spec step 0); [lia|done].
Qed.

(** For a positive step the range holds exactly the numbers
    [start + step * k], [k >= 0], below [stop]. *)
Lemma py_range_pos_lookup (start stop step : Z) (l : list Z) (k : nat) (n : Z) :
  0 < step -> py_range start stop step = Ok l ->
  l !! k = Some n <-> n = start + step * Z.of_nat k /\ n < stop.
Proof.
  intros Hs. rewrite py_range_pos by done. intros [= <-].
  rewrite list_lookup_fmap, fmap_Some.
  setoid_rewrite lookup_seq. unfold range_len.
  destruct (Z.ltb_spec 0 step); [|lia].
  destruct (Z.ltb_spec start stop).
  - assert (Hd := Z.div_mod (stop - start - 1) step ltac:(lia)).
    assert (Hm := Z.mod_pos_bound (stop - start - 1) step ltac:(lia)).
    assert (0 <= (stop - start - 1) / step) by (apply Z.div_pos; lia).
    split.
    + intros (k' & [-> Hk] & ->). split; [done|]. simpl in Hk. nia.
    + intros [-> Hlt]. exists k. split; [|done]. split; [done|]. simpl. nia.
  - split.
    + intros (k' & [-> Hk] & ->). simpl in Hk. lia.
    + intros [-> Hlt]. nia.
Qed.

End PyFacts.

(** ** Properties of [utils/db_query_utils.py] *)

Module DbQueryFacts.
Import DbQueryUtils PyFacts.

(** [zip(xs, xs[1:] + [None])]: every position with the next one. *)
Definition with_next (xs : list nat) : list (nat * option nat) :=
  zip xs (map Some (tail xs) ++ [None]).

Lemma with_next_cons (a : nat) (xs : list nat) :
  with_next (a :: xs) = (a, head xs) :: with_next xs.
Proof. by destruct xs. Qed.

Lemma with_next_shift (n : nat) (xs : list nat) :
  with_next (map (Nat.add n) xs)
  = map (fun ab => (n + ab.1, Nat.add n <$> ab.2)%nat) (with_next xs).
Proof.
  induction xs as [|a xs IH]; [done|].
  change (map (Nat.add n) (a :: xs)) with ((n + a)%nat :: map (Nat.add n) xs).
  rewrite !with_next_cons, IH. by destruct xs.
Qed.

Lemma slice_shift {A} (pre l : list A) (a : nat) (b : option nat) :
  slice (length pre + a) (Nat.add (length pre) <$> b) (pre ++ l) = slice a b l.
Proof.
  unfold slice. destruct b as [b|]; simpl.
  - rewrite drop_app_add. f_equal. lia.
  - by rewrite drop_app_add.
Qed.

Lemma process_subqueries_unfold (qry : list string) :
  process_subqueries qry
  = map (fun ab => process_steps (slice ab.1 ab.2 qry))
        (with_next (indices is_sub_query qry)).
Proof. unfold process_subqueries, with_next. by rewrite map_map. Qed.

(** Lines in front that carry no [SUB_QUERY] marker change nothing. *)
Lemma process_subqueries_drop_prefix (pre l : list string) :
  Forall (fun e => is_sub_query e = false) pre ->
  process_subqueries (pre ++ l) = process_subqueries l.
Proof.
  intros Hpre. rewrite !process_subqueries_unfold. unfold indices.
  rewrite indices_from_app, (indices_from_none _ _ _ Hpre), app_nil_l.
  rewrite indices_from_add, with_next_shift, map_map.
  apply map_ext. intros [a b]. simpl. by rewrite slice_shift.
Qed.

Lemma process_subqueries_no_marker (l : list string) :
  Forall (fun e => is_sub_query e = false) l -> process_subqueries l = [].
Proof.
  intros H. rewrite process_subqueries_unfold. unfold indices.
  by rewrite (indices_from_none _ _ _ H).
Qed.

Lemma process_steps_unfold (q : list string) :
  process_steps q
  = match indices is_step q with
    | base :: rest =>
        map (fun s => str_join (slice base s q)) (map Some rest ++ [None])
    | [] => [str_join (slice 0 None q)]
    end.
Proof.
  unfold process_steps. destruct (indices is_step q); [done|].
  by rewrite !map_map.
Qed.

(** The stops of a group's steps: the later markers in increasing order, then
    the open end. *)
Lemma stops_ordered (rest : list nat) (i j : nat) (bi bj : option nat) :
  StronglySorted lt rest -> (i <= j)%nat ->
  (map Some rest ++ [None]) !! i = Some bi ->
  (map Some rest ++ [None]) !! j = Some bj ->
  bj = None \/ exists x y, bi = Some x /\ bj = Some y /\ (x <= y)%nat.
Proof.
  intros Hs Hij Hi Hj.
  destruct (decide (j < length rest)%nat) as [Hlt|Hge].
  - right.
    rewrite lookup_app_l, list_lookup_fmap in Hi by (rewrite length_map; lia).
    rewrite lookup_app_l, list_lookup_fmap in Hj by (rewrite length_map; lia).
    destruct (rest !! i) as [x|] eqn:Hx; [|done].
    destruct (rest !! j) as [y|] eqn:Hy; [|done].
    simpl in *. simplify_eq. exists x, y. split_and!; [done..|].
    destruct (decide (i = j)) as [->|Hne]; [naive_solver lia|].
    assert (x < y)%nat; [|lia].
    eapply sorted_lookup_lt; [done| |exact Hx|exact Hy]. lia.
  - left.
    rewrite lookup_app_r in Hj by (rewrite length_map; lia).
    rewrite length_map in Hj.
    destruct (j - length rest)%nat; simpl in Hj; [by simplify_eq|done].
Qed.

Section DBQuery.

Context {cursor value : Type} `{!CursorAPI cursor value}.
Variable fs : gmap string string.
Variable cwd : string.
Variable path_join : string -> string -> string.
Variable default_cache : gmap string (table value).

Lemma load_lines_set_qry (self : DBQuery cursor value) (q : list (list string)) :
  load_lines fs (set_qry self q) = load_lines fs self.
Proof. done. Qed.

Lemma populate_query_spec (self s1 : DBQuery cursor value) :
  populate_query fs self = Ok s1 <->
  exists lines, load_lines fs self = Ok lines /\
    s1 = set_qry self (if by_steps self then process_subqueries lines
                       else [[str_join lines]]).
Proof.
  unfold populate_query.
  destruct (load_lines fs self) as [lines|e]; simpl.
  - split.
    + intros H. exists lines. split; [done|]. by destruct (by_steps self); simplify_eq.
    + intros (? & [= <-] & ->). by destruct (by_steps self).
  - split; [done|]. by intros (? & ? & _).
Qed.

Lemma run_steps_nil (self : DBQuery cursor value)
    (uc tr : bool) :
  run_steps self [] uc tr = Ok (self, []).
Proof. done. Qed.

Lemma populate_query_no_assertion (self : DBQuery cursor value) :
  populate_query fs self <> Raise AssertionError.
Proof.
  unfold populate_query, load_lines.
  destruct (by_file self), (file_path self) as [p|], (raw_qry self),
    (by_steps self); simpl; try done; by destruct (fs !! p).
Qed.

Lemma populate_query_fixed (self s1 : DBQuery cursor value) :
  populate_query fs self = Ok s1 -> populate_query fs s1 = Ok s1.
Proof.
  intros (lines & Hl & ->)%populate_query_spec.
  apply populate_query_spec. exists lines. split; [done|].
  by destruct self, by_steps0.
Qed.

(** The object that the constructor returns is one that [run]'s
    reprocessing leaves as it is. *)
Lemma init_then_populate (cur : cursor) fn q bf root steps lim uc
    (oc : old_cache_arg value) tr (self : DBQuery cursor value) :
  init fs cwd path_join default_cache cur fn q bf root steps lim uc oc tr = Ok self ->
  populate_query fs self = Ok self.
Proof.
  unfold init.
  destruct (py_assert _); simpl; [|done].
  destruct fn as [f|]; simpl.
  - destruct root as [r|]; simpl.
    + destruct bf as [b|]; simpl; [|done].
      match goal with |- context [populate_query fs ?s] =>
        destruct (populate_query fs s) as [s1|] eqn:Hp end; simpl; [|done].
      intros [= <-]. apply populate_query_fixed in Hp.
      apply populate_query_spec in Hp as (lines & Hl & Hs).
      apply populate_query_spec. exists lines. split; [done|].
      destruct s1. simpl in *. unfold set_qry in *. simpl in *. by simplify_eq.
    + match goal with |- context [populate_query fs ?s] =>
        destruct (populate_query fs s) as [s1|] eqn:Hp end; simpl; [|done].
      intros [= <-]. apply populate_query_fixed in Hp.
      apply populate_query_spec in Hp as (lines & Hl & Hs).
      apply populate_query_spec. exists lines. split; [done|].
      destruct s1. simpl in *. unfold set_qry in *. simpl in *. by simplify_eq.
  - destruct root as [r|]; simpl.
    + by destruct bf.
    + match goal with |- context [populate_query fs ?s] =>
        destruct (populate_query fs s) as [s1|] eqn:Hp end; simpl; [|done].
      intros [= <-]. apply populate_query_fixed in Hp.
      apply populate_query_spec in Hp as (lines & Hl & Hs).
      apply populate_query_spec. exists lines. split; [done|].
      destruct s1. simpl in *. unfold set_qry in *. simpl in *. by simplify_eq.
Qed.

(** C5. Query splitting is deterministic and idempotent: once
    [__populate_query] has processed the text, processing it again (as
    [DBQuery.run] does first) returns the same object state, with the same
    ordered list of groups of step strings; [run] then executes exactly those
    steps; and any object with the same text and flags gets the same list. *)
Theorem populate_query_idempotent (self s1 : DBQuery cursor value) :
  populate_query fs self = Ok s1 ->
  populate_query fs s1 = Ok s1
  /\ (forall uc tr,
        run fs s1 uc tr = run_steps s1 (concat (default [] (qry s1))) uc tr)
  /\ (forall other s2 : DBQuery cursor value,
        by_file other = by_file self -> file_path other = file_path self ->
        raw_qry other = raw_qry self -> by_steps other = by_steps self ->
        populate_query fs other = Ok s2 -> qry s2 = qry s1).
Proof.
  intros Hp. pose proof (populate_query_fixed _ _ Hp) as Hfix.
  split_and!; [done| |].
  - intros uc tr. unfold run. by rewrite Hfix.
  - intros other s2 Hbf Hfp Hrq Hbs Hp2.
    apply populate_query_spec in Hp as (lines & Hl & ->).
    apply populate_query_spec in Hp2 as (lines2 & Hl2 & ->).
    unfold load_lines in *. rewrite Hbf, Hfp, Hrq, Hl in Hl2.
    simplify_eq. simpl. by rewrite Hbs.
Qed.

(** C7. The constructor raises [AssertionError] exactly when both
    [file_name] and [query] are [None], whatever the other arguments are. *)
Theorem init_assertion (cur : cursor) (fn q bf root : option string) (steps : bool)
    (lim : option Z) (uc : bool) (oc : old_cache_arg value)
    (tr : option (list (string * (value -> value)))) :
  init fs cwd path_join default_cache cur fn q bf root steps lim uc oc tr
    = Raise AssertionError
  <-> fn = None /\ q = None.
Proof.
  unfold init. split.
  - destruct fn as [f|], q as [q|]; simpl; try done;
      destruct root as [r|], bf as [b|]; simpl; try done;
      match goal with |- context [populate_query fs ?s] =>
        pose proof (populate_query_no_assertion s);
        by destruct (populate_query fs s) as [s1|[]]
      end.
  - by intros [-> ->].
Qed.

(** C8. With [by_steps] set and no line containing [SUB_QUERY], the
    processed query is the empty list of groups, and [run] returns the empty
    list without touching the cursor or the cache; and in general the lines
    in front of the first [SUB_QUERY] line are dropped from every step. *)
Theorem no_sub_query_runs_nothing :
  (forall (self : DBQuery cursor value) (lines : list string) (uc tr : bool),
      by_steps self = true -> load_lines fs self = Ok lines ->
      Forall (fun e => contains "SUB_QUERY" e = false) lines ->
      populate_query fs self = Ok (set_qry self [])
      /\ run fs self uc tr = Ok (set_qry self [], []))
  /\ (forall pre l : list string,
        Forall (fun e => contains "SUB_QUERY" e = false) pre ->
        process_subqueries (pre ++ l) = process_subqueries l).
Proof.
  split.
  - intros self lines uc tr Hs Hl Hno.
    assert (populate_query fs self = Ok (set_qry self [])) as Hp.
    { apply populate_query_spec. exists lines. split; [done|].
      by rewrite Hs, process_subqueries_no_marker. }
    split; [done|]. unfold run. by rewrite Hp.
  - intros pre l Hpre. by apply process_subqueries_drop_prefix.
Qed.

End DBQuery.

(** The positions that [indices] returns are the positions of the lines
    that satisfy the test. *)
Lemma elem_of_indices_from {A} (p : A -> bool) (i0 i : nat) (q : list A) :
  i ∈ indices_from p i0 q <->
  (i0 <= i)%nat /\ exists e, q !! (i - i0)%nat = Some e /\ p e = true.
Proof.
  revert i0. induction q as [|e q IH]; intros i0; simpl.
  - split; [by intros ?%elem_of_nil|]. by intros (_ & ? & ? & _).
  - assert (i ∈ indices_from p (S i0) q <->
            (i0 < i)%nat /\ exists e', (e :: q) !! (i - i0)%nat = Some e'
                                       /\ p e' = true) as Hrest.
    { rewrite IH. split.
      - intros (Hle & e' & Hl & He). split; [lia|]. exists e'.
        split; [|done]. by replace (i - i0)%nat with (S (i - S i0)) by lia.
      - intros (Hlt & e' & Hl & He). split; [lia|]. exists e'.
        split; [|done].
        by replace (i - i0)%nat with (S (i - S i0)) in Hl by lia. }
    destruct (p e) eqn:He.
    + rewrite elem_of_cons, Hrest. split.
      * intros [->|(Hlt & Hex)]; [|split; [lia|done]].
        split; [lia|]. exists e. by rewrite Nat.sub_diag.
      * intros (Hle & e' & Hl & He').
        destruct (decide (i = i0)) as [->|Hne]; [by left|right].
        split; [lia|]. by exists e'.
    + rewrite Hrest. split.
      * intros (Hlt & Hex). split; [lia|done].
      * intros (Hle & e' & Hl & He').
        destruct (decide (i = i0)) as [->|Hne].
        -- rewrite Nat.sub_diag in Hl. simpl in Hl. congruence.
        -- split; [lia|]. by exists e'.
Qed.

Lemma elem_of_indices {A} (p : A -> bool) (i : nat) (q : list A) :
  i ∈ indices p q <-> exists e, q !! i = Some e /\ p e = true.
Proof.
  unfold indices. rewrite elem_of_indices_from, Nat.sub_0_r. split.
  - by intros [_ ?].
  - intros ?. split; [lia|done].
Qed.

(** C9. The markers of a group are the positions of its lines that contain
    [BASE_QUERY] or [QUERY_STEP], in increasing order. The steps of the
    group are, in this order: for every marker after the first, the lines
    from the first marker up to that marker, joined; and last, the lines
    from the first marker to the end of the group, joined (from the start of
    the group when it has no marker). So every step starts at the first
    marker, an earlier step is a prefix of every later one, and the last
    step runs to the end of the group. *)
Theorem process_steps_prefix (q : list string) :
  let markers := indices is_step q in
  let base := default 0%nat (head markers) in
  StronglySorted lt markers
  /\ (forall i, i ∈ markers <-> exists e, q !! i = Some e /\ is_step e = true)
  /\ process_steps q
     = map (fun stop => str_join (slice base stop q))
           (map Some (tail markers) ++ [None])
  /\ (forall i s, process_steps q !! i = Some s ->
        exists stop, s = str_join (slice base stop q))
  /\ (forall i j s t, (i <= j)%nat ->
        process_steps q !! i = Some s -> process_steps q !! j = Some t ->
        exists r, t = String.append s r)
  /\ last (process_steps q) = Some (str_join (drop base q)).
Proof.
  cbv zeta.
  split; [apply indices_from_sorted|].
  split; [intros i; apply elem_of_indices|].
  rewrite process_steps_unfold.
  pose proof (indices_from_sorted is_step 0 q) as Hsorted.
  fold (indices is_step q) in Hsorted.
  destruct (indices is_step q) as [|base rest]; simpl.
  - split_and!; [done| | |done].
    + intros [|i] s Hs; simplify_eq/=. by exists None.
    + intros [|i] [|j] s t _ Hi Hj; simplify_eq/=.
      exists EmptyString. by rewrite append_empty_r.
  - apply StronglySorted_inv in Hsorted as [Hsorted _].
    split_and!.
    + done.
    + intros i s Hs. apply list_lookup_fmap_Some in Hs as (stop & -> & ?).
      by exists stop.
    + intros i j s t Hij Hs Ht.
      apply list_lookup_fmap_Some in Hs as (bi & -> & Hbi).
      apply list_lookup_fmap_Some in Ht as (bj & -> & Hbj).
      assert (slice base bi q `prefix_of` slice base bj q) as [k ->].
      { destruct (stops_ordered _ _ _ _ _ Hsorted Hij Hbi Hbj)
          as [->|(x & y & -> & -> & Hxy)].
        - apply slice_prefix_open.
        - by apply slice_prefix. }
      rewrite str_join_app. by eexists.
    + rewrite map_app. cbn [map]. by rewrite last_snoc.
Qed.

(** *** A concrete query, for the examples *)

(** A cursor that answers every statement with an empty table. *)
#[local] Instance null_cursor : CursorAPI unit unit :=
  {| execute := fun c _ => Ok c;
     description := fun _ => Some [];
     fetchall := fun c => (c, []);
     fetchmany := fun c _ => (c, []) |}.

Definition nl : string := String newline EmptyString.

Definition example_text : string :=
  "-- header" +:+ nl +:+ "-- SUB_QUERY 1" +:+ nl +:+ "-- BASE_QUERY" +:+ nl
  +:+ "select 1" +:+ nl +:+ "-- QUERY_STEP" +:+ nl +:+ "from dual".

Definition example_query : DBQuery unit unit :=
  MkDBQuery None false None (Some example_text) true None tt None None (Some ∅).

Definition example_processed : DBQuery unit unit :=
  set_qry example_query
    [["-- BASE_QUERYselect 1"; "-- BASE_QUERYselect 1-- QUERY_STEPfrom dual"]].

Example example_populate :
  populate_query ∅ example_query = Ok example_processed.
Proof. vm_compute. reflexivity. Qed.

Example example_constructor_asserts :
  init (value := unit) ∅ "/home" (fun a b => a +:+ "/" +:+ b) ∅ tt None None None
    None true None true OldNone None = Raise AssertionError.
Proof. reflexivity. Qed.

Example example_constructor_query :
  init (value := unit) ∅ "/home" (fun a b => a +:+ "/" +:+ b) ∅ tt None
    (Some example_text) None None true None true OldNone None
  = Ok example_processed.
Proof. vm_compute. reflexivity. Qed.

(** A query text without any marker. *)
Definition example_plain : DBQuery unit unit :=
  MkDBQuery None false None (Some ("select 1" +:+ nl +:+ "from dual")) true
    None tt None None (Some ∅).

Example example_no_sub_query :
  run ∅ example_plain true true
  = Ok (MkDBQuery None false None (Some ("select 1" +:+ nl +:+ "from dual"))
          true (Some []) tt None None (Some ∅), []).
Proof. vm_compute. reflexivity. Qed.

(** With [by_steps] off the text is one step, the lines joined without their
    line feeds, and it is sent to the cursor. *)
Example example_not_by_steps :
  (run ∅ (MkDBQuery None false None (Some ("select 1" +:+ nl +:+ "from dual"))
            false None tt None None None) true true)
  = Ok (MkDBQuery None false None (Some ("select 1" +:+ nl +:+ "from dual"))
          false (Some [["select 1from dual"]]) tt None None None,
        [Table [] []]).
Proof. vm_compute. reflexivity. Qed.

Lemma populate_query_idempotent_witness :
  populate_query ∅ example_processed = Ok example_processed
  /\ (forall uc tr,
        run ∅ example_processed uc tr
        = run_steps example_processed
            (concat (default [] (qry example_processed))) uc tr)
  /\ (forall other s2 : DBQuery unit unit,
        by_file other = by_file example_query ->
        file_path other = file_path example_query ->
        raw_qry other = raw_qry example_query ->
        by_steps other = by_steps example_query ->
        populate_query ∅ other = Ok s2 -> qry s2 = qry example_processed).
Proof.
  apply (populate_query_idempotent ∅ example_query).
  vm_compute. reflexivity.
Defined.

Lemma init_assertion_witness :
  init (cursor := unit) (value := unit) ∅ "/home"
    (fun a b => a +:+ "/" +:+ b) ∅ tt None None (Some "queries") None true
    (Some 10) true OldNone None = Raise AssertionError.
Proof.
  apply (init_assertion (cursor := unit) (value := unit) ∅ "/home"
           (fun a b => a +:+ "/" +:+ b) ∅ tt None None (Some "queries") None
           true (Some 10) true OldNone None).
  by split.
Defined.

Lemma no_sub_query_runs_nothing_witness :
  (populate_query ∅ example_plain = Ok (set_qry example_plain [])
   /\ run ∅ example_plain true true = Ok (set_qry example_plain [], []))
  /\ process_subqueries (["-- header" +:+ nl] ++ split_nl example_text)
     = process_subqueries (split_nl example_text).
Proof.
  destruct (no_sub_query_runs_nothing (cursor := unit) (value := unit) ∅)
    as [Hrun Hdrop].
  split.
  - apply (Hrun example_plain (split_nl ("select 1" +:+ nl +:+ "from dual"))).
    + reflexivity.
    + reflexivity.
    + repeat constructor.
  - apply Hdrop. by repeat constructor.
Defined.

Lemma process_steps_prefix_witness :
  let q := ["-- SUB_QUERY 1"; "-- BASE_QUERY"; "select 1"; "-- QUERY_STEP";
            "from dual"] in
  let markers := indices is_step q in
  let base := default 0%nat (head markers) in
  StronglySorted lt markers
  /\ (forall i, i ∈ markers <-> exists e, q !! i = Some e /\ is_step e = true)
  /\ process_steps q
     = map (fun stop => str_join (slice base stop q))
           (map Some (tail markers) ++ [None])
  /\ (forall i s, process_steps q !! i = Some s ->
        exists stop, s = str_join (slice base stop q))
  /\ (forall i j s t, (i <= j)%nat ->
        process_steps q !! i = Some s -> process_steps q !! j = Some t ->
        exists r, t = String.append s r)
  /\ last (process_steps q) = Some (str_join (drop base q)).
Proof.
  exact (process_steps_prefix
           ["-- SUB_QUERY 1"; "-- BASE_QUERY"; "select 1"; "-- QUERY_STEP";
            "from dual"]).
Defined.

(** The steps of that group: the marker lines are at 1 and 3. *)
Example example_steps :
  indices is_step ["-- SUB_QUERY 1"; "-- BASE_QUERY"; "select 1";
                   "-- QUERY_STEP"; "from dual"] = [1; 3]%nat
  /\ process_steps ["-- SUB_QUERY 1"; "-- BASE_QUERY"; "select 1";
                    "-- QUERY_STEP"; "from dual"]
     = ["-- BASE_QUERYselect 1"; "-- BASE_QUERYselect 1-- QUERY_STEPfrom dual"].
Proof. split; vm_compute; reflexivity. Qed.

(** A literal query is always processed: [__populate_query] raises for a
    file only. *)
Lemma populate_query_literal {cursor value : Type} (fs : gmap string string)
    (self : DBQuery cursor value) (q : string) :
  by_file self = false -> raw_qry self = Some q ->
  populate_query fs self
  = Ok (set_qry self (if by_steps self then process_subqueries (split_nl q)
                      else [[str_join (split_nl q)]])).
Proof.
  intros Hf Hq. apply populate_query_spec. exists (split_nl q).
  split; [|done]. unfold load_lines. by rewrite Hf, Hq.
Qed.

End DbQueryFacts.

(** ** Properties of [utils/power_analysis.py] *)

Module PowerFacts.
Import PowerAnalysis PyFacts.

(** *** The scan, for every arithmetic *)

Section arithmetic.

Context {F : Type} {arithmetic : Numbers F}.

(** The third component of [get_p_val_and_power]'s answer is the test the
    code writes: enough power and a small enough p-value. *)
Lemma significant_flag (nobs_A : Z) (p_A mde : F) (nobs_B : option Z)
    (two_sided : bool) (sig min_power p pw : F) (b : bool) :
  get_p_val_and_power nobs_A p_A mde nobs_B two_sided sig min_power
    = Ok (p, pw, b) ->
  b = true <-> ge pw min_power = Ok true /\ le p sig = Ok true.
Proof.
  unfold get_p_val_and_power.
  repeat match goal with
         | |- context [mbind _ ?m] =>
             lazymatch m with
             | ge _ _ => fail
             | _ => destruct m; simpl; [|done]
             end
         end.
  match goal with
  | |- context [mbind _ (ge ?x min_power)] =>
      destruct (ge x min_power) as [[|]|] eqn:Hge; simpl
  end.
  - match goal with
    | |- context [mbind _ (le ?x sig)] =>
        destruct (le x sig) as [b'|] eqn:Hle; simpl
    end.
    + intros [= <- <- <-]. rewrite Hge, Hle.
      split; [by intros ->|]. by intros [_ [= ->]].
    + intros [=].
  - intros [= <- <- <-]. rewrite Hge. split; [done|]. by intros [[=] _].
  - intros [=].
Qed.

(** [p_val *= 2]: whatever the arithmetic, the two-sided p-value is the
    one-sided one times two. *)
Lemma get_p_value_doubles (mean sd : F) :
  get_p_value mean sd true
  = (p_val ← get_p_value mean sd false; two ← of_int 2; mul p_val two).
Proof.
  unfold get_p_value.
  destruct (div mean sd) as [z|]; simpl; [|done].
  destruct (absolute z) as [a|]; simpl; [|done].
  by destruct (norm_sf a).
Qed.

Section scan.

Variables (p_A mde : F) (two_sided : bool) (sig min_power : F).

(** The candidate [n] is evaluated and found significant. *)
Definition qualifies (n : Z) : Prop :=
  exists p pw,
    get_p_val_and_power n p_A mde None two_sided sig min_power = Ok (p, pw, true)
    /\ ge pw min_power = Ok true /\ le p sig = Ok true.

(** The candidate [n] is evaluated and found not significant. *)
Definition falls_short (n : Z) : Prop :=
  exists p pw,
    get_p_val_and_power n p_A mde None two_sided sig min_power = Ok (p, pw, false)
    /\ ~ (ge pw min_power = Ok true /\ le p sig = Ok true).

Lemma scan_found (candidates : list Z) (n : Z) :
  scan_sample_sizes candidates p_A mde two_sided sig min_power = Ok (Some n) ->
  exists pre post,
    candidates = pre ++ n :: post /\ qualifies n /\ Forall falls_short pre.
Proof.
  induction candidates as [|c cs IH]; simpl; [done|].
  destruct (get_p_val_and_power c _ _ _ _ _ _) as [[[p pw] b]|] eqn:He;
    simpl; [|done].
  pose proof (significant_flag _ _ _ _ _ _ _ _ _ _ He) as Hb.
  destruct b.
  - intros [= ->]. exists [], cs. split_and!; [done| |done].
    exists p, pw. by split; [|apply Hb].
  - intros (pre & post & -> & Hq & Hpre)%IH.
    exists (c :: pre), post. split_and!; [done..|].
    constructor; [|done]. exists p, pw. split; [done|].
    intros Hs. by apply Hb in Hs.
Qed.

Lemma scan_none (candidates : list Z) :
  Forall falls_short candidates ->
  scan_sample_sizes candidates p_A mde two_sided sig min_power = Ok None.
Proof.
  induction 1 as [|c cs (p & pw & He & _) _ IH]; simpl; [done|].
  by rewrite He.
Qed.

(** The scan goes past the candidates that fall short and stops at the
    first other one, with its size or with its exception. *)
Lemma scan_first (pre post : list Z) (n : Z) :
  Forall falls_short pre -> qualifies n ->
  scan_sample_sizes (pre ++ n :: post) p_A mde two_sided sig min_power
  = Ok (Some n).
Proof.
  intros Hpre (p & pw & He & _).
  induction Hpre as [|c cs (p' & pw' & He' & _) _ IH]; simpl.
  - by rewrite He.
  - by rewrite He'.
Qed.

Lemma scan_raise (pre post : list Z) (n : Z) (e : exn) :
  Forall falls_short pre ->
  get_p_val_and_power n p_A mde None two_sided sig min_power = Raise e ->
  scan_sample_sizes (pre ++ n :: post) p_A mde two_sided sig min_power
  = Raise e.
Proof.
  intros Hpre He.
  induction Hpre as [|c cs (p' & pw' & He' & _) _ IH]; simpl.
  - by rewrite He.
  - by rewrite He'.
Qed.

(** For a positive step, the candidates up to the [k]-th multiple. *)
Lemma candidates_split (step_size max_feasible k : Z) (cands : list Z) :
  (0 < step_size)%Z -> (1 <= k)%Z -> (k * step_size < max_feasible)%Z ->
  py_range step_size max_feasible step_size = Ok cands ->
  exists pre post,
    cands = pre ++ (k * step_size)%Z :: post
    /\ forall m, m ∈ pre ->
         exists j : Z, (1 <= j < k)%Z /\ m = (j * step_size)%Z.
Proof.
  intros Hstep Hk Hlt Hr.
  pose proof (fun i n => py_range_pos_lookup _ _ _ cands i n Hstep Hr) as Hl.
  assert (cands !! Z.to_nat (k - 1) = Some (k * step_size)%Z) as Hn.
  { apply Hl. split; [|done]. rewrite Z2Nat.id by lia. lia. }
  exists (take (Z.to_nat (k - 1)) cands), (drop (S (Z.to_nat (k - 1))) cands).
  split; [by rewrite take_drop_middle|].
  intros m [i Hi]%list_elem_of_lookup_1.
  apply lookup_take_Some in Hi as [Hi Hik].
  apply Hl in Hi as [-> _]. exists (Z.of_nat (S i)). split; lia.
Qed.

(** C1, as amended. With a positive step: a sample size that
    [calculate_min_sample_size] returns is the first multiple of the step
    below [max_feasible_observations] whose power reaches [min_power] with a
    p-value of at most the significance threshold, every smaller multiple
    having been evaluated and found short of that; such a first multiple is
    returned when there is one; when every multiple of the step below the
    bound falls short, the answer is [None]; and when the first multiple
    that does not fall short cannot be evaluated, its exception is the
    outcome. This holds for every arithmetic. *)
Theorem calculate_min_sample_size_first (step_size max_feasible : Z) :
  (0 < step_size)%Z ->
  (forall n : Z,
      calculate_min_sample_size p_A mde step_size max_feasible two_sided sig
        min_power = Ok (Some n) ->
      exists k : Z,
        (1 <= k)%Z /\ n = (k * step_size)%Z /\ (n < max_feasible)%Z
        /\ qualifies n
        /\ forall j : Z, (1 <= j < k)%Z -> falls_short (j * step_size))
  /\ (forall k : Z,
        (1 <= k)%Z -> (k * step_size < max_feasible)%Z ->
        qualifies (k * step_size) ->
        (forall j : Z, (1 <= j < k)%Z -> falls_short (j * step_size)) ->
        calculate_min_sample_size p_A mde step_size max_feasible two_sided sig
          min_power = Ok (Some (k * step_size)%Z))
  /\ ((forall j : Z, (1 <= j)%Z -> (j * step_size < max_feasible)%Z ->
         falls_short (j * step_size)) ->
      calculate_min_sample_size p_A mde step_size max_feasible two_sided sig
        min_power = Ok None)
  /\ (forall (k : Z) (e : exn),
        (1 <= k)%Z -> (k * step_size < max_feasible)%Z ->
        get_p_val_and_power (k * step_size) p_A mde None two_sided sig
          min_power = Raise e ->
        (forall j : Z, (1 <= j < k)%Z -> falls_short (j * step_size)) ->
        calculate_min_sample_size p_A mde step_size max_feasible two_sided sig
          min_power = Raise e).
Proof.
  intros Hstep. unfold calculate_min_sample_size.
  destruct (py_range step_size max_feasible step_size) as [cands|] eqn:Hr;
    [|by rewrite py_range_pos in Hr].
  pose proof (fun k n => py_range_pos_lookup _ _ _ cands k n Hstep Hr) as Hl.
  simpl. split_and!.
  - intros n (pre & post & -> & Hq & Hpre)%scan_found.
    exists (Z.of_nat (S (length pre))).
    assert ((pre ++ n :: post) !! length pre = Some n) as Hn
      by (by rewrite list_lookup_middle).
    apply Hl in Hn as [Hn Hlt].
    split_and!; [lia|lia|done|done|].
    intros j Hj. rewrite Forall_forall in Hpre.
    destruct (lookup_lt_is_Some_2 pre (Z.to_nat (j - 1))) as [m Hm]; [lia|].
    pose proof (lookup_app_l_Some _ (n :: post) _ _ Hm) as Hm'.
    apply Hl in Hm' as [-> _].
    replace (j * step_size)%Z
      with (step_size + step_size * Z.of_nat (Z.to_nat (j - 1)))%Z
      by (rewrite Z2Nat.id; lia).
    apply Hpre. by eapply list_elem_of_lookup_2.
  - intros k Hk Hlt Hq Hshort.
    destruct (candidates_split _ _ k _ Hstep Hk Hlt Hr)
      as (pre & post & -> & Hpre).
    apply scan_first; [|done]. apply Forall_forall.
    intros m (j & Hj & ->)%Hpre. by apply Hshort.
  - intros Hall. apply scan_none, Forall_forall.
    intros n [i Hi]%list_elem_of_lookup_1.
    apply Hl in Hi as [-> Hlt].
    replace (step_size + step_size * Z.of_nat i)%Z
      with (Z.of_nat (S i) * step_size)%Z in * by lia.
    apply Hall; [lia|done].
  - intros k e Hk Hlt He Hshort.
    destruct (candidates_split _ _ k _ Hstep Hk Hlt Hr)
      as (pre & post & -> & Hpre).
    apply scan_raise; [|done]. apply Forall_forall.
    intros m (j & Hj & ->)%Hpre. by apply Hshort.
Qed.

End scan.

(** A step of zero: [range] raises at once. *)
Lemma zero_step_raises (p_A mde : F) (max_feasible : Z) (two_sided : bool)
    (sig min_power : F) :
  calculate_min_sample_size p_A mde 0 max_feasible two_sided sig min_power
  = Raise ValueError.
Proof. done. Qed.

(** A positive step that is not below the bound leaves nothing to try. *)
Lemma nothing_to_try (p_A mde : F) (step_size max_feasible : Z)
    (two_sided : bool) (sig min_power : F) :
  (0 < step_size)%Z -> (max_feasible <= step_size)%Z ->
  calculate_min_sample_size p_A mde step_size max_feasible two_sided sig
    min_power = Ok None.
Proof.
  intros Hstep Hmax. unfold calculate_min_sample_size.
  rewrite py_range_pos by done. unfold range_len.
  destruct (Z.ltb_spec 0 step_size); [|lia].
  by destruct (Z.ltb_spec step_size max_feasible); [lia|].
Qed.

End arithmetic.

(** *** Real-number facts behind the power formula *)

Local Open Scope R_scope.


Lemma div_lt_cross (a b g1 g2 : R) :
  0 < g1 -> 0 < g2 -> a * g1 < b * g2 -> a / g2 < b / g1.
Proof.
  intros H1 H2 Hab.
  replace (a / g2) with (a * g1 * / (g1 * g2)) by (field; lra).
  replace (b / g1) with (b * g2 * / (g1 * g2)) by (field; lra).
  apply Rmult_lt_compat_r; [|done].
  apply Rinv_0_lt_compat. nra.
Qed.

Lemma div_nonneg (a b : R) : 0 <= a -> 0 < b -> 0 <= a / b.
Proof.
  intros Ha Hb. unfold Rdiv. apply Rmult_le_pos; [done|].
  left. by apply Rinv_0_lt_compat.
Qed.



(** The quantity that decides whether the power grows with the effect: with
    [K] the rate that group B must exceed for a significant result and [q]
    the rate of group B, [K * (1 - q) + q * (1 - K)]. It is linear in [q],
    and not negative for [K] and [q] in [[0, 1]]. *)
Definition threshold_margin (K q : R) : R := K * (1 - q) + q * (1 - K).

Lemma threshold_margin_unit (K q : R) :
  0 <= K <= 1 -> 0 <= q <= 1 -> 0 <= threshold_margin K q.
Proof. intros HK Hq. unfold threshold_margin. nra. Qed.

(** A rate of at most one half, with a threshold that is not negative. *)
Lemma threshold_margin_up_to_half (K q : R) :
  0 <= K -> 0 <= q <= 1 / 2 -> 0 <= threshold_margin K q.
Proof. intros HK Hq. unfold threshold_margin. nra. Qed.

(** A rate of at least one half that has reached the threshold. *)
Lemma threshold_margin_from_half (K q : R) :
  K <= q -> 1 / 2 <= q <= 1 -> 0 <= threshold_margin K q.
Proof. intros HK Hq. unfold threshold_margin. nra. Qed.


(** *** Floats read as real numbers *)

Lemma small_int_converts : (4294967296 < float_int_bound)%Z.
Proof. vm_compute. reflexivity. Qed.

Section scipy.

Variables norm_sf norm_isf : R -> R.

Local Abbreviation reals := (exact norm_sf norm_isf).
Local Abbreviation get_p_value := (get_p_value (arithmetic := reals)).
Local Abbreviation get_power := (get_power (arithmetic := reals)).
Local Abbreviation standard_error := (standard_error (arithmetic := reals)).
Local Abbreviation get_p_val_and_power :=
  (get_p_val_and_power (arithmetic := reals)).
Local Abbreviation calculate_min_sample_size :=
  (calculate_min_sample_size (arithmetic := reals)).

Lemma of_int_exact (z : Z) :
  (Z.abs z < float_int_bound)%Z ->
  of_int (Numbers := reals) z = Ok (IZR z).
Proof. intros Hz. simpl. by rewrite decide_True. Qed.

Lemma div_exact (x y : R) :
  y <> 0 -> div (Numbers := reals) x y = Ok (x / y).
Proof. intros Hy. simpl. by rewrite decide_False. Qed.

Lemma np_div_exact (x y : R) :
  y <> 0 -> np_div (Numbers := reals) x y = Ok (x / y).
Proof. intros Hy. simpl. by rewrite decide_False. Qed.

Lemma root_exact (x : R) :
  0 <= x -> root (Numbers := reals) x = Ok (sqrt x).
Proof. intros Hx. simpl. rewrite decide_False; [done|lra]. Qed.

Lemma standard_error_exact (p : R) (nobs : Z) :
  (0 < nobs < float_int_bound)%Z -> 0 <= p * (1 - p) ->
  standard_error p nobs = Ok (sqrt (p * (1 - p) / IZR nobs)).
Proof.
  intros Hn Hp. unfold PowerAnalysis.standard_error.
  pose proof small_int_converts.
  rewrite of_int_exact by (simpl; lia).
  cbn [mbind result_bind sub mul exact].
  rewrite of_int_exact by lia. cbn [mbind result_bind].
  assert (0 < IZR nobs) as Hpos by (apply IZR_lt; lia).
  rewrite div_exact by lra. cbn [mbind result_bind].
  apply root_exact. by apply div_nonneg.
Qed.

(** C4. For a positive standard deviation the two-sided p-value is exactly
    twice the one-sided p-value. *)
Theorem get_p_value_two_sided (mean sd : R) :
  0 < sd ->
  exists v : R,
    get_p_value mean sd false = Ok v /\ get_p_value mean sd true = Ok (2 * v).
Proof.
  intros Hsd. unfold PowerAnalysis.get_p_value.
  rewrite div_exact by lra.
  cbn [mbind result_bind absolute PowerAnalysis.norm_sf exact].
  pose proof small_int_converts.
  rewrite of_int_exact by (simpl; lia).
  cbn [mbind result_bind mul exact].
  eexists. split; [done|]. f_equal. lra.
Qed.

(** The significance that [get_power] is given. *)
Lemma significance_exact (two_sided : bool) (sig : R) :
  (if two_sided
   then two ← of_int (Numbers := reals) 2; div (Numbers := reals) sig two
   else Ok sig)
  = Ok (if two_sided then sig / 2 else sig).
Proof.
  destruct two_sided; [|done].
  pose proof small_int_converts.
  rewrite of_int_exact by (simpl; lia). cbn [mbind result_bind].
  apply div_exact. lra.
Qed.

(** For group sizes that a float can hold, a baseline rate in [[0, 1]] and
    a rate of group B strictly between 0 and 1, a one-sided test or a
    positive effect is evaluated without an exception, by the first branch
    of [get_power]. *)
Lemma get_p_val_and_power_eval (nobs_A : Z) (nobs_B : option Z)
    (p_A mde sig min_power : R) (two_sided : bool) :
  (0 < nobs_A < float_int_bound)%Z ->
  (0 < default nobs_A nobs_B < float_int_bound)%Z ->
  0 <= p_A <= 1 -> 0 < p_A + mde < 1 -> two_sided = false \/ 0 < mde ->
  let p_B := p_A + mde in
  let se1 := sqrt (p_A * (1 - p_A) / IZR nobs_A) in
  let se2 := sqrt (p_B * (1 - p_B) / IZR (default nobs_A nobs_B)) in
  let z := norm_isf (if two_sided then sig / 2 else sig) in
  let p_one := norm_sf (Rabs ((p_B - p_A) / sqrt (se1 ^ 2 + se2 ^ 2))) in
  let p_value := if two_sided then p_one * 2 else p_one in
  let power := norm_sf ((p_A + se1 * z - p_B) / se2) in
  get_p_val_and_power nobs_A p_A mde nobs_B two_sided sig min_power
  = Ok (p_value, power,
        bool_decide (power >= min_power) && bool_decide (p_value <= sig)).
Proof.
  intros HA HB Hp HpB Hbranch.
  assert (0 < IZR nobs_A) as HRA by (apply IZR_lt; lia).
  assert (0 < IZR (default nobs_A nobs_B)) as HRB by (apply IZR_lt; lia).
  set (nB := default nobs_A nobs_B) in *.
  unfold PowerAnalysis.get_p_val_and_power. fold nB.
  cbn [add exact mbind result_bind].
  set (p_B := p_A + mde) in *.
  rewrite significance_exact. cbn [mbind result_bind].
  rewrite (standard_error_exact p_A nobs_A) by (done || nra).
  cbn [mbind result_bind].
  rewrite (standard_error_exact p_B nB) by (done || nra).
  cbn [mbind result_bind square add exact].
  set (v1 := p_A * (1 - p_A) / IZR nobs_A).
  set (v2 := p_B * (1 - p_B) / IZR nB).
  assert (0 <= v1) as Hv1 by (apply div_nonneg; [nra|done]).
  assert (0 < v2) as Hv2 by (apply Rdiv_lt_0_compat; [nra|done]).
  pose proof (sqrt_pos v1) as Hse1. pose proof (sqrt_lt_R0 _ Hv2) as Hse2.
  set (se1 := sqrt v1) in *. set (se2 := sqrt v2) in *.
  assert (0 < se1 ^ 2 + se2 ^ 2) as Hsum by nra.
  rewrite root_exact by lra. cbn [mbind result_bind sub exact].
  pose proof (sqrt_lt_R0 _ Hsum) as Hsd.
  unfold PowerAnalysis.get_p_value. rewrite div_exact by lra.
  cbn [mbind result_bind absolute PowerAnalysis.norm_sf exact].
  assert ((if two_sided
           then two ← of_int (Numbers := reals) 2;
                mul (Numbers := reals)
                  (norm_sf (Rabs ((p_B - p_A) / sqrt (se1 ^ 2 + se2 ^ 2))))
                  two
           else Ok (norm_sf (Rabs ((p_B - p_A) / sqrt (se1 ^ 2 + se2 ^ 2)))))
          = Ok (if two_sided
                then norm_sf (Rabs ((p_B - p_A) / sqrt (se1 ^ 2 + se2 ^ 2)))
                     * 2
                else norm_sf (Rabs ((p_B - p_A) / sqrt (se1 ^ 2 + se2 ^ 2)))))
    as ->.
  { destruct two_sided; [|done]. pose proof small_int_converts.
    by rewrite of_int_exact by (simpl; lia). }
  cbn [mbind result_bind].
  unfold PowerAnalysis.get_power.
  cbn [mbind result_bind gt PowerAnalysis.norm_isf exact].
  assert (bool_decide (p_B > p_A) || negb two_sided = true) as ->.
  { destruct Hbranch as [->|Hm]; [by rewrite orb_true_r|].
    rewrite bool_decide_eq_true_2; [done|]. unfold p_B. lra. }
  cbn [mbind result_bind mul add sub exact].
  rewrite np_div_exact by lra.
  cbn [mbind result_bind PowerAnalysis.norm_sf ge le exact].
  by destruct (bool_decide (_ >= min_power)).
Qed.

Lemma get_p_val_and_power_first_branch (nobs_A : Z) (nobs_B : option Z)
    (p_A mde sig min_power : R) (two_sided : bool) :
  (0 < nobs_A < float_int_bound)%Z ->
  (0 < default nobs_A nobs_B < float_int_bound)%Z ->
  0 <= p_A <= 1 -> 0 < p_A + mde < 1 -> two_sided = false \/ 0 < mde ->
  exists (p_value : R) (significant : bool),
    get_p_val_and_power nobs_A p_A mde nobs_B two_sided sig min_power
    = Ok (p_value,
          norm_sf
            ((p_A
              + sqrt (p_A * (1 - p_A) / IZR nobs_A)
                * norm_isf (if two_sided then sig / 2 else sig)
              - (p_A + mde))
             / sqrt ((p_A + mde) * (1 - (p_A + mde))
                     / IZR (default nobs_A nobs_B))),
          significant).
Proof.
  intros HA HB Hp HpB Hbranch.
  rewrite get_p_val_and_power_eval by done. by eexists _, _.
Qed.



(** In particular: whenever the threshold is itself a rate, [0 <= K <= 1];
    for rates of group B up to one half and a critical value that is not
    negative; and for rates from one half on, once the effect has reached
    the threshold. *)
Lemma margin_cases (p_A se1 z e : R) :
  0 < p_A + e < 1 ->
  0 <= p_A + se1 * z <= 1
  \/ (0 <= p_A /\ 0 <= se1 * z /\ p_A + e <= 1 / 2)
  \/ (se1 * z <= e /\ 1 / 2 <= p_A + e) ->
  0 <= threshold_margin (p_A + se1 * z) (p_A + e).
Proof.
  intros Hq [HK|[(Hp & Hc & Hhalf)|[Hc Hhalf]]].
  - apply threshold_margin_unit; lra.
  - apply threshold_margin_up_to_half; lra.
  - apply threshold_margin_from_half; lra.
Qed.

(** With a baseline rate of zero and no effect, both standard errors are
    zero, the effect is divided by zero, and the evaluation raises. *)
Lemma no_variance_raises (nobs : Z) (two_sided : bool) (sig min_power : R) :
  (0 < nobs < float_int_bound)%Z ->
  get_p_val_and_power nobs 0 0 None two_sided sig min_power
  = Raise ZeroDivisionError.
Proof.
  intros Hn. unfold PowerAnalysis.get_p_val_and_power. simpl default.
  cbn [add exact mbind result_bind].
  rewrite significance_exact. cbn [mbind result_bind].
  rewrite (standard_error_exact 0 nobs) by (done || lra).
  cbn [mbind result_bind].
  rewrite (standard_error_exact (0 + 0) nobs) by (done || lra).
  cbn [mbind result_bind square add exact].
  assert (0 < IZR nobs) as Hpos by (apply IZR_lt; lia).
  assert (sqrt (0 * (1 - 0) / IZR nobs) = 0) as ->.
  { replace (0 * (1 - 0) / IZR nobs) with 0 by (field; lra). apply sqrt_0. }
  assert (sqrt ((0 + 0) * (1 - (0 + 0)) / IZR nobs) = 0) as ->.
  { replace ((0 + 0) * (1 - (0 + 0)) / IZR nobs) with 0 by (field; lra).
    apply sqrt_0. }
  replace (0 ^ 2 + 0 ^ 2) with 0 by ring.
  rewrite root_exact by lra. rewrite sqrt_0.
  cbn [mbind result_bind sub exact].
  unfold PowerAnalysis.get_p_value.
  cbn [div exact]. by rewrite decide_True.
Qed.

End scipy.

(** *** The counterexamples to monotonicity *)

(** One-sided test at the default thresholds, groups of 4, baseline rate
    0.9: raising the effect from 0.05 to 0.09 lowers the power, for every
    strictly decreasing survival function and every critical value of at
    least 1 (the normal one is about 1.645). The threshold
    [0.9 + 0.15 * isf(0.05)] is above 1. *)
Lemma power_drops_above_half (sf isf : R -> R) :
  (forall x y : R, x < y -> sf y < sf x) ->
  1 <= isf (5 / 100) ->
  exists (pv1 pw1 : R) (b1 : bool) (pv2 pw2 : R) (b2 : bool),
    get_p_val_and_power (arithmetic := exact sf isf) 4 (9 / 10) (5 / 100)
      None false (5 / 100) (8 / 10) = Ok (pv1, pw1, b1)
    /\ get_p_val_and_power (arithmetic := exact sf isf) 4 (9 / 10) (9 / 100)
         None false (5 / 100) (8 / 10) = Ok (pv2, pw2, b2)
    /\ pw2 < pw1.
Proof.
  intros Hsf Hz. pose proof small_int_converts as Hsmall.
  destruct (get_p_val_and_power_first_branch sf isf 4 None (9 / 10)
              (5 / 100) (5 / 100) (8 / 10) false) as (pv1 & b1 & E1);
    [simpl; lia|simpl; lia|lra|lra|by left|].
  destruct (get_p_val_and_power_first_branch sf isf 4 None (9 / 10)
              (9 / 100) (5 / 100) (8 / 10) false) as (pv2 & b2 & E2);
    [simpl; lia|simpl; lia|lra|lra|by left|].
  eexists _, _, _, _, _, _. split_and!; [exact E1|exact E2|].
  apply Hsf. simpl default.
  set (z := isf (5 / 100)) in *.
  assert (sqrt (9 / 10 * (1 - 9 / 10) / 4) = 15 / 100) as ->
    by (apply sqrt_lem_1; lra).
  assert (1 / 10 < sqrt ((9 / 10 + 5 / 100) * (1 - (9 / 10 + 5 / 100)) / 4))
    as Hg1.
  { rewrite <- (sqrt_lem_1 (1 / 100) (1 / 10)) at 1 by lra.
    apply sqrt_lt_1_alt. lra. }
  assert (sqrt ((9 / 10 + 9 / 100) * (1 - (9 / 10 + 9 / 100)) / 4) < 5 / 100)
    as Hg2.
  { rewrite <- (sqrt_lem_1 (25 / 10000) (5 / 100)) at 1 by lra.
    apply sqrt_lt_1_alt. lra. }
  assert (0 < sqrt ((9 / 10 + 9 / 100) * (1 - (9 / 10 + 9 / 100)) / 4))
    as Hg2' by (apply sqrt_lt_R0; lra).
  set (g1 := sqrt ((9 / 10 + 5 / 100) * _ / 4)) in *.
  set (g2 := sqrt ((9 / 10 + 9 / 100) * _ / 4)) in *.
  apply div_lt_cross; [done|lra|]. nra.
Qed.




(** *** A stand-in for SciPy's normal distribution *)

(** The symmetric distribution with density [1 / (2 * (1 + |x|) ^ 2)] has a
    survival function and an inverse that are rational; the examples below
    use it where a concrete pair of functions is needed. *)
Definition sigmoid_sf (x : R) : R := (1 - x / (1 + Rabs x)) / 2.

Definition sigmoid_isf (q : R) : R :=
  if decide (q <= 1 / 2) then (1 - 2 * q) / (2 * q)
  else (1 - 2 * q) / (2 * (1 - q)).

Abbreviation sigmoid := (exact sigmoid_sf sigmoid_isf).

Lemma sigmoid_sf_decreasing (x y : R) : x < y -> sigmoid_sf y < sigmoid_sf x.
Proof.
  intros Hxy. unfold sigmoid_sf.
  pose proof (Rabs_pos x). pose proof (Rabs_pos y).
  assert (x / (1 + Rabs x) < y / (1 + Rabs y)); [|lra].
  apply div_lt_cross; [lra..|].
  unfold Rabs. destruct (Rcase_abs x), (Rcase_abs y); nra.
Qed.


Lemma sigmoid_sf_nonneg (x : R) : 0 <= x -> sigmoid_sf x = / (2 * (1 + x)).
Proof. intros Hx. unfold sigmoid_sf. rewrite Rabs_pos_eq by done. field. lra. Qed.

Lemma sigmoid_sf_nonpos (x : R) : x <= 0 -> sigmoid_sf x = 1 - / (2 * (1 - x)).
Proof.
  intros Hx. unfold sigmoid_sf. rewrite Rabs_left1 by done. field. lra.
Qed.

Lemma sigmoid_isf_default : sigmoid_isf (5 / 100) = 9.
Proof.
  unfold sigmoid_isf. destruct (decide (5 / 100 <= 1 / 2)); [field|lra].
Qed.

(** The inverse is the inverse. *)
Lemma sigmoid_sf_isf (q : R) : 0 < q < 1 -> sigmoid_sf (sigmoid_isf q) = q.
Proof.
  intros Hq. unfold sigmoid_isf. destruct (decide (q <= 1 / 2)).
  - rewrite sigmoid_sf_nonneg.
    + field. lra.
    + apply div_nonneg; lra.
  - rewrite sigmoid_sf_nonpos.
    + field. lra.
    + assert (0 <= (2 * q - 1) / (2 * (1 - q)))
        by (apply div_nonneg; lra).
      replace ((1 - 2 * q) / (2 * (1 - q)))
        with (- ((2 * q - 1) / (2 * (1 - q)))) by (field; lra).
      lra.
Qed.

(** The first counterexample to C3 with this distribution. *)
Example sigmoid_power_not_monotone :
  exists (pv1 pw1 : R) (b1 : bool) (pv2 pw2 : R) (b2 : bool),
    get_p_val_and_power (arithmetic := sigmoid) 4 (9 / 10) (5 / 100) None
      false (5 / 100) (8 / 10) = Ok (pv1, pw1, b1)
    /\ get_p_val_and_power (arithmetic := sigmoid) 4 (9 / 10) (9 / 100) None
         false (5 / 100) (8 / 10) = Ok (pv2, pw2, b2)
    /\ pw2 < pw1.
Proof.
  apply power_drops_above_half.
  - apply sigmoid_sf_decreasing.
  - rewrite sigmoid_isf_default. lra.
Qed.

(** A run of the scan: baseline rate 1/2, effect 2/5, steps of 100. With
    groups of 100 the p-value is above the threshold; with groups of 200 the
    test is significant. *)
Lemma sigmoid_sf_above (x t : R) :
  0 <= x -> 0 < t -> 2 * t * (1 + x) < 1 -> t < sigmoid_sf x.
Proof.
  intros Hx Ht Hlt. rewrite sigmoid_sf_nonneg by done.
  assert (0 < / (2 * (1 + x))) as Hy by (apply Rinv_0_lt_compat; lra).
  assert (/ (2 * (1 + x)) * (2 * (1 + x)) = 1) as E by (field; lra).
  nra.
Qed.

Lemma sigmoid_sf_below (x t : R) :
  0 <= x -> 1 <= 2 * t * (1 + x) -> sigmoid_sf x <= t.
Proof.
  intros Hx Hle. rewrite sigmoid_sf_nonneg by done.
  assert (0 < / (2 * (1 + x))) as Hy by (apply Rinv_0_lt_compat; lra).
  assert (/ (2 * (1 + x)) * (2 * (1 + x)) = 1) as E by (field; lra).
  nra.
Qed.

Lemma sigmoid_sf_high (x t : R) :
  x <= 0 -> 1 <= 2 * (1 - t) * (1 - x) -> t <= sigmoid_sf x.
Proof.
  intros Hx Hle. rewrite sigmoid_sf_nonpos by done.
  assert (0 < / (2 * (1 - x))) as Hy by (apply Rinv_0_lt_compat; lra).
  assert (/ (2 * (1 - x)) * (2 * (1 - x)) = 1) as E by (field; lra).
  nra.
Qed.

Lemma sqrt_between (v lo hi : R) :
  0 <= lo -> lo * lo <= v -> v <= hi * hi -> 0 <= hi -> lo <= sqrt v <= hi.
Proof.
  intros Hlo H1 H2 Hhi. split.
  - rewrite <- (sqrt_square lo) by done. by apply sqrt_le_1_alt.
  - rewrite <- (sqrt_square hi) by done. by apply sqrt_le_1_alt.
Qed.

Example sigmoid_groups_of_100 :
  exists p pw : R,
    get_p_val_and_power (arithmetic := sigmoid) 100 (1 / 2) (2 / 5) None false
      (5 / 100) (8 / 10) = Ok (p, pw, false).
Proof.
  pose proof small_int_converts as Hsmall.
  rewrite get_p_val_and_power_eval;
    [|simpl; lia|simpl; lia|lra|lra|by left].
  eexists _, _. do 2 f_equal.
  apply andb_false_intro2, bool_decide_eq_false_2, Rlt_not_le.
  simpl default.
  set (se1 := sqrt (1 / 2 * (1 - 1 / 2) / 100)).
  set (se2 := sqrt ((1 / 2 + 2 / 5) * (1 - (1 / 2 + 2 / 5)) / 100)).
  assert (se1 ^ 2 + se2 ^ 2 = 34 / 10000) as ->.
  { unfold se1, se2. simpl. rewrite !Rmult_1_r, !sqrt_sqrt by lra. lra. }
  destruct (sqrt_between (34 / 10000) (5 / 100) (6 / 100)) as [Hlo Hhi];
    [lra..|].
  set (sd := sqrt (34 / 10000)) in *.
  assert (0 < (1 / 2 + 2 / 5 - 1 / 2) / sd) as Hz
    by (apply Rdiv_lt_0_compat; lra).
  rewrite Rabs_pos_eq by lra.
  apply sigmoid_sf_above; [lra..|].
  assert ((1 / 2 + 2 / 5 - 1 / 2) / sd * sd = 2 / 5) as E by (field; lra).
  nra.
Qed.

Example sigmoid_groups_of_200 :
  exists p pw : R,
    get_p_val_and_power (arithmetic := sigmoid) 200 (1 / 2) (2 / 5) None false
      (5 / 100) (8 / 10) = Ok (p, pw, true).
Proof.
  pose proof small_int_converts as Hsmall.
  rewrite get_p_val_and_power_eval;
    [|simpl; lia|simpl; lia|lra|lra|by left].
  eexists _, _. do 2 f_equal.
  simpl default. rewrite sigmoid_isf_default.
  destruct (sqrt_between (1 / 2 * (1 - 1 / 2) / 200) (35 / 1000) (36 / 1000))
    as [Hlo1 Hhi1]; [lra..|].
  destruct (sqrt_between ((1 / 2 + 2 / 5) * (1 - (1 / 2 + 2 / 5)) / 200)
              (21 / 1000) (22 / 1000)) as [Hlo2 Hhi2]; [lra..|].
  set (se1 := sqrt (1 / 2 * (1 - 1 / 2) / 200)) in *.
  set (se2 := sqrt ((1 / 2 + 2 / 5) * (1 - (1 / 2 + 2 / 5)) / 200)) in *.
  apply andb_true_intro. split; apply bool_decide_eq_true_2.
  - (* the power *)
    apply Rle_ge.
    assert ((1 / 2 + se1 * 9 - (1 / 2 + 2 / 5)) / se2 * se2
            = 1 / 2 + se1 * 9 - (1 / 2 + 2 / 5)) as E by (field; lra).
    set (x := (1 / 2 + se1 * 9 - (1 / 2 + 2 / 5)) / se2) in *.
    assert (x <= - 3 / 2) by nra.
    apply sigmoid_sf_high; lra.
  - (* the p-value *)
    assert (se1 ^ 2 + se2 ^ 2 = 34 / 20000) as ->.
    { unfold se1, se2. simpl. rewrite !Rmult_1_r, !sqrt_sqrt by lra. lra. }
    destruct (sqrt_between (34 / 20000) (4 / 100) (42 / 1000)) as [Hlo Hhi];
      [lra..|].
    set (sd := sqrt (34 / 20000)) in *.
    assert ((1 / 2 + 2 / 5 - 1 / 2) / sd * sd = 2 / 5) as E by (field; lra).
    assert (9 <= (1 / 2 + 2 / 5 - 1 / 2) / sd) as Hz by nra.
    rewrite Rabs_pos_eq by lra.
    apply sigmoid_sf_below; lra.
Qed.

Example sigmoid_min_sample_size :
  calculate_min_sample_size (arithmetic := sigmoid) (1 / 2) (2 / 5) 100 1000
    false (5 / 100) (8 / 10) = Ok (Some 200%Z).
Proof.
  unfold calculate_min_sample_size.
  replace (py_range 100 1000 100)
    with (Ok [100; 200; 300; 400; 500; 600; 700; 800; 900]%Z)
    by reflexivity.
  cbn [mbind result_bind scan_sample_sizes].
  destruct sigmoid_groups_of_100 as (p1 & pw1 & ->).
  cbn [mbind result_bind snd].
  destruct sigmoid_groups_of_200 as (p2 & pw2 & ->).
  reflexivity.
Qed.

(** C1, the counterexample. The scan does not always answer with a size or
    with [None]: with a step of zero no candidate is scanned, and [range]
    raises [ValueError]; and with a baseline rate of zero and no effect, the
    first candidate cannot be evaluated, no candidate qualifies, and the
    outcome is its [ZeroDivisionError]. *)
Lemma scan_without_answer :
  calculate_min_sample_size (arithmetic := sigmoid) (1 / 2) (2 / 5) 0 1000
    false (5 / 100) (8 / 10) = Raise ValueError
  /\ calculate_min_sample_size (arithmetic := sigmoid) 0 0 100 1000
       false (5 / 100) (8 / 10) = Raise ZeroDivisionError.
Proof.
  split; [done|].
  unfold calculate_min_sample_size.
  replace (py_range 100 1000 100)
    with (Ok [100; 200; 300; 400; 500; 600; 700; 800; 900]%Z)
    by reflexivity.
  cbn [mbind result_bind scan_sample_sizes].
  rewrite (no_variance_raises sigmoid_sf sigmoid_isf 100); [reflexivity|].
  pose proof small_int_converts. lia.
Qed.

Lemma calculate_min_sample_size_first_witness :
  (0 < 100)%Z
  /\ (forall n : Z,
        calculate_min_sample_size (arithmetic := sigmoid) (1 / 2) (2 / 5)
          100 1000 false (5 / 100) (8 / 10) = Ok (Some n) ->
        exists k : Z,
          (1 <= k)%Z /\ n = (k * 100)%Z /\ (n < 1000)%Z
          /\ qualifies (arithmetic := sigmoid) (1 / 2) (2 / 5) false
               (5 / 100) (8 / 10) n
          /\ forall j : Z, (1 <= j < k)%Z ->
               falls_short (arithmetic := sigmoid) (1 / 2) (2 / 5) false
                 (5 / 100) (8 / 10) (j * 100))
  /\ (forall k : Z,
        (1 <= k)%Z -> (k * 100 < 1000)%Z ->
        qualifies (arithmetic := sigmoid) (1 / 2) (2 / 5) false
          (5 / 100) (8 / 10) (k * 100) ->
        (forall j : Z, (1 <= j < k)%Z ->
           falls_short (arithmetic := sigmoid) (1 / 2) (2 / 5) false
             (5 / 100) (8 / 10) (j * 100)) ->
        calculate_min_sample_size (arithmetic := sigmoid) (1 / 2) (2 / 5)
          100 1000 false (5 / 100) (8 / 10) = Ok (Some (k * 100)%Z))
  /\ ((forall j : Z, (1 <= j)%Z -> (j * 100 < 1000)%Z ->
         falls_short (arithmetic := sigmoid) (1 / 2) (2 / 5) false
           (5 / 100) (8 / 10) (j * 100)) ->
      calculate_min_sample_size (arithmetic := sigmoid) (1 / 2) (2 / 5)
        100 1000 false (5 / 100) (8 / 10) = Ok None)
  /\ (forall (k : Z) (e : exn),
        (1 <= k)%Z -> (k * 100 < 1000)%Z ->
        get_p_val_and_power (arithmetic := sigmoid) (k * 100) (1 / 2) (2 / 5)
          None false (5 / 100) (8 / 10) = Raise e ->
        (forall j : Z, (1 <= j < k)%Z ->
           falls_short (arithmetic := sigmoid) (1 / 2) (2 / 5) false
             (5 / 100) (8 / 10) (j * 100)) ->
        calculate_min_sample_size (arithmetic := sigmoid) (1 / 2) (2 / 5)
          100 1000 false (5 / 100) (8 / 10) = Raise e).
Proof.
  split; [lia|].
  apply (calculate_min_sample_size_first (arithmetic := sigmoid) (1 / 2)
           (2 / 5) false (5 / 100) (8 / 10) 100 1000).
  lia.
Defined.

Lemma get_p_value_two_sided_witness :
  0 < 1 / 2
  /\ exists v : R,
       get_p_value (arithmetic := sigmoid) (1 / 100) (1 / 2) false = Ok v
       /\ get_p_value (arithmetic := sigmoid) (1 / 100) (1 / 2) true
          = Ok (2 * v).
Proof.
  split; [lra|]. apply (get_p_value_two_sided sigmoid_sf sigmoid_isf (1 / 100) (1 / 2)).
  lra.
Defined.


End PowerFacts.

(** ** Properties of [utils/stratified_sampling.py] *)

Module StratifiedFacts.
Import StratifiedSampling PyFacts.

(** *** Rounding *)

(** What is asked of [round(frac * len)] for [frac = 1 / k], for the group
    sizes [len] up to [N] and the [k] up to [n] that a frame of [N] rows and
    [n] groups gives it: the quotient of [len] by [k], rounded down or up. *)
Definition rounds_to_neighbour (N : nat) (n : Z)
    (round_frac : nat -> Z -> nat) : Prop :=
  forall (len : nat) (k : Z), (len <= N)%nat -> 1 <= k <= n ->
    Z.of_nat len / k <= Z.of_nat (round_frac len k)
    <= (Z.of_nat len + k - 1) / k.

(** With [k] turns left and between [q * k] and [(q + 1) * k] rows left in
    a stratum, the turn takes [q] or [q + 1] rows and leaves between
    [q * (k - 1)] and [(q + 1) * (k - 1)]. *)
Lemma round_frac_bounds (N : nat) (n : Z) (round_frac : nat -> Z -> nat)
    (r : nat) (k q : Z) :
  rounds_to_neighbour N n round_frac -> (r <= N)%nat -> k <= n ->
  1 <= k -> 0 <= q -> q * k <= Z.of_nat r <= (q + 1) * k ->
  q <= Z.of_nat (round_frac r k) <= q + 1
  /\ q * (k - 1) <= Z.of_nat r - Z.of_nat (round_frac r k) <= (q + 1) * (k - 1)
  /\ (round_frac r k <= r)%nat.
Proof.
  intros Hround HrN Hkn Hk Hq Hr.
  specialize (Hround r k HrN (conj Hk Hkn)).
  set (a := Z.of_nat r) in *. set (t := Z.of_nat (round_frac r k)) in *.
  assert (0 <= a) as Ha by (unfold a; lia).
  pose proof (Z.div_mod a k ltac:(lia)) as Hd1.
  pose proof (Z.mod_pos_bound a k ltac:(lia)) as Hm1.
  pose proof (Z.div_mod (a + k - 1) k ltac:(lia)) as Hd2.
  pose proof (Z.mod_pos_bound (a + k - 1) k ltac:(lia)) as Hm2.
  assert (q <= a / k) as Hlow by (apply Z.div_le_lower_bound; lia).
  assert ((a + k - 1) / k <= a) as Hup.
  { destruct (decide (a = 0)) as [->|Hne].
    - rewrite Z.div_small; lia.
    - apply Z.div_le_upper_bound; [lia|]. nia. }
  assert (k * ((a + k - 1) / k) <= a + k - 1) as Hceil by lia.
  assert (a < k * (a / k + 1)) as Hfloor by lia.
  assert (t <= a) as Hta by lia.
  split_and!; [lia|nia|nia|nia|]. unfold a, t in Hta. lia.
Qed.

(** *** Drawing rows *)

Lemma sample_spec (draws xs : list nat) (n : nat) :
  exists rest,
    xs ≡ₚ (sample draws xs n).1 ++ rest
    /\ length (sample draws xs n).1 = (n `min` length xs)%nat.
Proof.
  revert draws xs. induction n as [|n IH]; intros draws xs; simpl.
  - exists xs. by split.
  - destruct (xs !! _) as [x|] eqn:Hx.
    + destruct (IH (tl draws) (delete (hd 0 draws mod length xs) xs))%nat
        as (rest & Hp & Hl).
      destruct (sample (tl draws) _ n) as [chosen draws'] eqn:Hs. simpl in *.
      exists rest. split.
      * rewrite <- Hp. by apply delete_Permutation.
      * rewrite Hl, length_delete by eauto.
        apply lookup_lt_Some in Hx. destruct (length xs); simpl; lia.
    + exists xs. split; [done|]. simpl.
      destruct xs as [|y xs]; [simpl; lia|].
      apply lookup_ge_None in Hx. simpl in Hx.
      pose proof (Nat.mod_upper_bound (hd 0%nat draws) (S (length xs))). lia.
Qed.

(** [sample_groups] draws from each group its own sample. *)
Lemma sample_groups_spec (round_frac : nat -> Z -> nat) (draws : list nat)
    (groups : list (list nat)) (k : Z) :
  exists chosen rest : list (list nat),
    (sample_groups round_frac draws groups k).1 = concat chosen
    /\ Forall3 (fun xs c r =>
                  xs ≡ₚ c ++ r
                  /\ length c
                     = (round_frac (length xs) k `min` length xs)%nat)
               groups chosen rest.
Proof.
  revert draws. induction groups as [|xs groups IH]; intros draws; simpl.
  - exists [], []. split; [done|constructor].
  - destruct (sample_spec draws xs (round_frac (length xs) k))
      as (r & Hp & Hl).
    destruct (sample draws xs _) as [c draws1]. simpl in *.
    destruct (IH draws1) as (chosen & rest & Hc & HF).
    destruct (sample_groups round_frac draws1 groups k) as [cs draws2].
    simpl in *.
    exists (c :: chosen), (r :: rest). split; [by rewrite Hc|].
    by constructor.
Qed.

(** *** Splitting rows by stratum *)

Section strata.

Context {K : Type} `{EqDecision K} (key : nat -> K).

(** The rows of [rows] that lie in stratum [s]. *)
Definition in_stratum (s : K) (rows : list nat) : list nat :=
  filter (fun p => key p = s) rows.

Lemma in_stratum_app (s : K) (l k : list nat) :
  in_stratum s (l ++ k) = in_stratum s l ++ in_stratum s k.
Proof. apply filter_app. Qed.

Lemma in_stratum_all (s : K) (l : list nat) :
  (forall p, p ∈ l -> key p = s) -> in_stratum s l = l.
Proof.
  intros H. induction l as [|p l IH]; [done|].
  unfold in_stratum. rewrite filter_cons_True by (apply H; left).
  f_equal. apply IH. intros q Hq. apply H. by right.
Qed.

Lemma in_stratum_none (s : K) (l : list nat) :
  (forall p, p ∈ l -> key p <> s) -> in_stratum s l = [].
Proof.
  intros H. induction l as [|p l IH]; [done|].
  unfold in_stratum. rewrite filter_cons_False by (apply H; left).
  apply IH. intros q Hq. apply H. by right.
Qed.

Lemma in_stratum_other (s s' : K) (rows : list nat) :
  s' <> s ->
  in_stratum s' (filter (fun p => key p <> s) rows) = in_stratum s' rows.
Proof.
  intros Hne. unfold in_stratum. rewrite list_filter_filter.
  apply list_filter_iff. intros p. split; [by intros [? _]|].
  intros Hp. split; [done|]. by rewrite Hp.
Qed.

(** The strata of distinct keys that cover the rows split the rows. *)
Lemma partition_by_key (ks : list K) (rows : list nat) :
  NoDup ks -> (forall p, p ∈ rows -> key p ∈ ks) ->
  concat (map (fun s => in_stratum s rows) ks) ≡ₚ rows.
Proof.
  intros Hnd. revert rows.
  induction Hnd as [|s ks Hs Hnd IH]; intros rows Hcov; simpl.
  - destruct rows as [|p rows]; [done|].
    specialize (Hcov p ltac:(left)). by apply elem_of_nil in Hcov.
  - etrans; [|apply (filter_app_complement (fun p => key p = s) rows)].
    apply Permutation_app; [done|].
    assert (map (fun s' => in_stratum s' rows) ks
            = map (fun s' => in_stratum s'
                               (filter (fun p => key p <> s) rows)) ks) as ->.
    { apply map_ext_in. intros s' Hs'%list_elem_of_In. symmetry.
      apply in_stratum_other. by intros ->. }
    apply IH. intros p [Hp Hin]%list_elem_of_filter.
    specialize (Hcov p Hin). apply elem_of_cons in Hcov as [?|?]; done.
Qed.

(** What the samples of the strata add up to. *)
Lemma chosen_split (groups chosen rest : list (list nat)) (P : nat -> nat) :
  Forall3 (fun xs c r => xs ≡ₚ c ++ r /\ length c = P (length xs))
    groups chosen rest ->
  concat groups ≡ₚ concat chosen ++ concat rest.
Proof.
  induction 1 as [|xs c r groups chosen rest [Hp _] _ IH]; simpl; [done|].
  rewrite Hp, IH. rewrite <- !(assoc_L (++)). apply Permutation_app; [done|].
  rewrite !(assoc_L (++)). apply Permutation_app; [|done].
  apply Permutation_app_comm.
Qed.

Lemma chosen_per_stratum (ks : list K) (rows : list nat)
    (chosen rest : list (list nat)) (P : nat -> nat) (s : K) :
  NoDup ks ->
  Forall3 (fun xs c r => xs ≡ₚ c ++ r /\ length c = P (length xs))
    (map (fun s => in_stratum s rows) ks) chosen rest ->
  length (in_stratum s (concat chosen))
  = if decide (s ∈ ks) then P (length (in_stratum s rows)) else 0%nat.
Proof.
  intros Hnd. revert chosen rest.
  induction Hnd as [|s0 ks Hs0 Hnd IH]; intros chosen rest HF; simpl in HF.
  - by inversion HF; subst.
  - inversion HF as [|xs c r groups cs rs [Hp Hl] HF']; subst. simpl.
    rewrite in_stratum_app, length_app, (IH _ _ HF').
    assert (forall p, p ∈ c -> key p = s0) as Hc.
    { intros p Hp'. assert (p ∈ in_stratum s0 rows) as Hin
        by (rewrite Hp; apply elem_of_app; by left).
      by apply list_elem_of_filter in Hin as [? _]. }
    destruct (decide (s = s0)) as [->|Hne].
    + rewrite in_stratum_all by done.
      rewrite (decide_False (P := s0 ∈ ks)) by done.
      rewrite decide_True by left. lia.
    + rewrite in_stratum_none
        by (intros p Hp' ?; apply Hne; by rewrite <- (Hc p Hp')).
      simpl. destruct (decide (s ∈ ks)) as [Hin|Hnin].
      * rewrite decide_True by (by right). done.
      * rewrite decide_False; [done|]. by intros [?|?]%elem_of_cons.
Qed.

End strata.

Lemma filter_ext_in {A} (P Q : A -> Prop) `{!forall x, Decision (P x)}
    `{!forall x, Decision (Q x)} (l : list A) :
  (forall x, x ∈ l -> P x <-> Q x) -> filter P l = filter Q l.
Proof.
  induction l as [|x l IH]; intros HPQ; [done|].
  rewrite !filter_cons.
  rewrite IH by (intros y Hy; apply HPQ; by right).
  destruct (decide (P x)) as [HP|HP], (decide (Q x)) as [HQ|HQ];
    try done; exfalso; apply HPQ in HP || apply HPQ in HQ; done || by left.
Qed.

Lemma filter_all {A} (P : A -> Prop) `{!forall x, Decision (P x)} (l : list A) :
  (forall x, x ∈ l -> P x) -> filter P l = l.
Proof.
  intros Hall. induction l as [|x l IH]; [done|].
  rewrite filter_cons_True by (apply Hall; left).
  f_equal. apply IH. intros y Hy. apply Hall. by right.
Qed.

Lemma filter_none {A} (P : A -> Prop) `{!forall x, Decision (P x)} (l : list A) :
  (forall x, x ∈ l -> ~ P x) -> filter P l = [].
Proof.
  intros Hall. induction l as [|x l IH]; [done|].
  rewrite filter_cons_False by (apply Hall; left).
  apply IH. intros y Hy. apply Hall. by right.
Qed.

(** *** The group column during the second loop *)

Section labels.

Context {raw : Type} {K : Type} `{EqDecision K}.
Variable key : nat -> K.
Variable N : nat.

Implicit Types (g : list (cell raw)) (C R : list nat) (i j n : Z) (s : K).

Definition cell_of g (p : nat) : cell raw := default CNone (g !! p).

(** The rows without a group yet, and the rows of group [i]. *)
Definition ungrouped_rows g : list nat :=
  filter (fun p => isna (cell_of g p)) (seq 0 N).

Definition group_rows g i : list nat :=
  filter (fun p => label_of (cell_of g p) = Some i) (seq 0 N).

Lemma cell_of_assign g C i (p : nat) :
  (p < length g)%nat ->
  cell_of (assign g C i) p = if decide (p ∈ C) then CInt i else cell_of g p.
Proof.
  intros Hp. unfold cell_of, assign. rewrite list_lookup_imap.
  destruct (lookup_lt_is_Some_2 g p Hp) as [c ->]. simpl.
  by destruct (decide (p ∈ C)).
Qed.

Lemma ungrouped_assign g C i :
  length g = N ->
  ungrouped_rows (assign g C i) = filter (fun p => p ∉ C) (ungrouped_rows g).
Proof.
  intros Hg. unfold ungrouped_rows. rewrite list_filter_filter.
  apply filter_ext_in. intros p Hp%elem_of_seq.
  rewrite cell_of_assign by lia.
  destruct (decide (p ∈ C)); simpl; tauto.
Qed.

Lemma group_rows_assign_new g C i :
  length g = N -> (forall p, label_of (cell_of g p) <> Some i) ->
  NoDup C -> (forall p, p ∈ C -> (p < N)%nat) ->
  group_rows (assign g C i) i ≡ₚ C.
Proof.
  intros Hg Hfresh Hnd HC. apply NoDup_Permutation; [|done|].
  - apply NoDup_filter, NoDup_seq.
  - intros p. unfold group_rows. rewrite list_elem_of_filter, elem_of_seq.
    split.
    + intros [Hl Hp]. rewrite cell_of_assign in Hl by lia.
      destruct (decide (p ∈ C)); [done|]. by apply Hfresh in Hl.
    + intros Hp. pose proof (HC p Hp). split; [|lia].
      rewrite cell_of_assign by lia. by rewrite decide_True.
Qed.

Lemma group_rows_assign_old g C i j :
  length g = N -> j <> i -> (forall p, p ∈ C -> isna (cell_of g p)) ->
  group_rows (assign g C i) j = group_rows g j.
Proof.
  intros Hg Hne HC. unfold group_rows. apply filter_ext_in.
  intros p Hp%elem_of_seq. rewrite cell_of_assign by lia.
  destruct (decide (p ∈ C)) as [Hin|]; [|done].
  apply HC in Hin. destruct (cell_of g p); simpl in *; try done.
  split; [|done]. intros [= ?]. done.
Qed.

(** What is left after the rows [C] of a split [U ≡ₚ C ++ R] got their
    group. *)
Lemma left_after_split (U C R : list nat) :
  NoDup U -> U ≡ₚ C ++ R -> filter (fun p => p ∉ C) U ≡ₚ R.
Proof.
  intros Hnd Hp. rewrite Hp in Hnd |- *.
  apply NoDup_app in Hnd as (_ & Hdisj & _).
  rewrite filter_app.
  rewrite (filter_none (fun p => p ∉ C) C) by (intros p Hin Hn; done).
  rewrite (filter_all (fun p => p ∉ C) R); [done|].
  intros p Hin HC. by apply (Hdisj p).
Qed.

(** The invariant of the second loop, before turn [i] of [n]: with
    [quota s] the whole part of the stratum's size divided by [n], every
    group made so far has [quota s] or [quota s + 1] rows of stratum [s], and
    the rows of the stratum that are left are enough, and not too many, for
    the remaining [n - i] groups to get as many. *)

Variable n : Z.
Hypothesis n_pos : 1 <= n.

Variable round_frac : nat -> Z -> nat.
Hypothesis rounding : rounds_to_neighbour N n round_frac.

Definition stratum_size s : Z :=
  Z.of_nat (length (in_stratum key s (seq 0 N))).

Definition quota s : Z := stratum_size s / n.

Record balanced i g : Prop := Balanced {
  bal_length : length g = N;
  bal_labels : forall p : nat,
      isna (cell_of g p) \/ exists j, 0 <= j < i /\ cell_of g p = CInt j;
  bal_done : forall s j, 0 <= j < i ->
      quota s <= Z.of_nat (length (in_stratum key s (group_rows g j)))
      <= quota s + 1;
  bal_left : forall s,
      quota s * (n - i)
      <= Z.of_nat (length (in_stratum key s (ungrouped_rows g)))
      <= (quota s + 1) * (n - i)
}.

Lemma quota_nonneg s : 0 <= quota s.
Proof. unfold quota, stratum_size. apply Z.div_pos; lia. Qed.

Lemma balanced_start : balanced 0 (replicate N CNone).
Proof.
  assert (forall p : nat, cell_of (replicate N (@CNone raw)) p = CNone) as Hc.
  { intros p. unfold cell_of.
    destruct (replicate N CNone !! p) as [c|] eqn:E; [|done].
    by apply lookup_replicate in E as [-> _]. }
  split.
  - apply length_replicate.
  - intros p. left. by rewrite Hc.
  - intros s j Hj. lia.
  - intros s.
    assert (ungrouped_rows (replicate N CNone) = seq 0 N) as ->.
    { apply filter_all. intros p _. by rewrite Hc. }
    fold (stratum_size s). unfold quota.
    pose proof (Z.div_mod (stratum_size s) n ltac:(lia)).
    pose proof (Z.mod_pos_bound (stratum_size s) n ltac:(lia)). nia.
Qed.

Lemma balanced_step i g C R :
  balanced i g -> 0 <= i < n ->
  ungrouped_rows g ≡ₚ C ++ R ->
  (forall s,
      length (in_stratum key s C)
      = (round_frac (length (in_stratum key s (ungrouped_rows g))) (n - i)
         `min` length (in_stratum key s (ungrouped_rows g)))%nat) ->
  balanced (i + 1) (assign g C i).
Proof.
  intros [Hlen Hlab Hdone Hleft] Hi Hsplit Hsize.
  assert (NoDup (ungrouped_rows g)) as Hnd by apply NoDup_filter, NoDup_seq.
  assert (NoDup C) as HndC.
  { rewrite Hsplit in Hnd. by apply NoDup_app in Hnd as (? & _ & _). }
  assert (forall p, p ∈ C -> (p < N)%nat /\ isna (cell_of g p)) as HC.
  { intros p Hp. assert (p ∈ ungrouped_rows g) as Hin
      by (rewrite Hsplit; apply elem_of_app; by left).
    apply list_elem_of_filter in Hin as [? Hseq%elem_of_seq]. split; [lia|done]. }
  assert (forall s,
      let r := length (in_stratum key s (ungrouped_rows g)) in
      r = (length (in_stratum key s C) + length (in_stratum key s R))%nat)
    as Hsum.
  { intros s. simpl. unfold in_stratum. rewrite Hsplit, filter_app.
    apply length_app. }
  assert (forall s,
      length (in_stratum key s (ungrouped_rows (assign g C i)))
      = length (in_stratum key s R)) as Hrest.
  { intros s. rewrite ungrouped_assign by done. unfold in_stratum.
    by rewrite (left_after_split _ _ _ Hnd Hsplit). }
  assert (forall s,
      let r := length (in_stratum key s (ungrouped_rows g)) in
      let t := length (in_stratum key s C) in
      quota s <= Z.of_nat t <= quota s + 1
      /\ quota s * (n - i - 1) <= Z.of_nat r - Z.of_nat t
         <= (quota s + 1) * (n - i - 1)) as Hturn.
  { intros s. simpl. rewrite Hsize.
    assert (length (in_stratum key s (ungrouped_rows g)) <= N)%nat as HN.
    { unfold in_stratum, ungrouped_rows.
      etrans; [apply length_filter|]. etrans; [apply length_filter|].
      by rewrite length_seq. }
    destruct (round_frac_bounds N n round_frac
                (length (in_stratum key s (ungrouped_rows g))) (n - i)
                (quota s) rounding HN ltac:(lia) ltac:(lia) (quota_nonneg s)
                (Hleft s))
      as (H1 & H2 & H3).
    rewrite Nat.min_l by done. split; [done|].
    lia. }
  split.
  - unfold assign. by rewrite length_imap.
  - intros p. destruct (decide (p < N)%nat) as [Hp|Hp].
    + rewrite cell_of_assign by lia.
      destruct (decide (p ∈ C)).
      * right. exists i. split; [lia|done].
      * destruct (Hlab p) as [?|(j & ? & ?)]; [by left|].
        right. exists j. split; [lia|done].
    + left. unfold cell_of, assign.
      rewrite lookup_ge_None_2; [done|]. rewrite length_imap. lia.
  - intros s j Hj. destruct (decide (j = i)) as [->|Hne].
    + assert (group_rows (assign g C i) i ≡ₚ C) as Hnew.
      { apply group_rows_assign_new; [done| |done|].
        - intros p. destruct (Hlab p) as [Hna|(j & ? & ->)].
          + destruct (cell_of g p); done.
          + simpl. intros [= ->]. lia.
        - intros p Hp. by apply HC. }
      unfold in_stratum at 1 2. rewrite Hnew. apply Hturn.
    + rewrite group_rows_assign_old; [|done..|].
      * apply Hdone. lia.
      * intros p Hp. by apply HC.
  - intros s. rewrite Hrest. pose proof (Hsum s) as Hs. simpl in Hs.
    pose proof (Hturn s) as [_ Ht]. simpl in Ht.
    replace (n - (i + 1)) with (n - i - 1) by lia. lia.
Qed.

Lemma balanced_end g :
  balanced n g ->
  forallb (fun c => negb (isna c)) g = true
  /\ forall p : nat, (p < N)%nat ->
       exists j, 0 <= j < n /\ g !! p = Some (CInt j).
Proof.
  intros [Hlen Hlab _ Hleft].
  assert (forall p : nat, (p < N)%nat ->
            exists j, 0 <= j < n /\ g !! p = Some (CInt j)) as Hall.
  { intros p Hp. destruct (Hlab p) as [Hna|(j & Hj & Hc)].
    - exfalso. specialize (Hleft (key p)).
      assert (p ∈ in_stratum key (key p) (ungrouped_rows g)) as Hin.
      { apply list_elem_of_filter. split; [done|].
        apply list_elem_of_filter. split; [done|]. apply elem_of_seq. lia. }
      destruct (in_stratum key (key p) (ungrouped_rows g)); simpl in *;
        [by apply elem_of_nil in Hin|lia].
    - exists j. split; [done|]. unfold cell_of in Hc.
      destruct (lookup_lt_is_Some_2 g p ltac:(lia)) as [c Hgc].
      rewrite Hgc in Hc |- *. simpl in Hc. by rewrite Hc. }
  split; [|done].
  apply Is_true_true_1, forallb_True, Forall_lookup. intros p c Hc.
  destruct (Hall p) as (j & _ & Hj); [apply lookup_lt_Some in Hc; lia|].
  rewrite Hj in Hc. by simplify_eq.
Qed.

End labels.

(** *** Columns and frames *)

Lemma string_length_append (a b : string) :
  String.length (String.append a b) = (String.length a + String.length b)%nat.
Proof.
  induction a as [|x a IH]; [done|].
  change (S (String.length (String.append a b))
          = S (String.length a + String.length b)).
  by rewrite IH.
Qed.

(** No added column is called [group]. *)
Lemma stratify_name_not_group (col : string) : col +:+ "_stratify" <> "group".
Proof.
  intros E. apply (f_equal String.length) in E.
  rewrite string_length_append in E. simpl in E. lia.
Qed.

Section frames.

Context {raw : Type}.

Implicit Types (cols : list (string * column raw)) (f : DataFrame raw)
  (c : column raw) (name : string).

Lemma get_in_set_in_eq cols name c : get_in (set_in cols name c) name = Some c.
Proof.
  induction cols as [|[n c0] cols IH]; simpl.
  - by rewrite decide_True.
  - destruct (decide (n = name)) as [->|Hne]; simpl.
    + by rewrite decide_True.
    + by rewrite decide_False.
Qed.

Lemma get_in_set_in_ne cols name name' c :
  name' <> name -> get_in (set_in cols name c) name' = get_in cols name'.
Proof.
  intros Hne. induction cols as [|[n c0] cols IH]; simpl.
  - by rewrite decide_False.
  - destruct (decide (n = name)) as [->|Hn]; simpl.
    + by rewrite !decide_False.
    + by rewrite IH.
Qed.

Lemma set_in_set_in cols name c c' :
  set_in (set_in cols name c) name c' = set_in cols name c'.
Proof.
  induction cols as [|[n c0] cols IH]; simpl.
  - by rewrite decide_True.
  - destruct (decide (n = name)) as [->|Hn]; simpl.
    + by rewrite decide_True.
    + by rewrite decide_False, IH.
Qed.

Lemma names_set_in cols name c (x : string) :
  x ∈ (set_in cols name c).*1 <-> x = name \/ x ∈ cols.*1.
Proof.
  induction cols as [|[n c0] cols IH]; simpl.
  - rewrite list_elem_of_singleton. split; [by left|].
    intros [?|?%elem_of_nil]; done.
  - destruct (decide (n = name)) as [->|Hn]; simpl.
    + rewrite elem_of_cons. tauto.
    + rewrite !elem_of_cons, IH. tauto.
Qed.

Lemma get_in_is_Some cols name :
  is_Some (get_in cols name) <-> name ∈ cols.*1.
Proof.
  induction cols as [|[n c0] cols IH]; simpl.
  - split; [by intros [? ?]|by intros ?%elem_of_nil].
  - rewrite elem_of_cons. destruct (decide (n = name)) as [->|Hn].
    + split; [by left|by eexists].
    + rewrite IH. split; [by right|]. by intros [?|?].
Qed.

Lemma names_set_column f name c (x : string) :
  x ∈ column_names (set_column f name c) <-> x = name \/ x ∈ column_names f.
Proof. apply names_set_in. Qed.

Lemma names_drop_columns f (names : list string) (x : string) :
  x ∈ column_names (drop_columns f names)
  <-> x ∈ column_names f /\ x ∉ names.
Proof.
  unfold column_names, drop_columns. simpl.
  rewrite !list_elem_of_fmap. split.
  - intros ([n c] & -> & [Hn Hin]%list_elem_of_filter). split; [|done].
    by exists (n, c).
  - intros [([n c] & -> & Hin) Hn]. exists (n, c). split; [done|].
    by apply list_elem_of_filter.
Qed.

Lemma cell_at_set_column_ne f name name' c (p : nat) :
  name' <> name -> cell_at (set_column f name c) name' p = cell_at f name' p.
Proof.
  intros Hne. unfold cell_at, get_column. simpl.
  by rewrite get_in_set_in_ne.
Qed.

Lemma cell_at_set_column_eq f name c (p : nat) :
  cell_at (set_column f name c) name p = default CNone (values c !! p).
Proof.
  unfold cell_at, get_column. simpl. by rewrite get_in_set_in_eq.
Qed.

Lemma set_column_set_column f name c c' :
  set_column (set_column f name c) name c' = set_column f name c'.
Proof. unfold set_column. simpl. by rewrite set_in_set_in. Qed.

End frames.

(** *** Running the state monad *)

Section monad.

Context {raw : Type}.

Implicit Types (st : state raw) (f : DataFrame raw).

Lemma bind_Ok {A B} (k : A -> M raw B) (m : M raw A) st st1 (a : A) :
  m st = (st1, Ok a) -> (m ≫= k) st = k a st1.
Proof. intros H. unfold mbind, M_bind. by rewrite H. Qed.

Lemma bind_Raise {A B} (k : A -> M raw B) (m : M raw A) st st1 (e : exn) :
  m st = (st1, Raise e) -> (m ≫= k) st = (st1, Raise e).
Proof. intros H. unfold mbind, M_bind. by rewrite H. Qed.

(** What a bind that ends well went through. *)
Lemma bind_Ok_inv {A B} (k : A -> M raw B) (m : M raw A) st st2 (b : B) :
  (m ≫= k) st = (st2, Ok b) ->
  exists st1 a, m st = (st1, Ok a) /\ k a st1 = (st2, Ok b).
Proof.
  unfold mbind, M_bind. destruct (m st) as [st1 [a|e]]; [|done].
  intros H. by exists st1, a.
Qed.

Lemma load_Ok (l : nat) st f : heap st !! l = Some f -> load l st = (st, Ok f).
Proof. intros H. unfold load. by rewrite H. Qed.

Lemma load_Ok_inv (l : nat) st st1 f :
  load l st = (st1, Ok f) -> st1 = st /\ heap st !! l = Some f.
Proof.
  unfold load. destruct (heap st !! l); intros [= <- ?]; by simplify_eq.
Qed.

Lemma lift_inv {A} (r : result A) st st1 (r1 : result A) :
  lift r st = (st1, r1) -> st1 = st /\ r1 = r.
Proof. by intros [= <- <-]. Qed.

Lemma lookup_column_Ok f (name : string) (c : column raw) st :
  get_column f name = Some c -> lookup_column f name st = (st, Ok c).
Proof. intros H. unfold lookup_column, lift. by rewrite H. Qed.

Lemma py_assert_inv (c : bool) : py_assert c = Ok tt -> c = true.
Proof. by destruct c. Qed.

End monad.

(** *** The first loop: the added columns *)

Section run.

Context {raw : Type}.
Variable qcut : list (cell raw) -> Z -> result (list (cell raw)).
Variable astype_str : cell raw -> option string.

Local Abbreviation transform_column := (transform_column qcut astype_str).
Local Abbreviation transform_columns := (transform_columns qcut astype_str).
Local Abbreviation row_key := (row_key astype_str).

Implicit Types (st : state raw) (f : DataFrame raw) (df : nat).

(** A turn of the first loop either raises and leaves the state as it was,
    or puts a column of strings named [col + "_stratify"] into the object
    [df]. *)
Lemma transform_column_spec st df f (col : string) (buckets : Z) :
  heap st !! df = Some f ->
  (exists e, transform_column df col buckets st = (st, Raise e))
  \/ exists vs : list (cell raw),
       transform_column df col buckets st
       = (State (<[df := set_column f (col +:+ "_stratify")
                           (Column false (map (astype_cell astype_str) vs))]>
                   (heap st)) (draws st),
          Ok (col +:+ "_stratify")).
Proof.
  intros Hf. unfold StratifiedSampling.transform_column.
  rewrite (bind_Ok _ _ _ _ _ (load_Ok _ _ _ Hf)).
  destruct (get_column f col) as [c|] eqn:Hc.
  2:{ left. exists KeyError. apply bind_Raise.
      unfold lookup_column, lift. by rewrite Hc. }
  rewrite (bind_Ok _ _ _ _ _ (lookup_column_Ok _ _ _ _ Hc)).
  destruct (numeric c).
  - destruct (qcut (values c) buckets) as [cut|e] eqn:Hq.
    + right. exists cut.
      erewrite bind_Ok; [done|].
      erewrite (bind_Ok _ (lift _)); [|reflexivity].
      erewrite bind_Ok; [|reflexivity].
      erewrite bind_Ok.
      2:{ apply load_Ok. simpl.
          apply list_lookup_insert_eq. by eapply lookup_lt_Some. }
      erewrite bind_Ok.
      2:{ apply lookup_column_Ok. unfold get_column. simpl.
          apply get_in_set_in_eq. }
      unfold store. simpl.
      by rewrite list_insert_insert_eq, set_column_set_column.
    + left. exists e. by apply bind_Raise, bind_Raise.
  - right. exists (values c). by erewrite bind_Ok.
Qed.

(** [st'] differs from [st] in the object [df] alone, which kept its rows
    and has the columns [added] besides the ones it had. *)
Definition adds_columns df (added : list string) st st' : Prop :=
  draws st' = draws st
  /\ length (heap st') = length (heap st)
  /\ (forall l : nat, l <> df -> heap st' !! l = heap st !! l)
  /\ forall f, heap st !! df = Some f ->
       exists f', heap st' !! df = Some f' /\ nrows f' = nrows f
         /\ forall x, x ∈ column_names f' <-> x ∈ column_names f \/ x ∈ added.

Lemma adds_columns_refl df st : adds_columns df [] st st.
Proof.
  split_and!; [done..|]. intros f Hf. exists f. split_and!; [done..|].
  intros x. rewrite elem_of_nil. tauto.
Qed.

Lemma adds_columns_cons df (name : string) (added : list string) st st' f
    (c : column raw) :
  heap st !! df = Some f ->
  adds_columns df added
    (State (<[df := set_column f name c]> (heap st)) (draws st)) st' ->
  adds_columns df (name :: added) st st'.
Proof.
  intros Hf (Hd & Hl & Ho & Hdf). simpl in *.
  pose proof (lookup_lt_Some _ _ _ Hf) as Hlt.
  split_and!.
  - done.
  - by rewrite Hl, length_insert.
  - intros l Hne. rewrite Ho by done. by apply list_lookup_insert_ne.
  - intros f0 Hf0. rewrite Hf in Hf0. injection Hf0 as <-.
    destruct (Hdf (set_column f name c)) as (f' & Hf' & Hn & Hx).
    { by apply list_lookup_insert_eq. }
    exists f'. split_and!; [done..|].
    intros x. rewrite Hx, names_set_column, elem_of_cons. tauto.
Qed.

Lemma transform_columns_spec (cols : list string) st df f (buckets : Z) st'
    (r : result (list string)) :
  heap st !! df = Some f ->
  transform_columns df cols buckets st = (st', r) ->
  exists done_cols : list string,
    done_cols `prefix_of` cols
    /\ adds_columns df (map (fun col => col +:+ "_stratify") done_cols) st st'
    /\ forall names, r = Ok names ->
         done_cols = cols /\ names = map (fun col => col +:+ "_stratify") cols.
Proof.
  revert st f st' r. induction cols as [|col cols IH]; intros st f st' r Hf.
  - intros [= <- <-]. exists []. split_and!; [done|apply adds_columns_refl|].
    by intros names [= <-].
  - cbn [StratifiedSampling.transform_columns].
    destruct (transform_column_spec st df f col buckets Hf)
      as [[e He]|[vs Hvs]].
    + rewrite (bind_Raise _ _ _ _ _ He). intros [= <- <-].
      exists []. split_and!; [apply prefix_nil|apply adds_columns_refl|done].
    + rewrite (bind_Ok _ _ _ _ _ Hvs).
      set (f1 := set_column f _ _) in *.
      set (st1 := State _ _) in *.
      assert (heap st1 !! df = Some f1) as Hf1.
      { apply list_lookup_insert_eq. by eapply lookup_lt_Some. }
      destruct (transform_columns df cols buckets st1) as [st2 r2] eqn:Hrun.
      destruct (IH _ _ _ _ Hf1 Hrun) as (done_cols & Hpre & Hadds & Hok).
      intros Hres. exists (col :: done_cols). split_and!.
      * by apply prefix_cons.
      * destruct r2 as [names|e].
        -- rewrite (bind_Ok _ _ _ _ _ Hrun) in Hres.
           unfold mret, M_ret in Hres. simplify_eq.
           by eapply adds_columns_cons.
        -- rewrite (bind_Raise _ _ _ _ _ Hrun) in Hres. simplify_eq.
           by eapply adds_columns_cons.
      * intros names ->. destruct r2 as [names2|e].
        -- rewrite (bind_Ok _ _ _ _ _ Hrun) in Hres.
           unfold mret, M_ret in Hres. simplify_eq.
           destruct (Hok names2 eq_refl) as [-> ->]. done.
        -- by rewrite (bind_Raise _ _ _ _ _ Hrun) in Hres.
Qed.

(** *** The bucket size check *)

Lemma foldr_min_le (c : nat) (cs : list nat) (x : nat) :
  x ∈ c :: cs -> (foldr Nat.min c cs <= x)%nat.
Proof.
  induction cs as [|c' cs IH]; simpl.
  - intros ->%list_elem_of_singleton. done.
  - intros [->|[->|Hx]%elem_of_cons]%elem_of_cons.
    + etrans; [apply Nat.le_min_r|]. apply IH. by left.
    + apply Nat.le_min_l.
    + etrans; [apply Nat.le_min_r|]. apply IH. by right.
Qed.

Lemma foldr_min_in (c : nat) (cs : list nat) : foldr Nat.min c cs ∈ c :: cs.
Proof.
  induction cs as [|c' cs IH]; simpl; [by left|].
  destruct (Nat.min_spec c' (foldr Nat.min c cs)) as [[_ ->]|[_ ->]].
  - right. by left.
  - apply elem_of_cons in IH as [->|?]; [by left|]. right. by right.
Qed.

Lemma min_at_least_true (cs : list nat) (n : Z) :
  min_at_least cs n = true <->
  cs <> [] /\ forall c, c ∈ cs -> n <= Z.of_nat c.
Proof.
  destruct cs as [|c cs]; simpl.
  - split; [done|by intros [? _]].
  - rewrite bool_decide_eq_true. split.
    + intros Hmin. split; [done|]. intros x Hx.
      pose proof (foldr_min_le c cs x Hx). lia.
    + intros [_ Hall]. apply Hall, foldr_min_in.
Qed.

Lemma length_filter_omap {A B} `{EqDecision B} (key : A -> option B) (s : B)
    (rows : list A) :
  length (filter (fun k => k = s) (omap key rows))
  = length (filter (fun p => key p = Some s) rows).
Proof.
  induction rows as [|p rows IH]; [done|]. csimpl.
  rewrite (filter_cons (fun p => key p = Some s)).
  destruct (key p) as [k|] eqn:E.
  - rewrite filter_cons. destruct (decide (k = s)) as [->|Hne].
    + rewrite decide_True by done. simpl. by rewrite IH.
    + by rewrite decide_False by congruence.
  - by rewrite decide_False by done.
Qed.

(** The entries of [value_counts]: the strata that occur, each with the
    number of its rows. *)
Lemma value_counts_spec f (tcols : list string)
    (counts : list (list string * nat)) :
  value_counts astype_str f tcols = Ok counts ->
  (forall s c, (s, c) ∈ counts <->
     c = length (in_stratum (row_key f tcols) (Some s) (seq 0 (nrows f)))
     /\ exists p, (p < nrows f)%nat /\ row_key f tcols p = Some s)
  /\ (nrows f = 0%nat -> counts = []).
Proof.
  unfold value_counts.
  destruct (bool_decide (tcols = [] /\ nrows f <> 0%nat)); [done|].
  destruct (bool_decide (NoDup tcols)); [|done].
  intros [= <-]. split.
  - intros s c. change (map ?g ?l) with (g <$> l).
    rewrite list_elem_of_fmap. setoid_rewrite elem_of_remove_dups.
    setoid_rewrite list_elem_of_omap. setoid_rewrite elem_of_seq.
    split.
    + intros (k & [= -> ->] & p & Hp & Hk). split.
      * apply length_filter_omap.
      * exists p. split; [lia|done].
    + intros [-> (p & Hp & Hk)]. exists s. split.
      * f_equal. symmetry. apply (length_filter_omap (row_key f tcols)).
      * exists p. split; [lia|done].
  - by intros ->.
Qed.

Lemma value_counts_Ok f (tcols : list string) :
  tcols <> [] -> NoDup tcols ->
  exists counts, value_counts astype_str f tcols = Ok counts.
Proof.
  intros Hne Hnd. unfold value_counts.
  rewrite bool_decide_eq_false_2 by (by intros [? _]).
  rewrite bool_decide_eq_true_2 by done. by eexists.
Qed.

(** *** The first half *)

Lemma stratify_and_check_Ok st df (cols : list string) (n buckets : Z) st1
    (tcols : list string) :
  stratify_and_check qcut astype_str df cols n buckets st = (st1, Ok tcols) ->
  exists f f1 counts,
    heap st !! df = Some f
    /\ ("group" ∉ column_names f)
    /\ transform_columns df cols buckets st = (st1, Ok tcols)
    /\ tcols = map (fun col => col +:+ "_stratify") cols
    /\ adds_columns df tcols st st1
    /\ heap st1 !! df = Some f1
    /\ value_counts astype_str f1 tcols = Ok counts
    /\ min_at_least counts.*2 n = true.
Proof.
  unfold stratify_and_check.
  intros (? & f & [-> Hf]%load_Ok_inv & H)%bind_Ok_inv.
  apply bind_Ok_inv in H as (? & [] & [-> Ha]%lift_inv & H).
  symmetry in Ha. apply py_assert_inv, bool_decide_eq_true in Ha.
  apply bind_Ok_inv in H as (st2 & names & Ht & H).
  apply bind_Ok_inv in H as (st3 & [] & Hc & H).
  unfold mret, M_ret in H. simplify_eq.
  unfold check_bucket_sizes in Hc.
  apply bind_Ok_inv in Hc as (? & f1 & [-> Hf1]%load_Ok_inv & Hc).
  apply bind_Ok_inv in Hc as (? & counts & [-> Hv]%lift_inv & Hc).
  apply lift_inv in Hc as [-> Hm]. symmetry in Hv, Hm.
  apply py_assert_inv in Hm.
  destruct (transform_columns_spec _ _ _ _ _ _ _ Hf Ht)
    as (done_cols & _ & Hadds & Hok).
  destruct (Hok _ eq_refl) as [-> ->].
  by exists f, f1, counts.
Qed.

Lemma group_not_added (cols : list string) :
  "group" ∉ map (fun col => col +:+ "_stratify") cols.
Proof.
  intros (col & E & _)%list_elem_of_fmap. by eapply stratify_name_not_group.
Qed.

(** The added names are as distinct as the stratifying columns are. *)
Lemma append_inj_l (a b s : string) : a +:+ s = b +:+ s -> a = b.
Proof.
  revert b. induction a as [|x a IH]; intros [|y b] E.
  - done.
  - apply (f_equal String.length) in E.
    change (String y b +:+ s) with (String y (b +:+ s)) in E.
    simpl in E. rewrite !string_length_append in E. simpl in E. lia.
  - apply (f_equal String.length) in E.
    change (String x a +:+ s) with (String x (a +:+ s)) in E.
    simpl in E. rewrite !string_length_append in E. simpl in E. lia.
  - change (String x (a +:+ s) = String y (b +:+ s)) in E.
    injection E as -> E. f_equal. by apply IH.
Qed.

Lemma added_names_NoDup (cols : list string) :
  NoDup cols -> NoDup (map (fun col => col +:+ "_stratify") cols).
Proof.
  intros Hnd. apply (NoDup_fmap_2_strong (fun col => col +:+ "_stratify"));
    [|done].
  intros a b _ _ E. by eapply append_inj_l.
Qed.

(** *** The second loop on the working copy *)

(** The number of rows [round(frac * len)] that a group gives to a turn. *)
Variable round_frac : nat -> Z -> nat.

Lemma mapM_ext_in {A B} (f g : A -> option B) (l : list A) :
  (forall x, x ∈ l -> f x = g x) -> mapM f l = mapM g l.
Proof.
  induction l as [|x l IH]; intros Hfg; [done|]. simpl.
  rewrite (Hfg x) by left. rewrite IH; [done|].
  intros y Hy. apply Hfg. by right.
Qed.

Lemma omap_ext_fun {A B} (f g : A -> option B) (l : list A) :
  (forall x, f x = g x) -> omap f l = omap g l.
Proof.
  intros Hfg. induction l as [|x l IH]; [done|]. csimpl.
  by rewrite (Hfg x), IH.
Qed.

Lemma elem_of_concat {A} (x : A) (ls : list (list A)) :
  x ∈ concat ls -> exists l, x ∈ l /\ l ∈ ls.
Proof.
  induction ls as [|l ls IH]; simpl; [by intros ?%elem_of_nil|].
  intros [Hx|Hx]%elem_of_app.
  - exists l. split; [done|left].
  - destruct (IH Hx) as (l' & ? & ?). exists l'. split; [done|by right].
Qed.

Lemma sample_groups_subset (d : list nat) (groups : list (list nat)) (k : Z)
    (x : nat) :
  x ∈ (sample_groups round_frac d groups k).1 -> x ∈ concat groups.
Proof.
  destruct (sample_groups_spec round_frac d groups k)
    as (chosen & rest & -> & HF).
  induction HF as [|xs c r groups chosen rest [Hp _] _ IH]; simpl; [done|].
  rewrite !elem_of_app. intros [Hx|Hx]; [left|right; by apply IH].
  rewrite Hp. apply elem_of_app. by left.
Qed.

Section working_copy.

(** The frame that was copied and the added columns. *)
Variable f1 : DataFrame raw.
Variable tcols : list string.

(** The working copy, with the cells [g] in its group column. *)
Definition working (g : list (cell raw)) (b : bool) : DataFrame raw :=
  set_column f1 "group" (Column b g).

Local Abbreviation key := (row_key f1 tcols).
Local Abbreviation N := (nrows f1).

Lemma row_key_working g b (p : nat) :
  "group" ∉ tcols -> row_key (working g b) tcols p = row_key f1 tcols p.
Proof.
  intros Hg. unfold StratifiedSampling.row_key. apply mapM_ext_in.
  intros name Hin. unfold working.
  rewrite cell_at_set_column_ne; [done|]. by intros ->.
Qed.

Lemma ungrouped_working g b :
  ungrouped (working g b) = ungrouped_rows N g.
Proof.
  unfold ungrouped, ungrouped_rows. apply filter_ext_in. intros p _.
  unfold working. by rewrite cell_at_set_column_eq.
Qed.

Lemma groupby_working g b (rows : list nat) :
  "group" ∉ tcols ->
  groupby astype_str (working g b) tcols rows
  = map (fun s => in_stratum key s rows)
        (map Some (merge_sort key_le (remove_dups (omap key rows)))).
Proof.
  intros Hg. unfold groupby. rewrite map_map.
  rewrite (omap_ext_fun (row_key (working g b) tcols) key)
    by (intros p; by apply row_key_working).
  apply map_ext. intros s. unfold in_stratum. apply filter_ext_in.
  intros p _. by rewrite row_key_working.
Qed.

(** Only rows whose stratifying cells are all there are drawn. *)
Lemma drawn_rows_have_keys g b (rows d : list nat) (k : Z) (p : nat) :
  "group" ∉ tcols ->
  p ∈ (sample_groups round_frac d
         (groupby astype_str (working g b) tcols rows) k).1 ->
  is_Some (key p).
Proof.
  intros Hg Hp%sample_groups_subset. rewrite groupby_working in Hp by done.
  apply elem_of_concat in Hp as (xs & Hp & Hxs).
  apply list_elem_of_fmap in Hxs as (s & -> & Hs).
  apply list_elem_of_fmap in Hs as (s' & -> & _).
  apply list_elem_of_filter in Hp as [Hp _]. by rewrite Hp.
Qed.

(** A turn of the second loop ends well whatever it finds: it writes its
    label to the rows that it drew. *)
Lemma assign_group_run st (df' : nat) g b (n i : Z) :
  heap st !! df' = Some (working g b) ->
  let drawn :=
    sample_groups round_frac (draws st)
      (groupby astype_str (working g b) tcols (ungrouped_rows N g)) (n - i) in
  assign_group astype_str round_frac df' tcols n i st
  = (State (<[df' := working (assign g drawn.1 i) b]> (heap st)) drawn.2,
     Ok tt).
Proof.
  intros Hf. unfold assign_group.
  rewrite (bind_Ok _ _ _ _ _ (load_Ok _ _ _ Hf)).
  rewrite ungrouped_working.
  destruct (sample_groups round_frac (draws st) _ (n - i)) as [C d'] eqn:Hs.
  simpl.
  erewrite bind_Ok; [|unfold with_draws; by rewrite Hs].
  erewrite bind_Ok.
  2:{ apply lookup_column_Ok. unfold working, get_column. simpl.
      apply get_in_set_in_eq. }
  unfold store, working. simpl. by rewrite set_column_set_column.
Qed.

Lemma cell_of_assign_other (g : list (cell raw)) (C : list nat) (i : Z)
    (p : nat) :
  p ∉ C -> cell_of (assign g C i) p = cell_of g p.
Proof.
  intros Hp. unfold cell_of, assign. rewrite list_lookup_imap.
  destruct (g !! p) as [c|]; [|done]. simpl. by rewrite decide_False.
Qed.

(** The loop ends well for every list of turns; it changes the group column
    of the working copy alone, keeps its length, and gives no label to a row
    with a missing stratifying cell. *)
Lemma assign_groups_run (df' : nat) (b : bool) (n : Z) (turns : list Z) :
  "group" ∉ tcols ->
  forall st g,
    heap st !! df' = Some (working g b) ->
    exists st' g',
      assign_groups astype_str round_frac df' tcols n turns st = (st', Ok tt)
      /\ heap st' = <[df' := working g' b]> (heap st)
      /\ length g' = length g
      /\ forall p : nat, key p = None -> cell_of g' p = cell_of g p.
Proof.
  intros Hg. induction turns as [|i turns IH]; intros st g Hf.
  - exists st, g. split_and!; [done| |done..].
    symmetry. by apply list_insert_id.
  - cbn [StratifiedSampling.assign_groups].
    rewrite (bind_Ok _ _ _ _ _ (assign_group_run st df' g b n i Hf)).
    set (drawn := sample_groups round_frac (draws st) _ (n - i)).
    pose proof (lookup_lt_Some _ _ _ Hf) as Hlt.
    destruct (IH (State (<[df' := working (assign g drawn.1 i) b]> (heap st))
                    drawn.2) (assign g drawn.1 i))
      as (st' & g' & Hrun & Hheap & Hlen & Hkeep);
      [by apply list_lookup_insert_eq|].
    exists st', g'. split_and!; [done| | |].
    + rewrite Hheap. simpl. by rewrite list_insert_insert_eq.
    + rewrite Hlen. unfold assign. by rewrite length_imap.
    + intros p Hp. rewrite (Hkeep p Hp). apply cell_of_assign_other.
      intros Hin. apply drawn_rows_have_keys in Hin; [|done].
      rewrite Hp in Hin. by destruct Hin.
Qed.

End working_copy.

Lemma insert_last {A} (l : list A) (x y : A) :
  <[length l := y]> (l ++ [x]) = l ++ [y].
Proof.
  replace (length l) with (length l + 0)%nat at 1 by lia.
  by rewrite insert_app_r.
Qed.

Lemma range_from_zero (n : Z) : exists turns, py_range 0 n 1 = Ok turns.
Proof. unfold py_range. simpl. by eexists. Qed.

(** The second half of the function, started on a frame [f1] at [df],
    whatever the number of groups: it leaves the objects there were alone
    and adds the working copy with a group column; then either its last
    assertion fails, or it adds the copy without the added columns and
    returns it. A row with a missing stratifying cell has no label in the
    end. *)
Lemma split_into_groups_run st df f1 (tcols : list string) (n : Z) :
  "group" ∉ tcols -> heap st !! df = Some f1 ->
  exists st' (g : list (cell raw)),
    length g = nrows f1
    /\ (forall p : nat, row_key f1 tcols p = None -> cell_of g p = CNone)
    /\ ((split_into_groups astype_str round_frac df tcols n st
         = (st', Ok (S (length (heap st))))
         /\ heap st'
            = heap st ++ [working f1 g false;
                          drop_columns (working f1 g false) tcols]
         /\ forallb (fun c => negb (isna c)) g = true)
        \/ (split_into_groups astype_str round_frac df tcols n st
            = (st', Raise AssertionError)
            /\ heap st' = heap st ++ [working f1 g false]
            /\ forallb (fun c => negb (isna c)) g = false)).
Proof.
  intros Hgroup Hf. unfold split_into_groups.
  rewrite (bind_Ok _ _ _ _ _ (load_Ok _ _ _ Hf)).
  erewrite bind_Ok; [|reflexivity].
  erewrite bind_Ok; [|reflexivity].
  cbn [heap draws]. rewrite insert_last.
  fold (working f1 (replicate (nrows f1) CNone) false).
  destruct (range_from_zero n) as [turns Hturns].
  erewrite bind_Ok; [|unfold lift; by rewrite Hturns].
  set (st0 := State (heap st ++ [working f1 _ false]) (draws st)).
  destruct (assign_groups_run f1 tcols (length (heap st)) false n turns Hgroup
              st0 (replicate (nrows f1) CNone))
    as (st1 & g & Hrun & Hheap & Hlen & Hkeep).
  { simpl. by rewrite list_lookup_middle. }
  rewrite (bind_Ok _ _ _ _ _ Hrun).
  simpl in Hheap. rewrite insert_last in Hheap.
  erewrite bind_Ok.
  2:{ apply load_Ok. rewrite Hheap. by rewrite list_lookup_middle. }
  erewrite bind_Ok.
  2:{ apply lookup_column_Ok. unfold working, get_column. simpl.
      apply get_in_set_in_eq. }
  cbn [values].
  assert (forall p : nat, row_key f1 tcols p = None -> cell_of g p = CNone)
    as Hnone.
  { intros p Hp. rewrite (Hkeep p Hp). unfold cell_of.
    destruct (replicate (nrows f1) CNone !! p) as [c|] eqn:E; [|done].
    by apply lookup_replicate in E as [-> _]. }
  rewrite length_replicate in Hlen.
  destruct (forallb (fun c => negb (isna c)) g) eqn:Hall.
  - erewrite bind_Ok; [|reflexivity].
    exists (State (heap st1 ++ [drop_columns (working f1 g false) tcols])
              (draws st1)), g.
    split_and!; [done..|]. left. split_and!; [|by rewrite Hheap, <- (assoc_L (++))|done].
    unfold alloc. by rewrite Hheap, length_app, Nat.add_1_r.
  - exists st1, g. split_and!; [done..|]. right. split_and!; [|done..].
    by apply bind_Raise.
Qed.

(** When the second half returns, it has added two objects: the working
    copy and the copy without the added columns, which is its answer. *)
Lemma split_into_groups_shape st df f1 (tcols : list string) (n : Z) st'
    (out : nat) :
  "group" ∉ tcols -> heap st !! df = Some f1 ->
  split_into_groups astype_str round_frac df tcols n st = (st', Ok out) ->
  exists g : list (cell raw),
    out = S (length (heap st))
    /\ heap st'
       = heap st ++ [working f1 g false;
                     drop_columns (working f1 g false) tcols].
Proof.
  intros Hgroup Hf Hrun.
  destruct (split_into_groups_run st df f1 tcols n Hgroup Hf)
    as (st'' & g & _ & _ & [(Hok & Hheap & _)|(Hraise & _)]).
  - rewrite Hok in Hrun. injection Hrun as <- <-. by exists g.
  - by rewrite Hraise in Hrun.
Qed.

(** The second half when a row has a missing stratifying cell: the row is
    in no group of [groupby], gets no label, and the last assertion fails. *)
Lemma split_into_groups_missing st df f1 (tcols : list string) (n : Z)
    (p : nat) :
  "group" ∉ tcols -> heap st !! df = Some f1 ->
  (p < nrows f1)%nat -> row_key f1 tcols p = None ->
  exists st',
    split_into_groups astype_str round_frac df tcols n st
    = (st', Raise AssertionError).
Proof.
  intros Hgroup Hf Hp Hkey.
  destruct (split_into_groups_run st df f1 tcols n Hgroup Hf)
    as (st' & g & Hlen & Hnone & [(_ & _ & Hall)|(Hraise & _)]).
  - exfalso. specialize (Hnone p Hkey). unfold cell_of in Hnone.
    destruct (lookup_lt_is_Some_2 g p ltac:(lia)) as [c Hc].
    rewrite Hc in Hnone. simpl in Hnone. subst c.
    apply Is_true_true_2, forallb_True in Hall.
    rewrite Forall_lookup in Hall. by apply (Hall p CNone).
  - by exists st'.
Qed.

Section second_loop.

(** The frame that was copied, the added columns and the number of groups;
    the rounding is to a neighbour, and no stratifying cell is missing. *)
Variable f1 : DataFrame raw.
Variable tcols : list string.
Variable n : Z.
Hypothesis n_pos : 1 <= n.
Hypothesis group_not_in_tcols : "group" ∉ tcols.
Local Abbreviation key := (row_key f1 tcols).
Local Abbreviation N := (nrows f1).

Hypothesis rounding : rounds_to_neighbour N n round_frac.

Hypothesis complete : forall p : nat, (p < N)%nat -> is_Some (key p).

(** What a turn draws: a part of the rows without a group, with the rounded
    share of each stratum. *)
Lemma drawn_rows (d : list nat) (U : list nat) (k : Z) :
  (forall p, p ∈ U -> (p < N)%nat) ->
  let C := (sample_groups round_frac d
              (map (fun s => in_stratum key s U)
                   (map Some (merge_sort key_le (remove_dups (omap key U)))))
              k).1 in
  (exists R, U ≡ₚ C ++ R)
  /\ forall s,
       length (in_stratum key s C)
       = (round_frac (length (in_stratum key s U)) k
          `min` length (in_stratum key s U))%nat.
Proof.
  intros HU.
  set (ks := map Some (merge_sort key_le (remove_dups (omap key U)))).
  assert (NoDup ks) as Hnd.
  { unfold ks. apply (NoDup_fmap_2 Some).
    rewrite merge_sort_Permutation. apply NoDup_remove_dups. }
  assert (forall p, p ∈ U -> key p ∈ ks) as Hcov.
  { intros p Hp. destruct (complete p (HU p Hp)) as [s Hs]. rewrite Hs.
    unfold ks. apply list_elem_of_fmap. exists s. split; [done|].
    rewrite merge_sort_Permutation, elem_of_remove_dups.
    apply list_elem_of_omap. by exists p. }
  destruct (sample_groups_spec round_frac d
              (map (fun s => in_stratum key s U) ks) k)
    as (chosen & rest & HC & HF).
  simpl. rewrite HC. split.
  - exists (concat rest).
    rewrite <- (chosen_split _ _ _
                  (fun len => (round_frac len k `min` len)%nat) HF).
    symmetry. by apply partition_by_key.
  - intros s.
    rewrite (chosen_per_stratum key ks U chosen rest
               (fun len => (round_frac len k `min` len)%nat) s Hnd HF).
    destruct (decide (s ∈ ks)) as [|Hnin]; [done|].
    rewrite in_stratum_none; [simpl; lia|].
    intros p Hp <-. by apply Hnin, Hcov.
Qed.

Lemma assign_group_spec st (df' : nat) g b (i : Z) :
  0 <= i < n -> heap st !! df' = Some (working f1 g b) ->
  balanced key N n i g ->
  exists (C d' : list nat),
    assign_group astype_str round_frac df' tcols n i st
    = (State (<[df' := working f1 (assign g C i) b]> (heap st)) d', Ok tt)
    /\ balanced key N n (i + 1) (assign g C i).
Proof.
  intros Hi Hf Hbal.
  rewrite (assign_group_run f1 tcols st df' g b n i Hf).
  rewrite groupby_working by done.
  set (U := ungrouped_rows N g).
  destruct (drawn_rows (draws st) U (n - i)) as [[R HR] Hsize].
  { intros p [_ Hp%elem_of_seq]%list_elem_of_filter. lia. }
  destruct (sample_groups round_frac (draws st) _ (n - i)) as [C d'] eqn:Hs.
  simpl in HR, Hsize.
  exists C, d'. split; [done|]. by eapply balanced_step.
Qed.

Lemma turns_cons (i : Z) (m : nat) :
  map (fun k : nat => i + Z.of_nat k) (seq 0 (S m))
  = i :: map (fun k : nat => (i + 1) + Z.of_nat k) (seq 0 m).
Proof.
  simpl. f_equal; [lia|]. rewrite <- fmap_S_seq.
  change (S <$> seq 0 m) with (map S (seq 0 m)). rewrite map_map.
  apply map_ext. intros k. lia.
Qed.

Lemma assign_groups_spec (df' : nat) (b : bool) (m : nat) :
  forall (i : Z) st g,
    0 <= i -> Z.of_nat m = n - i ->
    heap st !! df' = Some (working f1 g b) ->
    balanced key N n i g ->
    exists st' g',
      assign_groups astype_str round_frac df' tcols n
        (map (fun k : nat => i + Z.of_nat k) (seq 0 m)) st
      = (st', Ok tt)
      /\ heap st' = <[df' := working f1 g' b]> (heap st)
      /\ balanced key N n n g'.
Proof.
  induction m as [|m IH]; intros i st g Hi Hm Hf Hbal.
  - exists st, g. split_and!; [done| |].
    + symmetry. by apply list_insert_id.
    + by assert (i = n) as -> by lia.
  - rewrite turns_cons. cbn [StratifiedSampling.assign_groups].
    destruct (assign_group_spec st df' g b i ltac:(lia) Hf Hbal)
      as (C & d' & Hrun & Hbal').
    rewrite (bind_Ok _ _ _ _ _ Hrun).
    pose proof (lookup_lt_Some _ _ _ Hf) as Hlt.
    destruct (IH (i + 1)
                (State (<[df' := working f1 (assign g C i) b]> (heap st)) d')
                (assign g C i))
      as (st' & g' & Hrun' & Hheap & Hend);
      [lia|lia|by apply list_lookup_insert_eq|done|].
    exists st', g'. split_and!; [done| |done].
    rewrite Hheap. simpl. by rewrite list_insert_insert_eq.
Qed.

End second_loop.

Lemma range_n_splits (n : Z) :
  1 <= n ->
  py_range 0 n 1
  = Ok (map (fun k : nat => 0 + Z.of_nat k) (seq 0 (Z.to_nat n))).
Proof.
  intros Hn. rewrite py_range_pos by lia. f_equal.
  assert (range_len 0 n 1 = n) as ->.
  { unfold range_len. simpl. destruct (Z.ltb_spec 0 n); [|lia].
    rewrite Z.div_1_r. lia. }
  apply map_ext. intros k. lia.
Qed.

(** The second half of the function, started on a frame [f1] at [df] in
    which no stratifying cell is missing, for at least one group and a
    rounding to a neighbour: it ends well, leaves the objects there were
    alone, and adds two: the working copy with a balanced group column, and
    the copy without the added columns, which it returns. *)
Lemma split_into_groups_spec st df f1 (tcols : list string) (n : Z) :
  1 <= n -> "group" ∉ tcols -> rounds_to_neighbour (nrows f1) n round_frac ->
  (forall p : nat, (p < nrows f1)%nat -> is_Some (row_key f1 tcols p)) ->
  heap st !! df = Some f1 ->
  exists st' (g : list (cell raw)),
    split_into_groups astype_str round_frac df tcols n st
    = (st', Ok (S (length (heap st))))
    /\ heap st'
       = heap st ++ [working f1 g false;
                     drop_columns (working f1 g false) tcols]
    /\ balanced (row_key f1 tcols) (nrows f1) n n g.
Proof.
  intros Hn Hgroup Hround Hcomplete Hf. unfold split_into_groups.
  rewrite (bind_Ok _ _ _ _ _ (load_Ok _ _ _ Hf)).
  erewrite bind_Ok; [|reflexivity].
  erewrite bind_Ok; [|reflexivity].
  cbn [heap draws]. rewrite insert_last.
  fold (working f1 (replicate (nrows f1) CNone) false).
  erewrite bind_Ok; [|unfold lift; by rewrite range_n_splits].
  set (st0 := State (heap st ++ [working f1 _ false]) (draws st)).
  destruct (assign_groups_spec f1 tcols n Hn Hgroup Hround Hcomplete
              (length (heap st)) false
              (Z.to_nat n) 0 st0 (replicate (nrows f1) CNone))
    as (st1 & g & Hrun & Hheap & Hbal); [lia|lia| |by apply balanced_start|].
  { simpl. by rewrite list_lookup_middle. }
  rewrite (bind_Ok _ _ _ _ _ Hrun).
  simpl in Hheap. rewrite insert_last in Hheap.
  erewrite bind_Ok.
  2:{ apply load_Ok. rewrite Hheap. by rewrite list_lookup_middle. }
  erewrite bind_Ok.
  2:{ apply lookup_column_Ok. unfold working, get_column. simpl.
      apply get_in_set_in_eq. }
  destruct (balanced_end _ _ _ _ Hbal) as [Hall _].
  erewrite bind_Ok; [|unfold lift; cbn [values]; by rewrite Hall].
  exists (State (heap st1 ++ [drop_columns (working f1 g false) tcols])
            (draws st1)), g.
  split_and!; [|by rewrite Hheap, <- (assoc_L (++))|done].
  unfold alloc. by rewrite Hheap, length_app, Nat.add_1_r.
Qed.

(** The second half for a number of groups below one: the loop has no turn,
    and the last assertion fails as soon as there is a row. *)
Lemma split_into_groups_nonpos st df f1 (tcols : list string) (n : Z) :
  n < 1 -> heap st !! df = Some f1 -> nrows f1 <> 0%nat ->
  exists st',
    split_into_groups astype_str round_frac df tcols n st
    = (st', Raise AssertionError).
Proof.
  intros Hn Hf HN. unfold split_into_groups.
  rewrite (bind_Ok _ _ _ _ _ (load_Ok _ _ _ Hf)).
  erewrite bind_Ok; [|reflexivity].
  erewrite bind_Ok; [|reflexivity].
  cbn [heap draws]. rewrite insert_last.
  assert (py_range 0 n 1 = Ok []) as Hr.
  { rewrite py_range_pos by lia. unfold range_len. simpl.
    destruct (Z.ltb_spec 0 n); [lia|done]. }
  erewrite bind_Ok; [|unfold lift; by rewrite Hr].
  erewrite bind_Ok; [|reflexivity].
  erewrite bind_Ok; [|apply load_Ok; simpl; by rewrite list_lookup_middle].
  erewrite bind_Ok.
  2:{ apply lookup_column_Ok. unfold get_column. simpl.
      apply get_in_set_in_eq. }
  destruct (nrows f1) as [|N']; [done|].
  eexists. by apply bind_Raise.
Qed.

Lemma get_column_drop_columns f (names : list string) (name : string) :
  name ∉ names -> get_column (drop_columns f names) name = get_column f name.
Proof.
  intros Hn. unfold get_column, drop_columns. simpl.
  induction (columns f) as [|[x c] cols IH]; [done|].
  rewrite filter_cons. simpl. destruct (decide (x = name)) as [->|Hne].
  - rewrite decide_True by done. simpl. by rewrite decide_True.
  - destruct (decide (x ∉ names)); simpl; [|done].
    by rewrite decide_False.
Qed.

(** *** The function as a whole *)

(** C2. If the first half of [proportional_stratified_sample] passes (no
    [group] column, the columns added, every stratum with at least [n_splits]
    rows), [n_splits] is at least 1, no row of the frame has a missing value
    in an added column, and [round(frac * len)] is the quotient rounded down
    or up for the group sizes of the frame, the function returns a frame with the rows of the input in which
    every row has exactly one label among [0 .. n_splits - 1], every label
    is used, and within each stratum the number of rows of each label is the
    stratum's size divided by [n_splits], rounded down or up. This holds
    whatever the random draws are. *)
Theorem proportional_stratified_sample_partitions st df (cols : list string)
    (n buckets : Z) st1 (tcols : list string) f1 :
  1 <= n ->
  stratify_and_check qcut astype_str df cols n buckets st = (st1, Ok tcols) ->
  heap st1 !! df = Some f1 ->
  rounds_to_neighbour (nrows f1) n round_frac ->
  (forall p : nat, (p < nrows f1)%nat -> is_Some (row_key f1 tcols p)) ->
  exists st' (out : nat) f,
    proportional_stratified_sample qcut astype_str round_frac df cols n
      buckets st
    = (st', Ok out)
    /\ heap st' !! out = Some f
    /\ nrows f = nrows f1
    /\ (forall p : nat, (p < nrows f)%nat ->
          exists i, 0 <= i < n /\ cell_at f "group" p = CInt i)
    /\ (forall i, 0 <= i < n ->
          exists p : nat, (p < nrows f)%nat /\ cell_at f "group" p = CInt i)
    /\ forall (s : list string) (i : Z), 0 <= i < n ->
         let size :=
           Z.of_nat (length (in_stratum (row_key f1 tcols) (Some s)
                               (seq 0 (nrows f1)))) in
         let share :=
           Z.of_nat
             (length (in_stratum (row_key f1 tcols) (Some s)
                        (filter (fun p => label_of (cell_at f "group" p)
                                          = Some i)
                                (seq 0 (nrows f))))) in
         size / n <= share <= size / n + 1.
Proof.
  intros Hn Hcheck Hf1 Hround Hcomplete.
  destruct (stratify_and_check_Ok _ _ _ _ _ _ _ Hcheck)
    as (f & f1' & counts & Hf & Hnog & _ & -> & Hadds & Hf1' & Hv & Hmin).
  rewrite Hf1 in Hf1'. injection Hf1' as <-.
  pose proof (group_not_added cols) as Hgroup.
  destruct (split_into_groups_spec st1 df f1 _ n Hn Hgroup Hround Hcomplete
              Hf1)
    as (st' & g & Hrun & Hheap & Hbal).
  set (tcols := map (fun col => col +:+ "_stratify") cols) in *.
  set (fw := working f1 g false) in *.
  assert (forall p, cell_at (drop_columns fw tcols) "group" p = cell_of g p)
    as Hcell.
  { intros p. unfold cell_at. rewrite get_column_drop_columns by done.
    unfold fw, working, get_column. simpl. by rewrite get_in_set_in_eq. }
  destruct (balanced_end _ _ _ _ Hbal) as [_ Hlabels].
  exists st', (S (length (heap st1))), (drop_columns fw tcols).
  split_and!.
  - unfold proportional_stratified_sample.
    by rewrite (bind_Ok _ _ _ _ _ Hcheck).
  - rewrite Hheap. rewrite lookup_app_r by lia.
    by replace (S (length (heap st1)) - length (heap st1))%nat with 1%nat
      by lia.
  - done.
  - intros p Hp. destruct (Hlabels p Hp) as (i & Hi & Hg).
    exists i. split; [done|]. rewrite Hcell. unfold cell_of. by rewrite Hg.
  - intros i Hi.
    apply min_at_least_true in Hmin as [Hne Hall].
    destruct (value_counts_spec _ _ _ Hv) as [Hcounts _].
    destruct counts as [|[s c] counts]; [done|].
    assert ((s, c) ∈ (s, c) :: counts) as Hin by left.
    apply Hcounts in Hin as [Hc _].
    assert (n <= Z.of_nat c) as Hcn by (apply Hall; left).
    pose proof (bal_done _ _ _ _ _ Hbal (Some s) i Hi) as [Hlow _].
    unfold quota, stratum_size in Hlow. rewrite <- Hc in Hlow.
    assert (1 <= Z.of_nat c / n) by (apply Z.div_le_lower_bound; lia).
    destruct (in_stratum (row_key f1 tcols) (Some s)
                (group_rows (nrows f1) g i))
      as [|p rest] eqn:E; [simpl in Hlow; lia|].
    assert (p ∈ in_stratum (row_key f1 tcols) (Some s)
                  (group_rows (nrows f1) g i))
      as Hp by (rewrite E; left).
    apply list_elem_of_filter in Hp as [_ Hp].
    apply list_elem_of_filter in Hp as [Hl Hp%elem_of_seq].
    exists p. split; [simpl; lia|]. rewrite Hcell.
    destruct (cell_of g p); simpl in Hl; by simplify_eq.
  - intros s i Hi. simpl.
    assert (filter (fun p => label_of (cell_at (drop_columns fw tcols)
                                         "group" p) = Some i)
              (seq 0 (nrows f1))
            = group_rows (nrows f1) g i) as ->.
    { apply filter_ext_in. intros p _. by rewrite Hcell. }
    apply (bal_done _ _ _ _ _ Hbal (Some s) i Hi).
Qed.

(** C6. For stratifying columns that are distinct and at least one, and are
    all transformed: when some stratum of the transformed columns has fewer
    than [n_splits] rows, [proportional_stratified_sample] raises
    [AssertionError]: at the bucket size check, in the state that the first
    loop left (only the string columns added to the caller's object, no copy
    with a group column made), or before that when the input already has a
    [group] column. *)
Theorem too_small_stratum_raises st df f (cols : list string) (n buckets : Z)
    st1 (tcols : list string) f1 (s : list string) (p : nat) :
  heap st !! df = Some f ->
  cols <> [] -> NoDup cols ->
  transform_columns df cols buckets st = (st1, Ok tcols) ->
  heap st1 !! df = Some f1 ->
  (p < nrows f1)%nat -> row_key f1 tcols p = Some s ->
  Z.of_nat (length (in_stratum (row_key f1 tcols) (Some s)
                      (seq 0 (nrows f1)))) < n ->
  proportional_stratified_sample qcut astype_str round_frac df cols n buckets
    st
  = (if bool_decide ("group" ∈ column_names f) then st else st1,
     Raise AssertionError)
  /\ adds_columns df tcols st st1.
Proof.
  intros Hf Hne Hnd Ht Hf1 Hp Hs Hc.
  destruct (transform_columns_spec _ _ _ _ _ _ _ Hf Ht)
    as (done_cols & _ & Hadds & Hok).
  destruct (Hok _ eq_refl) as [-> ->].
  split; [|done].
  destruct (value_counts_Ok f1 (map (fun col => col +:+ "_stratify") cols))
    as [counts Hv]; [by destruct cols|by apply added_names_NoDup|].
  unfold proportional_stratified_sample. apply bind_Raise.
  unfold stratify_and_check.
  rewrite (bind_Ok _ _ _ _ _ (load_Ok _ _ _ Hf)).
  destruct (decide ("group" ∈ column_names f)) as [Hg|Hg].
  { rewrite (bool_decide_eq_true_2 _ Hg). apply bind_Raise.
    unfold lift. by rewrite bool_decide_eq_false_2 by (by intros ?). }
  rewrite (bool_decide_eq_false_2 _ Hg).
  erewrite bind_Ok;
    [|unfold lift; by rewrite bool_decide_eq_true_2].
  rewrite (bind_Ok _ _ _ _ _ Ht).
  apply bind_Raise. unfold check_bucket_sizes.
  rewrite (bind_Ok _ _ _ _ _ (load_Ok _ _ _ Hf1)).
  erewrite bind_Ok; [|unfold lift; by rewrite Hv].
  unfold lift. f_equal.
  destruct (min_at_least counts.*2 n) eqn:Hm; [|done].
  apply min_at_least_true in Hm as [_ Hall]. exfalso.
  set (c := length (in_stratum
                      (row_key f1 (map (fun col => col +:+ "_stratify") cols))
                      (Some s) (seq 0 (nrows f1)))) in *.
  assert (n <= Z.of_nat c); [|lia]. apply Hall.
  apply list_elem_of_fmap. exists (s, c). split; [done|].
  apply (value_counts_spec _ _ _ Hv). split; [done|]. by exists p.
Qed.

(** C10. When [proportional_stratified_sample] returns, the caller's
    dataframe object has its old columns and, besides, a column
    [col + "_stratify"] for every stratifying column, and no [group] column;
    the frame that is returned is another object, with the caller's old
    columns other than the added names, and the [group] column. *)
Theorem caller_frame_keeps_added_columns st df (cols : list string)
    (n buckets : Z) st' (out : nat) :
  proportional_stratified_sample qcut astype_str round_frac df cols n buckets
    st
  = (st', Ok out) ->
  exists f f_caller f_out,
    heap st !! df = Some f
    /\ heap st' !! df = Some f_caller
    /\ heap st' !! out = Some f_out
    /\ out <> df
    /\ (forall x, x ∈ column_names f_caller <->
          x ∈ column_names f
          \/ x ∈ map (fun col => col +:+ "_stratify") cols)
    /\ ("group" ∉ column_names f_caller)
    /\ (forall x, x ∈ column_names f_out <->
          x = "group"
          \/ (x ∈ column_names f
              /\ x ∉ map (fun col => col +:+ "_stratify") cols)).
Proof.
  unfold proportional_stratified_sample.
  intros (st1 & tcols & Hcheck & Hsplit)%bind_Ok_inv.
  destruct (stratify_and_check_Ok _ _ _ _ _ _ _ Hcheck)
    as (f & f1 & counts & Hf & Hnog & _ & -> & Hadds & Hf1 & Hv & Hmin).
  pose proof (group_not_added cols) as Hgroup.
  set (tcols := map (fun col => col +:+ "_stratify") cols) in *.
  destruct Hadds as (_ & Hlen & _ & Hdf).
  destruct (Hdf f Hf) as (f1' & Hf1' & _ & Hnames).
  rewrite Hf1 in Hf1'. injection Hf1' as <-.
  pose proof (lookup_lt_Some _ _ _ Hf1) as Hlt.
  destruct (split_into_groups_shape st1 df f1 tcols n st' out Hgroup Hf1
              Hsplit) as (g & -> & Hheap).
  exists f, f1, (drop_columns (working f1 g false) tcols).
  split_and!; [done| | |lia|done| |].
  - rewrite Hheap. by rewrite lookup_app_l.
  - rewrite Hheap, lookup_app_r by lia.
    by replace (S (length (heap st1)) - length (heap st1))%nat with 1%nat
      by lia.
  - rewrite Hnames. by intros [?|?].
  - intros x. rewrite names_drop_columns. unfold working.
    rewrite names_set_column, Hnames. split.
    + intros [[->|[?|?]] ?]; [by left|by right|done].
    + intros [->|[? ?]]; (split; [|done]); [by left|right; by left].
Qed.

End run.

(** *** A concrete run *)

(** Seven customers with an age and a city. The stand-in for [pd.qcut] puts
    an age into the bin of its tens; the stand-in for [astype(str)] names a
    bin by its number and writes a missing value as the string ["None"]; the
    stand-in for the rounding rounds the exact quotient, a tie to the even
    neighbour. *)
Definition example_qcut (l : list (cell Z)) (q : Z) : result (list (cell Z)) :=
  Ok (map (fun c => match c with CRaw x => CInt (x / 10) | c => c end) l).

Definition example_str (c : cell Z) : option string :=
  Some match c with
       | CStr s => s
       | CInt z => if z =? 0 then "bin 0" else "bin 1"
       | CRaw x => if x <? 10 then "young" else "old"
       | CNone => "None"
       end.

(** An [astype(str)] that leaves a missing value missing. *)
Definition example_str_na (c : cell Z) : option string :=
  match c with
  | CNone => None
  | _ => example_str c
  end.

Definition round_half_even (len k : Z) : Z :=
  let q := len / k in
  let r := len mod k in
  if 2 * r <? k then q
  else if k <? 2 * r then q + 1
  else if Z.even q then q else q + 1.

Definition example_round (len : nat) (k : Z) : nat :=
  Z.to_nat (round_half_even (Z.of_nat len) k).

Lemma example_round_neighbour (N : nat) (n : Z) :
  rounds_to_neighbour N n example_round.
Proof.
  intros len k _ [Hk _]. unfold example_round, round_half_even.
  set (a := Z.of_nat len). assert (0 <= a) as Ha by (unfold a; lia).
  pose proof (Z.div_mod a k ltac:(lia)) as Hd.
  pose proof (Z.mod_pos_bound a k ltac:(lia)) as Hm.
  assert (0 <= a / k) as Hq by (apply Z.div_pos; lia).
  assert (a / k <= (a + k - 1) / k) as Hmono
    by (apply Z.div_le_mono; lia).
  assert (0 < a mod k -> a / k + 1 <= (a + k - 1) / k) as Hceil.
  { intros Hr. apply Z.div_le_lower_bound; lia. }
  destruct (Z.ltb_spec (2 * (a mod k)) k); [lia|].
  destruct (Z.ltb_spec k (2 * (a mod k))); [lia|].
  destruct (Z.even (a / k)); lia.
Qed.

Definition example_df : DataFrame Z :=
  Frame 7
    [("age", Column true (map CRaw [1; 12; 3; 14; 5; 16; 7]));
     ("city", Column false (map CStr ["a"; "b"; "a"; "b"; "a"; "b"; "a"]))].

Definition example_state : state Z :=
  State [example_df] [3; 1; 4; 1; 5; 9; 2; 6]%nat.

(** The caller's frame once the column [city_stratify] is added. *)
Definition example_stratified : DataFrame Z :=
  Frame 7
    [("age", Column true (map CRaw [1; 12; 3; 14; 5; 16; 7]));
     ("city", Column false (map CStr ["a"; "b"; "a"; "b"; "a"; "b"; "a"]));
     ("city_stratify",
      Column false (map CStr ["a"; "b"; "a"; "b"; "a"; "b"; "a"]))].

Definition example_checked : state Z :=
  State [example_stratified] [3; 1; 4; 1; 5; 9; 2; 6]%nat.

(** Four customers, two of them without a city. *)
Definition example_missing : state Z :=
  State [Frame 4 [("city", Column false [CStr "a"; CStr "a"; CNone; CNone])]]
    [3; 1; 4; 1; 5; 9; 2; 6]%nat.

(** Two groups: the four rows of city [a] split two and two, the three of
    city [b] two and one. *)
Definition example_result : state Z * result nat :=
  Eval vm_compute in
    proportional_stratified_sample example_qcut example_str example_round 0
      ["city"] 2 10 example_state.

Example example_groups :
  (fun f => values <$> (get_column f "group")) <$> heap example_result.1 !! 2%nat
  = Some (Some [CInt 1; CInt 1; CInt 0; CInt 0; CInt 1; CInt 0; CInt 0]).
Proof. vm_compute. reflexivity. Qed.

Example example_by_age :
  (proportional_stratified_sample example_qcut example_str example_round 0
     ["age"] 3 10 example_state).2 = Ok 2%nat.
Proof. vm_compute. reflexivity. Qed.

Example example_no_groups :
  (proportional_stratified_sample example_qcut example_str example_round 0
     ["city"] 0 10 example_state).2 = Raise AssertionError.
Proof. vm_compute. reflexivity. Qed.

(** With a missing value written as ["None"], the two customers without a
    city are a stratum of their own. *)
Example example_missing_as_string :
  (fun f => values <$> (get_column f "group"))
    <$> heap (proportional_stratified_sample example_qcut example_str
                example_round 0 ["city"] 2 10 example_missing).1 !! 2%nat
  = Some (Some [CInt 1; CInt 0; CInt 1; CInt 0]).
Proof. vm_compute. reflexivity. Qed.

(** C2, the counterexample. A frame that passes the assertions of the first
    half is not always split: with [n_splits = 0] the bucket size check
    passes, the loop has no turn and the last assertion fails; and with two
    groups, the two customers without a city, whom [astype(str)] leaves
    without one, are counted in no stratum, get no group, and the last
    assertion fails. *)
Lemma passing_frame_left_unsplit :
  ((stratify_and_check example_qcut example_str 0 ["city"] 0 10
      example_state).2 = Ok ["city_stratify"]
   /\ (proportional_stratified_sample example_qcut example_str example_round
         0 ["city"] 0 10 example_state).2 = Raise AssertionError)
  /\ ((stratify_and_check example_qcut example_str_na 0 ["city"] 2 10
         example_missing).2 = Ok ["city_stratify"]
      /\ (proportional_stratified_sample example_qcut example_str_na
            example_round 0 ["city"] 2 10 example_missing).2
         = Raise AssertionError).
Proof. split_and!; vm_compute; reflexivity. Qed.

(** C6, the counterexample. With the city given twice as a stratifying
    column and four groups, the three customers of city [b] are a stratum of
    fewer than four rows, and the exception is the [ValueError] of
    [value_counts], not an [AssertionError]. *)
Lemma repeated_column_raises_value_error :
  (proportional_stratified_sample example_qcut example_str example_round 0
     ["city"; "city"] 4 10 example_state).2 = Raise ValueError
  /\ row_key example_str example_stratified
       ["city_stratify"; "city_stratify"] 1 = Some ["b"; "b"]
  /\ length (in_stratum
               (row_key example_str example_stratified
                  ["city_stratify"; "city_stratify"])
               (Some ["b"; "b"]) (seq 0 (nrows example_stratified)))
     = 3%nat.
Proof. split_and!; vm_compute; reflexivity. Qed.

Lemma example_stratified_complete (p : nat) :
  (p < nrows example_stratified)%nat ->
  is_Some (row_key example_str example_stratified ["city_stratify"] p).
Proof.
  intros Hp. do 7 (destruct p as [|p]; [by eexists|]). simpl in Hp. lia.
Qed.

Lemma proportional_stratified_sample_partitions_witness :
  exists (st' : state Z) (out : nat) (f : DataFrame Z),
    proportional_stratified_sample example_qcut example_str example_round 0
      ["city"] 2 10 example_state = (st', Ok out)
    /\ heap st' !! out = Some f
    /\ nrows f = nrows example_stratified
    /\ (forall p : nat, (p < nrows f)%nat ->
          exists i, 0 <= i < 2 /\ cell_at f "group" p = CInt i)
    /\ (forall i, 0 <= i < 2 ->
          exists p : nat, (p < nrows f)%nat /\ cell_at f "group" p = CInt i)
    /\ forall (s : list string) (i : Z), 0 <= i < 2 ->
         let size :=
           Z.of_nat
             (length (in_stratum
                        (row_key example_str example_stratified
                           ["city_stratify"]) (Some s)
                        (seq 0 (nrows example_stratified)))) in
         let share :=
           Z.of_nat
             (length (in_stratum
                        (row_key example_str example_stratified
                           ["city_stratify"]) (Some s)
                        (filter (fun p => label_of (cell_at f "group" p)
                                          = Some i)
                                (seq 0 (nrows f))))) in
         size / 2 <= share <= size / 2 + 1.
Proof.
  apply (proportional_stratified_sample_partitions example_qcut example_str
           example_round example_state 0 ["city"] 2 10 example_checked
           ["city_stratify"] example_stratified).
  - lia.
  - vm_compute. reflexivity.
  - reflexivity.
  - apply example_round_neighbour.
  - apply example_stratified_complete.
Defined.

Lemma too_small_stratum_raises_witness :
  proportional_stratified_sample example_qcut example_str example_round 0
    ["city"] 4 10 example_state = (example_checked, Raise AssertionError)
  /\ adds_columns 0 ["city_stratify"] example_state example_checked.
Proof.
  apply (too_small_stratum_raises example_qcut example_str example_round
           example_state 0 example_df ["city"] 4 10 example_checked
           ["city_stratify"] example_stratified ["b"] 1).
  - reflexivity.
  - done.
  - apply (bool_decide_unpack _). vm_compute. exact I.
  - vm_compute. reflexivity.
  - reflexivity.
  - simpl. lia.
  - vm_compute. reflexivity.
  - vm_compute. reflexivity.
Defined.

Lemma caller_frame_keeps_added_columns_witness :
  exists f f_caller f_out : DataFrame Z,
    heap example_state !! 0%nat = Some f
    /\ heap example_result.1 !! 0%nat = Some f_caller
    /\ heap example_result.1 !! 2%nat = Some f_out
    /\ 2%nat <> 0%nat
    /\ (forall x, x ∈ column_names f_caller <->
          x ∈ column_names f
          \/ x ∈ map (fun col => col +:+ "_stratify") ["city"])
    /\ ("group" ∉ column_names f_caller)
    /\ (forall x, x ∈ column_names f_out <->
          x = "group"
          \/ (x ∈ column_names f
              /\ x ∉ map (fun col => col +:+ "_stratify") ["city"])).
Proof.
  apply (caller_frame_keeps_added_columns example_qcut example_str
           example_round example_state 0 ["city"] 2 10 example_result.1 2).
  vm_compute. reflexivity.
Defined.

End StratifiedFacts.

(** ** Further properties of [utils/db_query_utils.py] *)

Module DbQueryExtra.
Import DbQueryUtils PyFacts DbQueryFacts.

(** *** The text of a query that is not split into steps *)

(** [readlines] keeps every character: joining the lines gives the text
    back. *)
Lemma str_join_readlines (txt : string) : str_join (readlines txt) = txt.
Proof.
  induction txt as [|c s IH]; [done|].
  cbn [readlines]. destruct (Ascii.eqb c newline).
  - change (String c (str_join (readlines s)) = String c s). by rewrite IH.
  - destruct (readlines s) as [|l ls].
    + simpl in IH. by rewrite <- IH.
    + change (String c (str_join (l :: ls)) = String c s). by rewrite IH.
Qed.

(** The text without its line feeds. *)
Fixpoint without_newlines (s : string) : string :=
  match s with
  | EmptyString => EmptyString
  | String c s' =>
      if Ascii.eqb c newline then without_newlines s'
      else String c (without_newlines s')
  end.

(** [split] drops the line feeds, and joining does not put them back. *)
Lemma str_join_split_nl (q : string) :
  str_join (split_nl q) = without_newlines q.
Proof.
  induction q as [|c s IH]; [done|].
  cbn [split_nl without_newlines]. destruct (Ascii.eqb c newline).
  - exact IH.
  - destruct (split_nl s) as [|l ls].
    + simpl in IH. by rewrite <- IH.
    + change (String c (str_join (l :: ls)) = String c (without_newlines s)).
      by rewrite IH.
Qed.

Lemma without_newlines_no_newline (s : string) (c : ascii) :
  c ∈ list_ascii_of_string (without_newlines s) -> c <> newline.
Proof.
  induction s as [|x s IH]; simpl.
  - by intros ?%elem_of_nil.
  - destruct (Ascii.eqb_spec x newline) as [->|Hx]; [done|].
    simpl. intros [->|H]%elem_of_cons; [done|by apply IH].
Qed.

Section DBQuery.

Context {cursor value : Type} `{!CursorAPI cursor value}.
Variable fs : gmap string string.

(** X1. With [by_steps] off, a query read from a file is one group of one
    step, and the step is the text of the file as it is read, character by
    character. *)
Theorem file_query_is_sent_verbatim (self : DBQuery cursor value)
    (p txt : string) :
  by_file self = true -> file_path self = Some p -> fs !! p = Some txt ->
  by_steps self = false ->
  populate_query fs self = Ok (set_qry self [[txt]]).
Proof.
  intros Hf Hp Htxt Hs. apply populate_query_spec.
  exists (readlines txt). split.
  - unfold load_lines. by rewrite Hf, Hp, Htxt.
  - by rewrite Hs, str_join_readlines.
Qed.

(** X2. With [by_steps] off, a query given as a string is one group of one
    step, and the step is the string with every line feed removed: the lines
    are joined with nothing between them. *)
Theorem literal_query_loses_line_feeds (self : DBQuery cursor value)
    (q : string) :
  by_file self = false -> raw_qry self = Some q -> by_steps self = false ->
  populate_query fs self = Ok (set_qry self [[without_newlines q]])
  /\ forall c, c ∈ list_ascii_of_string (without_newlines q) -> c <> newline.
Proof.
  intros Hf Hq Hs. split.
  - apply populate_query_spec. exists (split_nl q). split.
    + unfold load_lines. by rewrite Hf, Hq.
    + by rewrite Hs, str_join_split_nl.
  - apply without_newlines_no_newline.
Qed.

End DBQuery.

(** *** How many groups and steps a text gives *)

Lemma length_indices_from {A} (p : A -> bool) (i0 : nat) (q : list A) :
  length (indices_from p i0 q) = length (List.filter p q).
Proof.
  revert i0. induction q as [|e q IH]; intros i0; simpl; [done|].
  destruct (p e); simpl; by rewrite IH.
Qed.

Lemma length_with_next (xs : list nat) : length (with_next xs) = length xs.
Proof.
  unfold with_next. destruct xs as [|a xs]; [done|].
  rewrite length_zip, length_app, length_map.
  change (length (tail (a :: xs))) with (length xs).
  change (length (a :: xs)) with (S (length xs)).
  change (length [None (A:=nat)]) with 1%nat. lia.
Qed.

(** X3. The processed query has one group for every line that contains
    [SUB_QUERY], and a group has one step for every line of it that contains
    [BASE_QUERY] or [QUERY_STEP], and one step when there is no such line: a
    group is never empty. *)
Theorem groups_and_steps_count (qry q : list string) :
  length (process_subqueries qry) = length (List.filter is_sub_query qry)
  /\ length (process_steps q) = Nat.max 1 (length (List.filter is_step q))
  /\ Forall (fun g => g <> []) (process_subqueries qry).
Proof.
  assert (forall l, length (process_steps l)
                    = Nat.max 1 (length (List.filter is_step l))) as Hsteps.
  { intros l. rewrite process_steps_unfold.
    rewrite <- (length_indices_from is_step 0 l). fold (indices is_step l).
    destruct (indices is_step l) as [|base rest]; [done|].
    rewrite length_map, length_app, length_map. simpl. lia. }
  split_and!; [|done|].
  - rewrite process_subqueries_unfold, length_map, length_with_next.
    apply length_indices_from.
  - rewrite process_subqueries_unfold. apply Forall_forall.
    intros g (ab & -> & _)%list_elem_of_fmap Hg.
    pose proof (Hsteps (slice ab.1 ab.2 qry)) as Hl.
    rewrite Hg in Hl. simpl in Hl. lia.
Qed.

(** *** The cache during a run *)

Section cache.

Context {cursor value : Type} `{!CursorAPI cursor value}.
Variable fs : gmap string string.

Lemma set_cursor_cache_same (self : DBQuery cursor value) :
  set_cursor_cache self (cursor_of self) (cache self) = self.
Proof. by destruct self. Qed.

Lemma set_cursor_cache_twice (self : DBQuery cursor value) cur1 k1 cur2 k2 :
  set_cursor_cache (set_cursor_cache self cur1 k1) cur2 k2
  = set_cursor_cache self cur2 k2.
Proof. done. Qed.

(** Reading the text again does not look at the cursor or at the cache. *)
Lemma populate_query_set_cursor_cache (self s1 : DBQuery cursor value) cur k :
  populate_query fs self = Ok s1 ->
  populate_query fs (set_cursor_cache self cur k)
  = Ok (set_cursor_cache s1 cur k).
Proof.
  intros (lines & Hl & ->)%populate_query_spec.
  apply populate_query_spec. exists lines. by split.
Qed.

Lemma populate_query_cache (self s1 : DBQuery cursor value) :
  populate_query fs self = Ok s1 ->
  cache s1 = cache self /\ cursor_of s1 = cursor_of self.
Proof. by intros (lines & Hl & ->)%populate_query_spec. Qed.

(** A step that is in the cache is answered from it. *)
Lemma run_query_step_hit (self : DBQuery cursor value) c query res n tr :
  cache self = Some c -> c !! query = Some res ->
  run_query_step self query n true tr = Ok (self, res).
Proof.
  intros Hc Hq. unfold run_query_step, cache_get. rewrite Hc. simpl.
  by rewrite Hq.
Qed.

(** With the cache on, a step leaves the object with a cache that holds
    what it held before and the step's result. *)
Lemma run_query_step_cached (self s1 : DBQuery cursor value) c query res n tr :
  cache self = Some c ->
  run_query_step self query n true tr = Ok (s1, res) ->
  exists cur c1,
    s1 = set_cursor_cache self cur (Some c1) /\ c ⊆ c1
    /\ c1 !! query = Some res.
Proof.
  intros Hc. unfold run_query_step, cache_get, cache_put. rewrite Hc. simpl.
  destruct (c !! query) as [r|] eqn:Hq.
  - intros [= <- <-]. exists (cursor_of self), c.
    split_and!; [|done..]. by rewrite <- Hc, set_cursor_cache_same.
  - destruct (execute _ _) as [cur|]; simpl; [|done].
    destruct (description cur) as [cols|]; simpl; [|done].
    destruct (match n with Some k => _ | None => _ end) as [cur' data].
    destruct (match tr with true => _ | false => _ end) as [r|]; simpl; [|done].
    intros [= <- <-]. exists cur', (<[query := r]> c).
    split_and!; [done| |by rewrite lookup_insert_eq].
    by apply insert_subseteq.
Qed.

Lemma run_steps_cached (self s1 : DBQuery cursor value) c steps rs tr :
  cache self = Some c ->
  run_steps self steps true tr = Ok (s1, rs) ->
  exists cur c1,
    s1 = set_cursor_cache self cur (Some c1) /\ c ⊆ c1
    /\ Forall2 (fun s r => c1 !! s = Some r) steps rs.
Proof.
  revert self c rs. induction steps as [|s steps IH]; intros self c rs Hc.
  - intros [= <- <-]. exists (cursor_of self), c.
    split_and!; [|done|constructor]. by rewrite <- Hc, set_cursor_cache_same.
  - cbn [run_steps].
    destruct (run_query_step self s _ true tr) as [[s0 r]|] eqn:Hstep;
      simpl; [|done].
    apply (run_query_step_cached _ _ c) in Hstep
      as (cur0 & c0 & -> & Hsub0 & Hr); [|done].
    destruct (run_steps _ steps true tr) as [[s2 rs']|] eqn:Hrest;
      simpl; [|done].
    intros [= <- <-].
    apply (IH _ c0) in Hrest as (cur & c1 & -> & Hsub & Hall); [|done].
    exists cur, c1. split_and!; [done|by etrans|].
    constructor; [|done]. by eapply lookup_weaken.
Qed.

Lemma run_steps_all_cached (self : DBQuery cursor value) c steps rs tr :
  cache self = Some c ->
  Forall2 (fun s r => c !! s = Some r) steps rs ->
  run_steps self steps true tr = Ok (self, rs).
Proof.
  intros Hc. induction 1 as [|s r steps rs Hs _ IH]; [done|].
  cbn [run_steps]. rewrite (run_query_step_hit _ c s r) by done.
  simpl. by rewrite IH.
Qed.

(** X4. After a run with the cache on, by an object that has a cache, a
    second run with the cache on, of the same text, returns the same tables
    and leaves the object as it is, whatever cursor the object holds by then
    and whether or not the transformations are asked for: nothing is
    executed and the tables come from the cache as the first run left
    them. *)
Theorem second_run_is_served_from_cache (self s1 : DBQuery cursor value)
    (c : gmap string (table value)) (rs : list (table value))
    (tr tr' : bool) (cur' : cursor) :
  cache self = Some c ->
  run fs self true tr = Ok (s1, rs) ->
  run fs (set_cursor_cache s1 cur' (cache s1)) true tr'
  = Ok (set_cursor_cache s1 cur' (cache s1), rs).
Proof.
  intros Hc. unfold run.
  destruct (populate_query fs self) as [s0|] eqn:Hp; simpl; [|done].
  destruct (populate_query_cache _ _ Hp) as [Hc0 _]. rewrite Hc in Hc0.
  intros (cur & c1 & -> & Hsub & Hall)%(run_steps_cached _ _ c); [|done].
  apply populate_query_fixed in Hp.
  rewrite set_cursor_cache_twice.
  rewrite (populate_query_set_cursor_cache _ _ _ _ Hp). simpl.
  by apply (run_steps_all_cached _ c1).
Qed.

(** Without the cache a step neither reads nor writes it. *)
Lemma run_query_step_uncached (self s1 : DBQuery cursor value) query res n tr k :
  run_query_step self query n false tr = Ok (s1, res) ->
  cache s1 = cache self
  /\ run_query_step (set_cursor_cache self (cursor_of self) k) query n false tr
     = Ok (set_cursor_cache s1 (cursor_of s1) k, res).
Proof.
  unfold run_query_step. simpl.
  destruct (execute _ _) as [cur|]; simpl; [|done].
  destruct (description cur) as [cols|]; simpl; [|done].
  destruct (match n with Some k => _ | None => _ end) as [cur' data].
  destruct (match tr with true => _ | false => _ end) as [r|]; simpl; [|done].
  by intros [= <- <-].
Qed.

Lemma run_steps_uncached (self s1 : DBQuery cursor value) steps rs tr k :
  run_steps self steps false tr = Ok (s1, rs) ->
  cache s1 = cache self
  /\ run_steps (set_cursor_cache self (cursor_of self) k) steps false tr
     = Ok (set_cursor_cache s1 (cursor_of s1) k, rs).
Proof.
  revert self rs. induction steps as [|s steps IH]; intros self rs.
  - by intros [= <- <-].
  - cbn [run_steps].
    destruct (run_query_step self s _ false tr) as [[s0 r]|] eqn:Hstep;
      simpl; [|done].
    destruct (run_query_step_uncached _ _ _ _ _ _ k Hstep) as [Hc0 ->].
    destruct (run_steps s0 steps false tr) as [[s2 rs']|] eqn:Hrest;
      simpl; [|done].
    intros [= <- <-].
    destruct (IH _ _ Hrest) as [Hc2 ->]. split; [congruence|done].
Qed.

(** X5. A run with the cache off neither reads nor writes the cache: the
    object's cache is afterwards what it was, and with any other cache in
    its place the run gives the same tables and leaves the cursor in the
    same state. *)
Theorem run_without_cache_ignores_it (self s1 : DBQuery cursor value)
    (rs : list (table value)) (tr : bool) :
  run fs self false tr = Ok (s1, rs) ->
  cache s1 = cache self
  /\ forall k,
       run fs (set_cursor_cache self (cursor_of self) k) false tr
       = Ok (set_cursor_cache s1 (cursor_of s1) k, rs).
Proof.
  unfold run.
  destruct (populate_query fs self) as [s0|] eqn:Hp; simpl; [|done].
  destruct (populate_query_cache _ _ Hp) as [Hc0 Hcur0].
  intros Hrun. split.
  - destruct (run_steps_uncached _ _ _ _ _ None Hrun) as [-> _]. done.
  - intros k.
    rewrite (populate_query_set_cursor_cache _ _ _ _ Hp). simpl.
    rewrite <- Hcur0.
    by destruct (run_steps_uncached _ _ _ _ _ k Hrun) as [_ ->].
Qed.

End cache.

(** *** The transformations *)

Lemma head_indices_from {A} (p : A -> bool) (i0 i : nat) (q : list A) :
  head (indices_from p i0 q) = Some i ->
  (i0 <= i)%nat /\ exists e, q !! (i - i0)%nat = Some e /\ p e = true.
Proof.
  revert i0. induction q as [|e q IH]; intros i0; simpl; [done|].
  destruct (p e) eqn:He; simpl.
  - intros [= <-]. split; [lia|]. exists e. by rewrite Nat.sub_diag.
  - intros [Hle (e' & Hl & He')]%IH. split; [lia|]. exists e'.
    split; [|done]. by replace (i - i0)%nat with (S (i - S i0)) by lia.
Qed.

Lemma indices_from_nil {A} (p : A -> bool) (i0 : nat) (q : list A) :
  indices_from p i0 q = [] -> Forall (fun e => p e = false) q.
Proof.
  revert i0. induction q as [|e q IH]; intros i0; simpl; [constructor|].
  destruct (p e) eqn:He; [done|]. intros H. constructor; [done|by eapply IH].
Qed.

Lemma column_index_Some (col : string) (cols : list string) (i : nat) :
  column_index col cols = Some i -> cols !! i = Some col.
Proof.
  intros [_ (e & Hl & He)]%head_indices_from.
  apply bool_decide_eq_true in He as ->. by rewrite Nat.sub_0_r in Hl.
Qed.

Lemma column_index_None (col : string) (cols : list string) :
  column_index col cols = None <-> col ∉ cols.
Proof.
  unfold column_index, indices. split.
  - intros H Hin.
    destruct (indices_from _ 0 cols) eqn:E; [|done].
    apply indices_from_nil in E. rewrite Forall_forall in E.
    specialize (E _ Hin). by rewrite bool_decide_eq_true_2 in E.
  - intros Hnot. rewrite indices_from_none; [done|].
    apply Forall_forall. intros c Hc. apply bool_decide_eq_false_2.
    by intros ->.
Qed.

Lemma Forall2_map_same {A} (f : A -> A) (P : A -> A -> Prop) (l : list A) :
  (forall x, P x (f x)) -> Forall2 P l (map f l).
Proof. intros H. induction l; simpl; by constructor. Qed.

(** What a row keeps when the transformations [ts] are applied to a table
    with the columns [cols]: its length, and its cells in the columns that no
    transformation names. *)
Definition row_kept {value} (cols : list string)
    (ts : list (string * (value -> value))) (row row' : list value) : Prop :=
  length row' = length row
  /\ forall j name, cols !! j = Some name -> name ∉ ts.*1 ->
       row' !! j = row !! j.

(** X6. On a table whose column names are distinct: when every
    transformation names a column of the table, the result has the same
    columns and as many rows, every row keeps its length and its cells in
    the columns that no transformation names; when some transformation names
    a column that the table does not have, [KeyError] is raised. *)
Theorem apply_transform_keeps_other_columns {value : Type}
    (ts : list (string * (value -> value))) (res : table value) :
  NoDup (tcolumns res) ->
  (Forall (fun t => t.1 ∈ tcolumns res) ts ->
     exists res',
       apply_transform ts res = Ok res' /\ tcolumns res' = tcolumns res
       /\ Forall2 (row_kept (tcolumns res) ts) (tdata res) (tdata res'))
  /\ (Exists (fun t => t.1 ∉ tcolumns res) ts ->
      apply_transform ts res = Raise KeyError).
Proof.
  intros _. split.
  - revert res. induction ts as [|[col f] ts IH]; intros res Hall.
    + exists res. split_and!; [done..|]. apply Forall_Forall2_diag, Forall_forall.
      by intros row _.
    + apply Forall_cons in Hall as [Hcol Hall]. simpl in Hcol.
      cbn [apply_transform].
      destruct (column_index col (tcolumns res)) as [i|] eqn:Hi;
        [|by apply column_index_None in Hi].
      apply column_index_Some in Hi.
      destruct (IH (Table (tcolumns res) (map (alter f i) (tdata res))) Hall)
        as (res' & -> & Hcols & Hrows).
      exists res'. split_and!; [done..|]. simpl in Hrows.
      assert (Forall2 (fun row row1 : list value =>
                         length row1 = length row
                         /\ forall j, j <> i -> row1 !! j = row !! j)
                (tdata res) (map (alter f i) (tdata res))) as Hfirst.
      { apply Forall2_map_same. intros row. split.
        - apply length_alter.
        - intros j Hj. by apply list_lookup_alter_ne. }
      eapply Forall2_trans; [|exact Hfirst|exact Hrows].
      intros row row1 row' [Hlen1 Hcells1] [Hlen Hcells]. split; [congruence|].
      intros j name Hj Hname. apply not_elem_of_cons in Hname as [Hne Hname].
      rewrite (Hcells j name Hj Hname). apply Hcells1.
      intros ->. simpl in Hne. congruence.
  - revert res. induction ts as [|[col f] ts IH]; intros res Hex.
    + by apply Exists_nil in Hex.
    + cbn [apply_transform].
      destruct (column_index col (tcolumns res)) as [i|] eqn:Hi; [|done].
      apply Exists_cons in Hex as [Hcol|Hex].
      * apply column_index_Some, list_elem_of_lookup_2 in Hi. by simpl in Hcol.
      * by apply (IH (Table (tcolumns res) (map (alter f i) (tdata res)))).
Qed.

(** *** The constructor's paths *)

Section init.

Context {cursor value : Type} `{!CursorAPI cursor value}.
Variable fs : gmap string string.
Variable cwd : string.
Variable path_join : string -> string -> string.
Variable default_cache : gmap string (table value).

(** X7. A [root_folder] works only together with a [file_name] and a
    [base_folder]: given a root folder and a query string in place of the
    file name, or no base folder, the constructor raises [TypeError], from
    the path that it builds from [None]. *)
Theorem init_root_folder_type_error (cur : cursor)
    (fn q bf : option string) (r : string) (steps : bool) (lim : option Z)
    (uc : bool) (oc : old_cache_arg value)
    (tr : option (list (string * (value -> value)))) :
  fn <> None \/ q <> None -> fn = None \/ bf = None ->
  init fs cwd path_join default_cache cur fn q bf (Some r) steps lim uc oc tr
  = Raise TypeError.
Proof.
  intros Hsome Hnone. unfold init.
  destruct fn as [f|], q as [q|], bf as [b|]; simpl; try done;
    by destruct Hsome, Hnone.
Qed.

(** X8. A query file is opened by the constructor, at [root_folder /
    base_folder / file_name] when a root folder is given and else under the
    working directory: when there is no file at that path the constructor
    raises [FileNotFoundError], and when there is one the object is built
    and holds that path. *)
Theorem init_reads_the_file (cur : cursor) (f : string)
    (q bf root : option string) (steps : bool) (lim : option Z) (uc : bool)
    (oc : old_cache_arg value)
    (tr : option (list (string * (value -> value)))) :
  root = None \/ bf <> None ->
  let path :=
    match root, bf with
    | Some r, Some b => path_join (path_join r b) f
    | _, Some b => path_join (path_join cwd b) f
    | _, None => path_join cwd f
    end in
  match fs !! path with
  | None =>
      init fs cwd path_join default_cache cur (Some f) q bf root steps lim uc
        oc tr = Raise FileNotFoundError
  | Some txt =>
      exists self,
        init fs cwd path_join default_cache cur (Some f) q bf root steps lim
          uc oc tr = Ok self
        /\ by_file self = true /\ file_path self = Some path
        /\ raw_qry self = None
        /\ qry self = Some (if steps then process_subqueries (readlines txt)
                            else [[txt]])
  end.
Proof.
  intros Hroot path. unfold init. simpl.
  assert ((match root with
           | Some r =>
               match bf with
               | Some b => Ok (Some (path_join (path_join r b) f))
               | None => Raise TypeError
               end
           | None =>
               Ok (Some match bf with
                        | None => path_join cwd f
                        | Some b => path_join (path_join cwd b) f
                        end)
           end : result (option string)) = Ok (Some path)) as ->.
  { subst path. destruct root as [r|], bf as [b|]; try done.
    by destruct Hroot. }
  simpl. unfold populate_query, load_lines. simpl.
  destruct (fs !! path) as [txt|]; simpl; [|done].
  destruct steps; simpl; eexists; split_and!; try done.
  by rewrite str_join_readlines.
Qed.

(** The cache that the constructor gives the object. *)
Definition chosen_cache (uc : bool) (oc : old_cache_arg value)
    : option (gmap string (table value)) :=
  match uc, oc with
  | true, OldCache c => Some c
  | true, OldDict d => Some d
  | true, OldNone => Some default_cache
  | _, _ => None
  end.

Lemma init_gives_cache (cur : cursor) fn q bf root steps lim uc
    (oc : old_cache_arg value) tr (self : DBQuery cursor value) :
  init fs cwd path_join default_cache cur fn q bf root steps lim uc oc tr
    = Ok self ->
  cache self = chosen_cache uc oc /\ cursor_of self = cur.
Proof.
  unfold init. destruct (py_assert _); simpl; [|done].
  destruct fn as [f|], root as [r|], bf as [b|]; simpl; try done;
    match goal with |- context [populate_query fs ?s] =>
      destruct (populate_query fs s) as [s1|] eqn:Hp end; simpl; try done;
    by intros [= <-].
Qed.

End init.

(** The file, the text and the flags decide the processed query; a second
    object for them differs from the first in the cursor, the limit, the
    transformations and the cache that it is given. *)
Lemma init_other_object {cursor value : Type} `{!CursorAPI cursor value}
    (fs : gmap string string) (cwd : string)
    (path_join : string -> string -> string)
    (dc dc' : gmap string (table value)) (cur cur' : cursor) fn q bf root
    steps lim lim' uc uc' (oc oc' : old_cache_arg value) tr tr'
    (self : DBQuery cursor value) :
  init fs cwd path_join dc cur fn q bf root steps lim uc oc tr = Ok self ->
  init fs cwd path_join dc' cur' fn q bf root steps lim' uc' oc' tr'
  = Ok (MkDBQuery (root_folder self) (by_file self) (file_path self)
          (raw_qry self) (by_steps self) (qry self) cur' lim' tr'
          (chosen_cache dc' uc' oc')).
Proof.
  unfold init. destruct (py_assert _); simpl; [|done].
  destruct fn as [f|], root as [r|], bf as [b|]; simpl; try done;
    match goal with |- context [populate_query fs ?s] =>
      destruct (populate_query fs s) as [s1|] eqn:Hp end; simpl; try done;
    intros [= <-];
    apply populate_query_spec in Hp as (lines & Hl & ->);
    match goal with |- context [populate_query fs ?s] =>
      rewrite (proj2 (populate_query_spec fs s _)
                 (ex_intro _ lines (conj Hl eq_refl))) end;
    done.
Qed.

Section sharing.

Context {cursor value : Type} `{!CursorAPI cursor value}.
Variable fs : gmap string string.
Variable cwd : string.
Variable path_join : string -> string -> string.

(** X9. Objects built with [use_cache] on and no [old_cache] hold one and
    the same dictionary, the default of [DBQueryCache]'s constructor. So
    when such an object has run, with [d1] the content of that dictionary
    afterwards, a later object for the same file or text gets the first
    one's tables from its own run with the cache on, and executes nothing:
    whatever its cursor, its limit and its transformations are. *)
Theorem default_cache_leaks_between_objects
    (d0 : gmap string (table value)) (cur1 : cursor)
    (fn q bf root : option string) (steps : bool) (lim1 : option Z)
    (tr1 : option (list (string * (value -> value))))
    (s0 s1 : DBQuery cursor value) (rs : list (table value)) (t1 : bool) :
  init fs cwd path_join d0 cur1 fn q bf root steps lim1 true OldNone tr1
    = Ok s0 ->
  run fs s0 true t1 = Ok (s1, rs) ->
  exists d1,
    cache s1 = Some d1 /\ d0 ⊆ d1
    /\ forall (cur2 : cursor) (lim2 : option Z)
         (tr2 : option (list (string * (value -> value)))) (t2 : bool),
       exists s2,
         init fs cwd path_join d1 cur2 fn q bf root steps lim2 true OldNone
           tr2 = Ok s2
         /\ cursor_of s2 = cur2
         /\ run fs s2 true t2 = Ok (s2, rs).
Proof.
  intros Hinit Hrun.
  destruct (init_gives_cache _ _ _ _ _ _ _ _ _ _ _ _ _ _ _ Hinit) as [Hc0 _].
  simpl in Hc0.
  pose proof (init_then_populate _ _ _ _ _ _ _ _ _ _ _ _ _ _ _ Hinit) as Hp0.
  unfold run in Hrun. rewrite Hp0 in Hrun. simpl in Hrun.
  apply (run_steps_cached _ _ d0) in Hrun
    as (cur & d1 & -> & Hsub & Hall); [|done].
  exists d1. split_and!; [done..|].
  intros cur2 lim2 tr2 t2.
  pose proof (init_other_object fs cwd path_join d0 d1 cur1 cur2 fn q bf
                root steps lim1 lim2 true true OldNone OldNone tr1 tr2 s0
                Hinit) as Hinit2.
  eexists. split_and!; [exact Hinit2|done|].
  pose proof (init_then_populate _ _ _ _ _ _ _ _ _ _ _ _ _ _ _ Hinit2) as Hp2.
  unfold run. rewrite Hp2. simpl.
  by apply (run_steps_all_cached _ d1).
Qed.

End sharing.

(** *** The properties on concrete queries *)

#[local] Existing Instance null_cursor.

Definition example_path : string := "/work/queries/report.sql".

Definition example_fs : gmap string string :=
  {[ example_path := example_text ]}.

(** An object for the file, not split into steps. *)
Definition example_file_query : DBQuery unit unit :=
  MkDBQuery None true (Some example_path) None false None tt None None None.

(** An object for the same text as a string, not split into steps. *)
Definition example_literal_query : DBQuery unit unit :=
  MkDBQuery None false None (Some example_text) false None tt None None None.

(** [example_query] after a run with the cache on: the two steps are in the
    cache. *)
Definition example_cache : gmap string (table unit) :=
  <["-- BASE_QUERYselect 1-- QUERY_STEPfrom dual" := Table [] []]>
    (<["-- BASE_QUERYselect 1" := Table [] []]> ∅).

Definition example_ran : DBQuery unit unit :=
  set_cursor_cache example_processed tt (Some example_cache).

Example example_run :
  run ∅ example_query true true = Ok (example_ran, [Table [] []; Table [] []]).
Proof. vm_compute. reflexivity. Qed.

Lemma file_query_is_sent_verbatim_witness :
  populate_query example_fs example_file_query
  = Ok (set_qry example_file_query [[example_text]]).
Proof.
  apply (file_query_is_sent_verbatim example_fs example_file_query
           example_path example_text); reflexivity.
Defined.

Lemma literal_query_loses_line_feeds_witness :
  populate_query ∅ example_literal_query
  = Ok (set_qry example_literal_query [[without_newlines example_text]])
  /\ forall c, c ∈ list_ascii_of_string (without_newlines example_text) ->
       c <> newline.
Proof.
  apply (literal_query_loses_line_feeds ∅ example_literal_query example_text);
    reflexivity.
Defined.

Lemma second_run_is_served_from_cache_witness :
  run ∅ (set_cursor_cache example_ran tt (cache example_ran)) true false
  = Ok (set_cursor_cache example_ran tt (cache example_ran),
        [Table [] []; Table [] []]).
Proof.
  apply (second_run_is_served_from_cache ∅ example_query example_ran ∅
           [Table [] []; Table [] []] true false tt).
  - reflexivity.
  - vm_compute. reflexivity.
Defined.

Lemma run_without_cache_ignores_it_witness :
  cache example_processed = cache example_query
  /\ forall k,
       run ∅ (set_cursor_cache example_query (cursor_of example_query) k)
         false true
       = Ok (set_cursor_cache example_processed
               (cursor_of example_processed) k,
             [Table [] []; Table [] []]).
Proof.
  apply (run_without_cache_ignores_it ∅ example_query example_processed
           [Table [] []; Table [] []] true).
  vm_compute. reflexivity.
Defined.

Definition example_table : table Z :=
  Table ["id"; "amount"] [[1; 10]; [2; 20]].

Lemma apply_transform_keeps_other_columns_witness :
  (Forall (fun t : string * (Z -> Z) => t.1 ∈ tcolumns example_table)
     [("amount", Z.succ)] ->
   exists res',
     apply_transform [("amount", Z.succ)] example_table = Ok res'
     /\ tcolumns res' = tcolumns example_table
     /\ Forall2 (row_kept (tcolumns example_table) [("amount", Z.succ)])
          (tdata example_table) (tdata res'))
  /\ (Exists (fun t : string * (Z -> Z) => t.1 ∉ tcolumns example_table)
        [("amount", Z.succ)] ->
      apply_transform [("amount", Z.succ)] example_table = Raise KeyError).
Proof.
  apply (apply_transform_keeps_other_columns [("amount", Z.succ)]
           example_table).
  apply (bool_decide_unpack _). vm_compute. exact I.
Defined.

Example example_transform :
  apply_transform [("amount", Z.succ)] example_table
  = Ok (Table ["id"; "amount"] [[1; 11]; [2; 21]])
  /\ apply_transform [("total", Z.succ)] example_table = Raise KeyError.
Proof. split; reflexivity. Qed.

Lemma init_root_folder_type_error_witness :
  init (value := unit) ∅ "/work" (fun a b => a +:+ "/" +:+ b) ∅ tt None
    (Some "select 1 from dual") (Some "queries") (Some "/root") true None
    true OldNone None = Raise TypeError.
Proof.
  apply (init_root_folder_type_error (value := unit) ∅ "/work"
           (fun a b => a +:+ "/" +:+ b) ∅ tt None
           (Some "select 1 from dual") (Some "queries") "/root" true None
           true OldNone None).
  - right. discriminate.
  - left. reflexivity.
Defined.

Lemma init_reads_the_file_witness :
  exists self : DBQuery unit unit,
    init example_fs "/home" (fun a b => a +:+ "/" +:+ b) ∅ tt
      (Some "report.sql") None (Some "queries") (Some "/work") false None
      true OldNone None = Ok self
    /\ by_file self = true /\ file_path self = Some example_path
    /\ raw_qry self = None /\ qry self = Some [[example_text]].
Proof.
  exact (init_reads_the_file (value := unit) example_fs "/home"
           (fun a b => a +:+ "/" +:+ b) ∅ tt "report.sql" None
           (Some "queries") (Some "/work") false None true OldNone None
           (or_intror (fun H => eq_ind (Some "queries")
              (fun o => match o with Some _ => True | None => False end)
              I None H))).
Defined.

Lemma default_cache_leaks_between_objects_witness :
  exists d1,
    cache example_ran = Some d1 /\ ∅ ⊆ d1
    /\ forall (cur2 : unit) (lim2 : option Z)
         (tr2 : option (list (string * (unit -> unit)))) (t2 : bool),
       exists s2,
         init ∅ "/home" (fun a b => a +:+ "/" +:+ b) d1 cur2 None
           (Some example_text) None None true lim2 true OldNone tr2 = Ok s2
         /\ cursor_of s2 = cur2
         /\ run ∅ s2 true t2 = Ok (s2, [Table [] []; Table [] []]).
Proof.
  apply (default_cache_leaks_between_objects ∅ "/home"
           (fun a b => a +:+ "/" +:+ b) ∅ tt None (Some example_text) None
           None true None None example_processed example_ran
           [Table [] []; Table [] []] true).
  - vm_compute. reflexivity.
  - vm_compute. reflexivity.
Defined.

End DbQueryExtra.

(** ** Properties of [DBQueryCache] as an object *)

Module DbQueryCacheFacts.
Import DbQueryUtils DbQueryCacheHeap DbQueryExtra.

Section heap.

Context {V : Type}.
Implicit Types (h : heap V) (q : string) (r : V).

(** Every address stored in the heap is one of a dictionary of the heap. *)
Definition wf h : Prop :=
  (default_dict < length (dicts h))%nat
  /\ Forall (fun d => (d < length (dicts h))%nat) (objects h).

(** The entries that the cache object [o] shows. *)
Definition content h (o : nat) : option (gmap string V) :=
  match dict_of h o with
  | Ok (_, m) => Some m
  | Raise _ => None
  end.

Lemma wf_initial : wf (initial (V := V)).
Proof. split; [unfold default_dict; simpl; lia|constructor]. Qed.

Lemma dict_of_Ok h (o d : nat) :
  wf h -> objects h !! o = Some d ->
  exists m, dicts h !! d = Some m /\ dict_of h o = Ok (d, m).
Proof.
  intros [_ Hwf] Ho. rewrite Forall_forall in Hwf.
  destruct (lookup_lt_is_Some_2 (dicts h) d) as [m Hm].
  { apply Hwf. by eapply list_elem_of_lookup_2. }
  exists m. split; [done|]. unfold dict_of. by rewrite Ho, Hm.
Qed.

Lemma wf_new_cache h (d : option nat) :
  wf h -> (forall a, d = Some a -> (a < length (dicts h))%nat) ->
  wf (new_cache d h).1.
Proof.
  intros [Hd Hwf] Ha. split; [done|]. simpl.
  apply Forall_app. split; [done|]. constructor; [|constructor].
  destruct d as [a|]; simpl; [by apply Ha|done].
Qed.

Lemma put_Ok h (o d : nat) (m : gmap string V) q r :
  dict_of h o = Ok (d, m) ->
  put o q r h = Ok (Heap (<[d := <[q := r]> m]> (dicts h)) (objects h)).
Proof. intros H. unfold put. by rewrite H. Qed.

Lemma wf_put h h' (o : nat) q r : wf h -> put o q r h = Ok h' -> wf h'.
Proof.
  intros [Hd Hwf]. unfold put.
  destruct (dict_of h o) as [[d m]|]; simpl; [|done].
  intros [= <-]. split; simpl; by rewrite length_insert.
Qed.

(** Reading through an object after a dictionary has been written. *)
Lemma get_after_write h (b d d' : nat) (m : gmap string V) q :
  objects h !! b = Some d' -> (d < length (dicts h))%nat ->
  get b q (Heap (<[d := m]> (dicts h)) (objects h))
  = if decide (d' = d) then Ok (m !! q) else get b q h.
Proof.
  intros Hb Hd. unfold get, dict_of. simpl. rewrite Hb.
  destruct (decide (d' = d)) as [->|Hne].
  - by rewrite list_lookup_insert_eq.
  - by rewrite list_lookup_insert_ne.
Qed.

(** X10. The default dictionary is shared: an entry put through a cache
    that was made without an argument is found through every cache object
    that holds the default dictionary, those made before as well as one made
    without an argument afterwards. *)
Theorem caches_without_argument_share_entries h h1 (a : nat) q r :
  wf h -> new_cache None h = (h1, a) ->
  exists h2,
    put a q r h1 = Ok h2
    /\ (forall b, objects h2 !! b = Some default_dict ->
          get b q h2 = Ok (Some r))
    /\ exists h3 c,
         new_cache None h2 = (h3, c) /\ c <> a /\ get c q h3 = Ok (Some r).
Proof.
  intros Hwf [= <- <-].
  pose proof (wf_new_cache h None Hwf ltac:(done)) as Hwf1.
  set (h1 := (new_cache None h).1) in *.
  assert (objects h1 !! length (objects h) = Some default_dict) as Ha.
  { unfold h1. simpl. by rewrite list_lookup_middle. }
  destruct (dict_of_Ok h1 _ _ Hwf1 Ha) as (m & Hm & Hd).
  pose proof (put_Ok h1 _ _ _ q r Hd) as Hput.
  eexists. split; [exact Hput|].
  assert (forall o,
            objects h1 !! o = Some default_dict ->
            get o q (Heap (<[default_dict := <[q := r]> m]> (dicts h1))
                       (objects h1)) = Ok (Some r)) as Hget.
  { intros o Ho. rewrite (get_after_write h1 o default_dict default_dict) by
      (done || apply Hwf1).
    rewrite decide_True by done. by rewrite lookup_insert_eq. }
  split; [exact Hget|].
  eexists _, _. split; [done|]. split.
  - simpl. rewrite length_app. simpl. lia.
  - unfold get, dict_of. simpl.
    rewrite list_lookup_middle by done. simpl.
    rewrite list_lookup_insert_eq by apply Hwf1. simpl.
    by rewrite lookup_insert_eq.
Qed.

(** X11. [clear] gives the object a new, empty dictionary and leaves the
    old one with its entries: the object shows no entry afterwards, every
    other object shows what it showed before, also when it shared the old
    dictionary, and what is put through the cleared object afterwards is not
    seen through the others. *)
Theorem clear_leaves_the_old_dictionary h (a d : nat) :
  wf h -> objects h !! a = Some d ->
  exists h1,
    clear a h = Ok h1
    /\ (forall q, get a q h1 = Ok None)
    /\ dicts h1 !! d = dicts h !! d
    /\ (forall b q, b <> a -> get b q h1 = get b q h)
    /\ forall q r, exists h2,
         put a q r h1 = Ok h2
         /\ get a q h2 = Ok (Some r)
         /\ forall b q', b <> a -> get b q' h2 = get b q' h.
Proof.
  intros Hwf Ha. destruct (dict_of_Ok h _ _ Hwf Ha) as (m & Hm & Hd).
  pose proof (lookup_lt_Some _ _ _ Ha) as Hlen.
  pose proof (lookup_lt_Some _ _ _ Hm) as Hdlen.
  unfold clear. rewrite Hd. simpl.
  set (h1 := Heap (dicts h ++ [∅]) (<[a := length (dicts h)]> (objects h))).
  assert (dict_of h1 a = Ok (length (dicts h), ∅)) as Hd1.
  { unfold dict_of, h1. simpl. rewrite list_lookup_insert_eq by done.
    by rewrite list_lookup_middle. }
  assert (forall b, b <> a -> dict_of h1 b = dict_of h b) as Hother.
  { intros b Hb. unfold dict_of, h1. simpl.
    rewrite list_lookup_insert_ne by done.
    destruct (objects h !! b) as [d'|] eqn:Hb'; [|done].
    destruct (dict_of_Ok h _ _ Hwf Hb') as (m' & Hm' & _).
    by rewrite (lookup_app_l_Some _ _ _ _ Hm'), Hm'. }
  exists h1. split_and!; [done| | | |].
  - intros q. unfold get. by rewrite Hd1.
  - unfold h1. simpl. by rewrite lookup_app_l.
  - intros b q Hb. unfold get. by rewrite Hother.
  - intros q r. rewrite (put_Ok h1 _ _ _ q r Hd1). eexists. split; [done|].
    split.
    + unfold get, dict_of. simpl. rewrite list_lookup_insert_eq by done.
      rewrite list_lookup_insert_eq by (rewrite length_app; simpl; lia).
      simpl. by rewrite lookup_insert_eq.
    + intros b q' Hb. unfold get, dict_of. simpl.
      rewrite list_lookup_insert_ne by done.
      destruct (objects h !! b) as [d'|] eqn:Hb'; [|done].
      destruct (dict_of_Ok h _ _ Hwf Hb') as (m' & Hm' & _).
      pose proof (lookup_lt_Some _ _ _ Hm').
      rewrite list_lookup_insert_ne by lia.
      by rewrite (lookup_app_l_Some _ _ _ _ Hm'), Hm'.
Qed.

End heap.

(** *** The constructor of [DBQuery] and the dictionaries *)

Section constructor.

Context {cursor value : Type} `{!CursorAPI cursor value}.
Variable fs : gmap string string.
Variable cwd : string.
Variable path_join : string -> string -> string.

(** The [old_cache] argument by what it shows. *)
Definition old_cache_value (h : heap (table value)) (ref : old_cache_ref)
    : old_cache_arg value :=
  match ref with
  | RefNone => OldNone
  | RefCache o =>
      match content h o with
      | Some m => OldCache m
      | None => OldOther
      end
  | RefDict d =>
      match dicts h !! d with
      | Some m => OldDict m
      | None => OldOther
      end
  | RefOther => OldOther
  end.

(** The reference is one to an object or a dictionary of the heap. *)
Definition valid_ref (h : heap (table value)) (ref : old_cache_ref) : Prop :=
  match ref with
  | RefCache o => (o < length (objects h))%nat
  | RefDict d => (d < length (dicts h))%nat
  | _ => True
  end.

(** The dictionary that the object's cache writes to. *)
Definition written_dict (uc : bool) (ref : old_cache_ref)
    (h : heap (table value)) : option nat :=
  match uc, ref with
  | true, RefNone => Some default_dict
  | true, RefDict d => Some d
  | true, RefCache o => objects h !! o
  | _, _ => None
  end.

(** X12. The cache of the object that the constructor returns shows the
    entries of the dictionary that the object model gives it: the default
    dictionary without an [old_cache], the caller's own dictionary when
    [old_cache] is a dictionary, the dictionary of the caller's cache object
    when it is one; no dictionary is made or changed by the constructor. *)
Theorem constructor_cache_is_the_callers_dictionary
    (h : heap (table value)) (ref : old_cache_ref)
    (dd : gmap string (table value)) (cur : cursor)
    (fn q bf root : option string) (steps : bool) (lim : option Z) (uc : bool)
    (tr : option (list (string * (value -> value))))
    (self : DBQuery cursor value) :
  wf h -> valid_ref h ref -> dicts h !! default_dict = Some dd ->
  init fs cwd path_join dd cur fn q bf root steps lim uc
    (old_cache_value h ref) tr = Ok self ->
  exists h1 o,
    init_cache uc ref h = (h1, o) /\ wf h1 /\ dicts h1 = dicts h
    /\ cache self = o ≫= content h1
    /\ (o ≫= (objects h1 !!.)) = written_dict uc ref h.
Proof.
  intros Hwf Hvalid Hdd Hinit.
  apply init_gives_cache in Hinit as [-> _].
  destruct uc; [|by eexists _, _].
  destruct ref as [|o|d|]; simpl in *.
  - eexists _, _. split; [done|].
    split; [by apply (wf_new_cache h None)|]. split; [done|]. simpl.
    unfold content, dict_of. simpl.
    rewrite list_lookup_middle by done. simpl. by rewrite Hdd.
  - destruct (lookup_lt_is_Some_2 _ _ Hvalid) as [d Hd].
    destruct (dict_of_Ok h _ _ Hwf Hd) as (m & Hm & Ho).
    eexists _, _. split; [done|]. split; [done|]. split; [done|]. simpl.
    unfold content. by rewrite Ho.
  - destruct (lookup_lt_is_Some_2 _ _ Hvalid) as [m Hm]. rewrite Hm.
    eexists _, _. split; [done|].
    split; [apply (wf_new_cache h (Some d) Hwf); by intros ? [= <-]|].
    split; [done|]. simpl. unfold content, dict_of. simpl.
    rewrite list_lookup_middle by done. simpl. by rewrite Hm.
  - by eexists _, _.
Qed.

End constructor.

(** *** The properties on concrete heaps *)

Lemma caches_without_argument_share_entries_witness :
  exists h2 : heap Z,
    put 0%nat "select 1" 7 (Heap [∅] [default_dict]) = Ok h2
    /\ (forall b, objects h2 !! b = Some default_dict ->
          get b "select 1" h2 = Ok (Some 7))
    /\ exists h3 c,
         new_cache None h2 = (h3, c) /\ c <> 0%nat
         /\ get c "select 1" h3 = Ok (Some 7).
Proof.
  apply (caches_without_argument_share_entries (initial (V := Z))
           (Heap [∅] [default_dict]) 0%nat "select 1" 7).
  - split; [vm_compute; lia|constructor].
  - reflexivity.
Defined.

(** Two cache objects on the default dictionary, which holds one entry. *)
Definition example_heap : heap Z :=
  Heap [{[ "select 1" := 7 ]}] [default_dict; default_dict].

Lemma clear_leaves_the_old_dictionary_witness :
  exists h1,
    clear 0%nat example_heap = Ok h1
    /\ (forall q, get 0%nat q h1 = Ok None)
    /\ dicts h1 !! default_dict = dicts example_heap !! default_dict
    /\ (forall b q, b <> 0%nat -> get b q h1 = get b q example_heap)
    /\ forall q r, exists h2,
         put 0%nat q r h1 = Ok h2
         /\ get 0%nat q h2 = Ok (Some r)
         /\ forall b q', b <> 0%nat -> get b q' h2 = get b q' example_heap.
Proof.
  apply (clear_leaves_the_old_dictionary example_heap 0%nat default_dict).
  - split; [vm_compute; lia|]. repeat constructor.
  - reflexivity.
Defined.

Example example_clear :
  (h ← clear 0%nat example_heap; get 0%nat "select 1" h) = Ok None
  /\ (h ← clear 0%nat example_heap; get 1%nat "select 1" h) = Ok (Some 7)
  /\ (h ← clear 0%nat example_heap;
      let '(h, c) := new_cache None h in get c "select 1" h) = Ok (Some 7).
Proof. split_and!; vm_compute; reflexivity. Qed.

#[local] Existing Instance DbQueryFacts.null_cursor.

(** A heap with the caller's dictionary at address 1. *)
Definition example_callers_heap : heap (table unit) :=
  Heap [∅; {[ "select 1" := Table ["x"] [] ]}] [].

Lemma constructor_cache_is_the_callers_dictionary_witness :
  exists h1 o,
    init_cache true (RefDict 1%nat) example_callers_heap = (h1, o)
    /\ wf h1 /\ dicts h1 = dicts example_callers_heap
    /\ cache (MkDBQuery None false None (Some "select 1") false
                (Some [["select 1"]]) tt None None
                (Some {[ "select 1" := Table ["x"] [] ]}))
       = o ≫= content h1
    /\ (o ≫= (objects h1 !!.))
       = written_dict true (RefDict 1%nat) example_callers_heap.
Proof.
  apply (constructor_cache_is_the_callers_dictionary ∅ "/home"
           (fun a b => a +:+ "/" +:+ b) example_callers_heap (RefDict 1%nat)
           ∅ tt None (Some "select 1") None None false None true None).
  - split; [vm_compute; lia|constructor].
  - vm_compute. lia.
  - reflexivity.
  - vm_compute. reflexivity.
Defined.

End DbQueryCacheFacts.

(** ** Properties of [utils/db_connection.py] *)

Module DbConnectionFacts.
Import DbConnection.

Section DBConnection.

Context {jvalue connection cursor world : Type}.
Variable open_ : string -> result string.
Variable json_load : string -> result (json jvalue).
Variable cwd : string.
Variable path_join : string -> string -> string.
Variable format : jvalue -> string.
Variable cx_connect :
  world -> jvalue -> jvalue -> string -> world * result connection.
Variable conn_cursor : world -> connection -> world * result cursor.
Variable conn_close : world -> connection -> world * result unit.

Local Abbreviation init := (init (connection := connection) open_ json_load
                              cwd path_join).
Local Abbreviation load_config := (load_config open_ json_load).
Local Abbreviation connect := (connect format cx_connect).
Local Abbreviation get_cursor := (get_cursor format cx_connect conn_cursor).
Local Abbreviation disconnect := (disconnect (jvalue := jvalue) conn_close).

(** The object for a configuration. *)
Definition fresh (root : option string) (c : result (json jvalue))
    : result (DBConnection jvalue connection) :=
  c ← c; Ok (MkDBConnection root c None).

Lemma init_unfold (f : string) (root : option string) :
  init f root
  = match load_config (match root with
                       | None => path_join cwd f
                       | Some r => path_join r f
                       end) with
    | Raise FileNotFoundError => fresh root (load_config f)
    | r => fresh root r
    end.
Proof.
  unfold DbConnection.init, fresh.
  destruct (DbConnection.load_config _ _ _) as [c|[]]; done.
Qed.

(** X13. The second attempt of the constructor serves a [root_folder]
    only. Provided that [json.load] does not raise [FileNotFoundError], and
    that [open] takes a relative path from the working directory: without a
    root folder the constructor answers as one reading of [config_file]
    does, a missing file included; with a root folder it takes the file
    under the root folder when that can be opened, and when there is none,
    it silently takes [config_file] from the working directory, answering as
    the constructor without a root folder does. *)
Theorem config_fallback_serves_root_folder (f r : string) :
  (forall txt, json_load txt <> Raise FileNotFoundError) ->
  open_ (path_join cwd f) = open_ f ->
  init f None = fresh None (load_config f)
  /\ (open_ (path_join r f) <> Raise FileNotFoundError ->
      init f (Some r) = fresh (Some r) (load_config (path_join r f)))
  /\ (open_ (path_join r f) = Raise FileNotFoundError ->
      init f (Some r)
      = (fun o => MkDBConnection (Some r) (config o) (connection_of o))
        <$> init f None).
Proof.
  intros Hjson Hrel.
  assert (forall p, open_ p <> Raise FileNotFoundError ->
            load_config p <> Raise FileNotFoundError) as Hload.
  { intros p Hp. unfold DbConnection.load_config.
    destruct (open_ p) as [txt|e]; simpl; [apply Hjson|congruence]. }
  assert (load_config (path_join cwd f) = load_config f) as Hsame
    by (unfold DbConnection.load_config; by rewrite Hrel).
  assert (init f None = fresh None (load_config f)) as Hnone.
  { rewrite init_unfold, Hsame. by destruct (load_config f) as [c|[]]. }
  split_and!; [done| |].
  - intros Hopen%Hload. rewrite init_unfold.
    by destruct (load_config (path_join r f)) as [c|[]].
  - intros Hopen. rewrite Hnone, init_unfold.
    unfold DbConnection.load_config at 1. rewrite Hopen. simpl.
    unfold fresh. by destruct (load_config f).
Qed.

Definition keys : list string := ["host"; "port"; "service"; "user"; "pass"].

Lemma connect_args_KeyError (m : gmap string jvalue) :
  Exists (fun k => m !! k = None) keys ->
  connect_args format (JObject m) = Raise KeyError.
Proof.
  unfold keys, connect_args. rewrite !Exists_cons, Exists_nil. simpl.
  intros H.
  repeat match goal with
         | |- context [m !! ?k] =>
             destruct (m !! k) eqn:?; simpl; [|done]
         end.
  destruct H as [H|[H|[H|[H|[H|[]]]]]]; congruence.
Qed.

Lemma connect_args_Ok (m : gmap string jvalue) :
  Forall (fun k => is_Some (m !! k)) keys ->
  exists host port service user pass,
    m !! "host" = Some host /\ m !! "port" = Some port
    /\ m !! "service" = Some service /\ m !! "user" = Some user
    /\ m !! "pass" = Some pass
    /\ connect_args format (JObject m)
       = Ok (user, pass, dsn_of format host port service).
Proof.
  unfold keys, connect_args. rewrite !Forall_cons. simpl.
  intros ([host Hh] & [port Hp] & [service Hs] & [user Hu] & [pass Hpw] & _).
  exists host, port, service, user, pass. rewrite Hh, Hp, Hs, Hu, Hpw. done.
Qed.

(** X14. [connect] reads five entries of the configuration before it
    calls [cx_Oracle.connect]. With one of them missing it raises
    [KeyError], no connection is asked for and the object is unchanged; with
    all five it asks for one connection, with the user, the password and the
    descriptor made of host, port and service, and stores the connection
    that it gets; when the request fails the object is unchanged. *)
Theorem connect_reads_config_first (self : DBConnection jvalue connection)
    (m : gmap string jvalue) (w : world) :
  config self = JObject m ->
  (Exists (fun k => m !! k = None) keys ->
     connect self w = (w, self, Raise KeyError))
  /\ (Forall (fun k => is_Some (m !! k)) keys ->
      exists host port service user pass,
        m !! "host" = Some host /\ m !! "port" = Some port
        /\ m !! "service" = Some service /\ m !! "user" = Some user
        /\ m !! "pass" = Some pass
        /\ connect self w
           = match cx_connect w user pass (dsn_of format host port service)
             with
             | (w', Ok c) => (w', set_connection self (Some c), Ok c)
             | (w', Raise e) => (w', self, Raise e)
             end).
Proof.
  intros Hm. unfold DbConnection.connect. rewrite Hm. split.
  - intros H. by rewrite connect_args_KeyError.
  - intros (host & port & service & user & pass & Hh & Hp & Hs & Hu & Hpw
            & ->)%connect_args_Ok.
    by exists host, port, service, user, pass.
Qed.

Lemma connect_Ok (self self1 : DBConnection jvalue connection) (w w1 : world)
    (c : connection) :
  connect self w = (w1, self1, Ok c) -> self1 = set_connection self (Some c).
Proof.
  unfold DbConnection.connect.
  destruct (connect_args _ _) as [[[user pass] dsn]|]; [|done].
  destruct (cx_connect w user pass dsn) as [w' [c'|]]; [|done].
  by intros [= <- <- <-].
Qed.

(** X15. [get_cursor] connects at most once: after a call that returned a
    cursor the object holds a connection, with the configuration and the
    root folder as they were, and every later call only asks that connection
    for a cursor, whether or not that succeeds. *)
Theorem get_cursor_connects_once (self self1 : DBConnection jvalue connection)
    (w w1 : world) (cur : cursor) :
  get_cursor self w = (w1, self1, Ok cur) ->
  exists c,
    connection_of self1 = Some c
    /\ config self1 = config self /\ root_folder self1 = root_folder self
    /\ (forall c0, connection_of self = Some c0 -> c = c0)
    /\ forall w2,
         get_cursor self1 w2
         = let '(w3, r) := conn_cursor w2 c in (w3, self1, r).
Proof.
  unfold DbConnection.get_cursor at 1.
  destruct (connection_of self) as [c0|] eqn:Hc0.
  - destruct (conn_cursor w c0) as [w' r]. intros [= <- <- ->].
    exists c0. split_and!; [done..|by intros ? [= ->]|].
    intros w2. unfold DbConnection.get_cursor. by rewrite Hc0.
  - destruct (connect self w) as [[w' self'] [c|]] eqn:Hcon; [|done].
    apply connect_Ok in Hcon as ->.
    destruct (conn_cursor w' c) as [w'' r]. intros [= <- <- ->].
    exists c. split_and!; [done..|].
    intros w2. by unfold DbConnection.get_cursor.
Qed.

(** X16. [disconnect] needs a connection: on the object that the
    constructor returns it raises [AttributeError] and changes nothing; on
    an object with a connection it closes that connection, and the object
    has no connection afterwards when that succeeded and keeps it when it
    failed. *)
Theorem disconnect_needs_a_connection (f : string) (root : option string)
    (self : DBConnection jvalue connection) (w : world) :
  init f root = Ok self ->
  disconnect self w = (w, self, Raise AttributeError)
  /\ forall c,
       disconnect (set_connection self (Some c)) w
       = match conn_close w c with
         | (w', Ok _) => (w', self, Ok tt)
         | (w', Raise e) => (w', set_connection self (Some c), Raise e)
         end.
Proof.
  intros Hinit.
  assert (connection_of self = None) as Hnone.
  { rewrite init_unfold in Hinit. unfold fresh in Hinit.
    destruct (load_config _) as [c|[]]; simpl in Hinit; simplify_eq/=;
      try done.
    destruct (load_config f); by simplify_eq/=. }
  split.
  - unfold DbConnection.disconnect. by rewrite Hnone.
  - intros c. unfold DbConnection.disconnect. simpl.
    destruct (conn_close w c) as [w' [[]|e]]; [|done].
    destruct self. simpl in *. by subst.
Qed.

End DBConnection.

(** *** A concrete environment, for the examples *)

(** One configuration file, in the working directory; connections are
    numbered, and the world is the list of the descriptors connected to. *)
Definition example_cwd : string := "/home".

Definition example_join (a b : string) : string := a +:+ "/" +:+ b.

Definition example_open (p : string) : result string :=
  if bool_decide (p = "db.conf" \/ p = "/home/db.conf") then Ok "{}"
  else Raise FileNotFoundError.

Definition example_config : gmap string string :=
  {[ "host" := "db"; "port" := "1521"; "service" := "orcl";
     "user" := "scott"; "pass" := "tiger" ]}.

Definition example_json (txt : string) : result (json string) :=
  Ok (JObject example_config).

Definition example_format (v : string) : string := v.

Definition example_connect (w : list string) (user pass dsn : string)
    : list string * result nat :=
  (w ++ [dsn], Ok (length w)).

Definition example_cursor (w : list string) (c : nat)
    : list string * result nat :=
  (w, Ok c).

Definition example_close (w : list string) (c : nat)
    : list string * result unit :=
  (w, Ok tt).

Definition example_handler : DBConnection string nat :=
  MkDBConnection None (JObject example_config) None.

Lemma config_fallback_serves_root_folder_witness :
  init example_open example_json example_cwd example_join "db.conf" None
  = fresh (connection := nat) None
      (load_config example_open example_json "db.conf")
  /\ (example_open (example_join "/work" "db.conf")
        <> Raise FileNotFoundError ->
      init example_open example_json example_cwd example_join "db.conf"
        (Some "/work")
      = fresh (connection := nat) (Some "/work")
          (load_config example_open example_json
             (example_join "/work" "db.conf")))
  /\ (example_open (example_join "/work" "db.conf")
        = Raise FileNotFoundError ->
      init example_open example_json example_cwd example_join "db.conf"
        (Some "/work")
      = (fun o : DBConnection string nat =>
           MkDBConnection (Some "/work") (config o) (connection_of o))
        <$> init example_open example_json example_cwd example_join
              "db.conf" None).
Proof.
  apply (config_fallback_serves_root_folder (connection := nat) example_open
           example_json example_cwd example_join "db.conf" "/work").
  - intros txt. discriminate.
  - vm_compute. reflexivity.
Defined.

(** With a root folder that has no configuration file, the file of the
    working directory is taken. *)
Example example_fallback :
  init example_open example_json example_cwd example_join "db.conf"
    (Some "/work")
  = Ok (MkDBConnection (connection := nat) (Some "/work")
          (JObject example_config) None).
Proof. vm_compute. reflexivity. Qed.

Lemma connect_reads_config_first_witness :
  (Exists (fun k => example_config !! k = None) keys ->
     connect example_format example_connect example_handler []
     = ([], example_handler, Raise KeyError))
  /\ (Forall (fun k => is_Some (example_config !! k)) keys ->
      exists host port service user pass,
        example_config !! "host" = Some host
        /\ example_config !! "port" = Some port
        /\ example_config !! "service" = Some service
        /\ example_config !! "user" = Some user
        /\ example_config !! "pass" = Some pass
        /\ connect example_format example_connect example_handler []
           = match example_connect [] user pass
                     (dsn_of example_format host port service) with
             | (w', Ok c) =>
                 (w', set_connection example_handler (Some c), Ok c)
             | (w', Raise e) => (w', example_handler, Raise e)
             end).
Proof.
  apply (connect_reads_config_first example_format example_connect example_handler
           example_config []).
  reflexivity.
Defined.

Example example_connect_incomplete :
  connect example_format example_connect
    (MkDBConnection None (JObject (delete "pass" example_config)) None) []
  = ([], MkDBConnection None (JObject (delete "pass" example_config)) None,
     Raise KeyError).
Proof. vm_compute. reflexivity. Qed.

Definition example_connected : DBConnection string nat :=
  set_connection example_handler (Some 0%nat).

Lemma get_cursor_connects_once_witness :
  exists c,
    connection_of example_connected = Some c
    /\ config example_connected = config example_handler
    /\ root_folder example_connected = root_folder example_handler
    /\ (forall c0, connection_of example_handler = Some c0 -> c = c0)
    /\ forall w2,
         get_cursor example_format example_connect example_cursor example_connected w2
         = let '(w3, r) := example_cursor w2 c in (w3, example_connected, r).
Proof.
  apply (get_cursor_connects_once example_format example_connect example_cursor
           example_handler example_connected []
           [dsn_of example_format "db" "1521" "orcl"] 0%nat).
  vm_compute. reflexivity.
Defined.

Lemma disconnect_needs_a_connection_witness :
  disconnect example_close example_handler []
  = ([], example_handler, Raise AttributeError)
  /\ forall c,
       disconnect example_close (set_connection example_handler (Some c)) []
       = match example_close [] c with
         | (w', Ok _) => (w', example_handler, Ok tt)
         | (w', Raise e) =>
             (w', set_connection example_handler (Some c), Raise e)
         end.
Proof.
  apply (disconnect_needs_a_connection example_open example_json example_cwd
           example_join example_close "db.conf" None example_handler []).
  vm_compute. reflexivity.
Defined.

End DbConnectionFacts.

(** ** Properties of [notebooks/SELECT.py] *)

Module SelectFacts.
Import DbQueryUtils DbQueryFacts DbQueryExtra Select.

Section extract_table.

Context {cursor value : Type} `{!CursorAPI cursor value}.
Context {jvalue connection world : Type}.
Variable open_ : string -> result string.
Variable json_load : string -> result (DbConnection.json jvalue).
Variable cwd : string.
Variable path_join : string -> string -> string.
Variable format : jvalue -> string.
Variable cx_connect :
  world -> jvalue -> jvalue -> string -> world * result connection.
Variable conn_cursor : world -> connection -> world * result cursor.
Variable fs : gmap string string.

Local Abbreviation extract_table :=
  (extract_table jvalue connection world open_ json_load cwd path_join format
     cx_connect conn_cursor fs).

(** The file that [extract_table] reads the query from. *)
Definition query_path (query_name : string) : string :=
  path_join (path_join case_folder "queries") query_name.

(** The query object of [extract_table], before it runs. *)
Lemma init_for_extract_table (dc : gmap string (table value)) (cur : cursor)
    (query_name : string) :
  init fs cwd path_join dc cur (Some query_name) None (Some "queries")
    (Some case_folder) false None true OldNone None
  = match fs !! query_path query_name with
    | Some txt =>
        Ok (MkDBQuery (Some case_folder) true (Some (query_path query_name))
              None false (Some [[txt]]) cur None None (Some dc))
    | None => Raise FileNotFoundError
    end.
Proof.
  unfold init, populate_query, load_lines, query_path. simpl.
  destruct (fs !! _) as [txt|]; simpl; [|done].
  by rewrite str_join_readlines.
Qed.

(** The query object of [extract_table], before it runs. *)
Definition query_object (dc : gmap string (table value)) (cur : cursor)
    (query_name txt : string) : DBQuery cursor value :=
  MkDBQuery (Some case_folder) true (Some (query_path query_name)) None false
    (Some [[txt]]) cur None None (Some dc).

(** X17. When the configuration is read and the connection gives a
    cursor, [extract_table] has connected before it looks for the query
    file: with no file [queries/query_name] under the case folder it raises
    [FileNotFoundError] with the connection made and left open. With the
    file, and a table for its whole text in the default dictionary of the
    cache, it returns that one table and does not use the cursor; and
    otherwise what it returns is a list of one table, and the table is in
    that dictionary afterwards, under the text of the file. *)
Theorem extract_table_after_connecting (dc : gmap string (table value))
    (query_name : string) (w w1 : world)
    (h h1 : DbConnection.DBConnection jvalue connection) (cur : cursor) :
  DbConnection.init open_ json_load cwd path_join "db.conf.sample"
    (Some case_folder) = Ok h ->
  DbConnection.get_cursor format cx_connect conn_cursor h w
    = (w1, h1, Ok cur) ->
  match fs !! query_path query_name with
  | None => extract_table dc query_name w = (w1, Raise FileNotFoundError)
  | Some txt =>
      match dc !! txt with
      | Some t =>
          extract_table dc query_name w
          = (w1, Ok (query_object dc cur query_name txt, [t]))
      | None =>
          forall s rs,
            extract_table dc query_name w = (w1, Ok (s, rs)) ->
            exists t cur',
              rs = [t]
              /\ s = set_cursor_cache (query_object dc cur query_name txt)
                       cur' (Some (<[txt := t]> dc))
      end
  end.
Proof.
  intros Hinit Hcur. unfold Select.extract_table.
  rewrite Hinit, Hcur, init_for_extract_table.
  destruct (fs !! query_path query_name) as [txt|] eqn:Hfile; [|done].
  fold (query_object dc cur query_name txt).
  assert (populate_query fs (query_object dc cur query_name txt)
          = Ok (query_object dc cur query_name txt)) as Hp.
  { unfold populate_query, load_lines. simpl. rewrite Hfile. simpl.
    by rewrite str_join_readlines. }
  cbn [mbind result_bind]. unfold run. rewrite Hp.
  cbn [mbind result_bind qry query_object default].
  change (concat (Datatypes.id [[txt]])) with [txt].
  cbn [run_steps limit].
  destruct (dc !! txt) as [t|] eqn:Ht.
  - by rewrite (run_query_step_hit (query_object dc cur query_name txt) dc
                  txt t).
  - intros s rs.
    match goal with |- context [mbind _ ?m] =>
      destruct m as [[s1 t]|] eqn:Hstep end; simpl;
      [|intros Hrun; inversion Hrun].
    intros [= <- <-].
    exists t. revert Hstep.
    unfold run_query_step, cache_get, cache_put. simpl. rewrite Ht.
    destruct (execute _ _) as [cur1|]; simpl; [|done].
    destruct (description cur1) as [cols|]; simpl; [|done].
    destruct (fetchall cur1) as [cur2 data]. intros [= <- <-].
    by exists cur2.
Qed.

End extract_table.

(** *** A concrete call *)

#[local] Existing Instance null_cursor.

Definition example_any_file (p : string) : result string := Ok "{}".

Definition example_unit_cursor (w : list string) (c : nat)
    : list string * result unit :=
  (w, Ok tt).

Definition example_queries : gmap string string :=
  {[ query_path DbConnectionFacts.example_join "report.sql"
     := "select 1 from dual" ]}.

Definition example_default_cache : gmap string (table unit) :=
  {[ "select 1 from dual" := Table ["x"] [[tt]] ]}.

Lemma extract_table_after_connecting_witness :
  extract_table string nat (list string) example_any_file
    DbConnectionFacts.example_json DbConnectionFacts.example_cwd
    DbConnectionFacts.example_join DbConnectionFacts.example_format
    DbConnectionFacts.example_connect example_unit_cursor example_queries
    example_default_cache "report.sql" []
  = ([DbConnection.dsn_of DbConnectionFacts.example_format "db" "1521" "orcl"],
     Ok (query_object DbConnectionFacts.example_join example_default_cache tt
           "report.sql" "select 1 from dual", [Table ["x"] [[tt]]])).
Proof.
  exact (extract_table_after_connecting example_any_file
           DbConnectionFacts.example_json DbConnectionFacts.example_cwd
           DbConnectionFacts.example_join DbConnectionFacts.example_format
           DbConnectionFacts.example_connect example_unit_cursor example_queries
           example_default_cache "report.sql" [] [DbConnection.dsn_of DbConnectionFacts.example_format "db" "1521" "orcl"]
           (DbConnection.MkDBConnection (Some case_folder)
              (DbConnection.JObject DbConnectionFacts.example_config) None)
           (DbConnection.MkDBConnection (Some case_folder)
              (DbConnection.JObject DbConnectionFacts.example_config)
              (Some 0%nat))
           tt eq_refl eq_refl).
Defined.

(** The query file is missing: the connection has been made. *)
Example example_missing_query :
  extract_table string nat (list string) example_any_file
    DbConnectionFacts.example_json DbConnectionFacts.example_cwd
    DbConnectionFacts.example_join DbConnectionFacts.example_format
    DbConnectionFacts.example_connect example_unit_cursor example_queries
    (∅ : gmap string (table unit)) "other.sql" []
  = ([DbConnection.dsn_of DbConnectionFacts.example_format "db" "1521" "orcl"], Raise FileNotFoundError).
Proof. vm_compute. reflexivity. Qed.

End SelectFacts.

(** ** Further properties of [utils/power_analysis.py] *)

Module PowerExtra.
Import PowerAnalysis PyFacts PowerFacts.

(** *** The scan over effects, for every arithmetic *)

Section effects.

Context {F : Type} {arithmetic : Numbers F}.
Variable np_arange : F -> F -> F -> result (list F).
Variables (p_A : F) (nobs_A : Z) (nobs_B : option Z) (two_sided : bool)
  (sig min_power : F).

Local Abbreviation calculate_min_detect_effect :=
  (calculate_min_detect_effect np_arange).

(** The effect [e] is evaluated and found significant, or not. *)
Definition detectable (e : F) : Prop :=
  exists p pw,
    get_p_val_and_power nobs_A p_A e nobs_B two_sided sig min_power
    = Ok (p, pw, true)
    /\ ge pw min_power = Ok true /\ le p sig = Ok true.

Definition undetectable (e : F) : Prop :=
  exists p pw,
    get_p_val_and_power nobs_A p_A e nobs_B two_sided sig min_power
    = Ok (p, pw, false)
    /\ ~ (ge pw min_power = Ok true /\ le p sig = Ok true).

Lemma scan_effects_found (candidates : list F) (e : F) :
  scan_effects candidates p_A nobs_A nobs_B two_sided sig min_power
  = Ok (Some e) ->
  exists pre post,
    candidates = pre ++ e :: post /\ detectable e /\ Forall undetectable pre.
Proof.
  induction candidates as [|c cs IH]; simpl; [done|].
  destruct (get_p_val_and_power nobs_A p_A c _ _ _ _) as [[[p pw] b]|] eqn:He;
    simpl; [|done].
  pose proof (significant_flag _ _ _ _ _ _ _ _ _ _ He) as Hb.
  destruct b.
  - intros [= ->]. exists [], cs. split_and!; [done| |done].
    exists p, pw. by split; [|apply Hb].
  - intros (pre & post & -> & Hq & Hpre)%IH.
    exists (c :: pre), post. split_and!; [done..|].
    constructor; [|done]. exists p, pw. split; [done|].
    intros Hs. by apply Hb in Hs.
Qed.

Lemma scan_effects_first (pre post : list F) (e : F) :
  Forall undetectable pre -> detectable e ->
  scan_effects (pre ++ e :: post) p_A nobs_A nobs_B two_sided sig min_power
  = Ok (Some e).
Proof.
  intros Hpre (p & pw & He & _).
  induction Hpre as [|c cs (p' & pw' & He' & _) _ IH]; simpl.
  - by rewrite He.
  - by rewrite He'.
Qed.

Lemma scan_effects_none (candidates : list F) :
  Forall undetectable candidates ->
  scan_effects candidates p_A nobs_A nobs_B two_sided sig min_power = Ok None.
Proof.
  induction 1 as [|c cs (p & pw & He & _) _ IH]; simpl; [done|].
  by rewrite He.
Qed.

(** X30. [calculate_min_detect_effect] answers with the first effect, in
    the order of [np.arange(step_size, max_effect_tested + step_size,
    step_size)], whose power reaches [min_power] with a p-value of at most
    the significance threshold, the effects in front of it having been
    evaluated and found short of that: an effect that it returns is such a
    first one, such a first one is returned, and when every effect falls
    short the answer is [None]. This holds for every arithmetic and whatever
    [np.arange] gives. *)
Theorem min_detect_effect_is_first_candidate (step_size max_effect_tested : F) :
  (forall e : F,
      calculate_min_detect_effect p_A nobs_A nobs_B step_size
        max_effect_tested two_sided sig min_power = Ok (Some e) ->
      exists stop pre post,
        add max_effect_tested step_size = Ok stop
        /\ np_arange step_size stop step_size = Ok (pre ++ e :: post)
        /\ detectable e /\ Forall undetectable pre)
  /\ (forall (stop : F) (pre post : list F) (e : F),
        add max_effect_tested step_size = Ok stop ->
        np_arange step_size stop step_size = Ok (pre ++ e :: post) ->
        Forall undetectable pre -> detectable e ->
        calculate_min_detect_effect p_A nobs_A nobs_B step_size
          max_effect_tested two_sided sig min_power = Ok (Some e))
  /\ (forall (stop : F) (candidates : list F),
        add max_effect_tested step_size = Ok stop ->
        np_arange step_size stop step_size = Ok candidates ->
        Forall undetectable candidates ->
        calculate_min_detect_effect p_A nobs_A nobs_B step_size
          max_effect_tested two_sided sig min_power = Ok None).
Proof.
  unfold PowerAnalysis.calculate_min_detect_effect. split_and!.
  - intros e.
    destruct (add max_effect_tested step_size) as [stop|]; simpl; [|done].
    destruct (np_arange step_size stop step_size) as [cands|] eqn:Hr; simpl;
      [|done].
    intros (pre & post & -> & He & Hpre)%scan_effects_found.
    by exists stop, pre, post.
  - intros stop pre post e -> Hr Hpre He. simpl. rewrite Hr. simpl.
    by apply scan_effects_first.
  - intros stop candidates -> Hr Hall. simpl. rewrite Hr. simpl.
    by apply scan_effects_none.
Qed.

End effects.

Local Open Scope R_scope.

Section scipy.

Variables norm_sf norm_isf : R -> R.

Local Abbreviation reals := (exact norm_sf norm_isf).
Local Abbreviation get_p_val_and_power :=
  (get_p_val_and_power (arithmetic := reals)).
Local Abbreviation calculate_min_sample_size :=
  (calculate_min_sample_size (arithmetic := reals)).

(** X22. The bounds of the search: a step of zero raises [ValueError]; a
    positive step that is not below [max_feasible_observations] leaves
    nothing to try, and the answer is [None]; and a group of size zero
    cannot be evaluated: [get_p_val_and_power] raises
    [ZeroDivisionError]. *)
Theorem min_sample_size_bounds (p_A mde sig min_power : R) (two_sided : bool)
    (step_size max_feasible : Z) (nobs_B : option Z) :
  calculate_min_sample_size p_A mde 0 max_feasible two_sided sig min_power
    = Raise ValueError
  /\ ((0 < step_size)%Z -> (max_feasible <= step_size)%Z ->
      calculate_min_sample_size p_A mde step_size max_feasible two_sided sig
        min_power = Ok None)
  /\ get_p_val_and_power 0 p_A mde nobs_B two_sided sig min_power
     = Raise ZeroDivisionError.
Proof.
  split_and!.
  - apply zero_step_raises.
  - apply nothing_to_try.
  - unfold PowerAnalysis.get_p_val_and_power.
    cbn [add exact mbind result_bind].
    rewrite significance_exact. cbn [mbind result_bind].
    unfold PowerAnalysis.standard_error.
    pose proof small_int_converts.
    rewrite (of_int_exact _ _ 1) by (simpl; lia).
    cbn [mbind result_bind sub mul exact].
    rewrite (of_int_exact _ _ 0) by (simpl; lia).
    cbn [mbind result_bind div exact].
    by rewrite decide_True.
Qed.

End scipy.

End PowerExtra.

(** ** Further properties of [utils/stratified_sampling.py] *)

Module StratifiedExtra.
Import StratifiedSampling PyFacts StratifiedFacts.

(** *** Counting the rows of a stratum by their label *)

Lemma sum_list_at_least (q : nat) (l : list nat) :
  Forall (fun a => (q <= a)%nat) l -> (q * length l <= sum_list l)%nat.
Proof.
  induction 1 as [|a l Ha _ IH]; simpl; [lia|].
  rewrite Nat.mul_succ_r. lia.
Qed.

(** Numbers that are at least [q] and add up to [q] times their count are
    all [q]. *)
Lemma sum_list_all_equal (q : nat) (l : list nat) :
  Forall (fun a => (q <= a)%nat) l -> sum_list l = (q * length l)%nat ->
  Forall (fun a => a = q) l.
Proof.
  induction 1 as [|a l Ha Hl IH]; simpl; [constructor|].
  rewrite Nat.mul_succ_r. intros Hsum.
  pose proof (sum_list_at_least q l Hl).
  constructor; [lia|]. apply IH. lia.
Qed.

Section shares.

Context {raw : Type} {K : Type} `{EqDecision K}.
Variable key : nat -> K.
Variable N : nat.

(** When every row has a label below [n], the rows of a stratum are the
    rows of its shares of the groups, taken together. *)
Lemma shares_add_up (g : list (cell raw)) (n : nat) (s : K) :
  (forall p : nat, (p < N)%nat ->
     exists j, 0 <= j < Z.of_nat n /\ g !! p = Some (CInt j)) ->
  sum_list (map (fun j : nat =>
                   length (in_stratum key s (group_rows N g (Z.of_nat j))))
              (seq 0 n))
  = length (in_stratum key s (seq 0 N)).
Proof.
  intros Hlab.
  set (rows := in_stratum key s (seq 0 N)).
  set (lab := fun p : nat => label_of (cell_of g p)).
  set (ks := map (fun j : nat => Some (Z.of_nat j)) (seq 0 n)).
  assert (NoDup ks) as Hnd.
  { apply (NoDup_fmap_2 _), NoDup_seq. }
  assert (forall p, p ∈ rows -> lab p ∈ ks) as Hcov.
  { intros p [_ Hp%elem_of_seq]%list_elem_of_filter.
    destruct (Hlab p ltac:(lia)) as (j & Hj & Hg).
    unfold lab, cell_of. rewrite Hg. simpl.
    apply list_elem_of_fmap. exists (Z.to_nat j).
    split; [f_equal; lia|]. apply elem_of_seq. lia. }
  pose proof (partition_by_key lab ks rows Hnd Hcov) as Hperm.
  apply Permutation_length in Hperm. rewrite <- Hperm.
  rewrite length_concat. f_equal. unfold ks.
  change (map ?f ?l) with (f <$> l). rewrite <- !list_fmap_compose.
  apply list_fmap_ext. intros _ j _. simpl. f_equal.
  unfold in_stratum, rows, in_stratum, group_rows.
  rewrite !list_filter_filter. apply list_filter_iff. intros p. tauto.
Qed.

End shares.

Section run.

Context {raw : Type}.
Variable qcut : list (cell raw) -> Z -> result (list (cell raw)).
Variable astype_str : cell raw -> option string.
Variable round_frac : nat -> Z -> nat.

Local Abbreviation transform_column := (transform_column qcut astype_str).
Local Abbreviation transform_columns := (transform_columns qcut astype_str).
Local Abbreviation stratify_and_check := (stratify_and_check qcut astype_str).
Local Abbreviation proportional_stratified_sample :=
  (proportional_stratified_sample qcut astype_str round_frac).
Local Abbreviation row_key := (row_key astype_str).
Local Abbreviation stratify_name := (fun col : string => col +:+ "_stratify").

Implicit Types (st : state raw) (f : DataFrame raw) (df : nat).

(** *** The ways not to return *)

(** X23. A frame that has a [group] column already is refused at once:
    [AssertionError], with no object changed, whatever the other arguments
    are. *)
Theorem existing_group_column_is_refused st df f (cols : list string)
    (n buckets : Z) :
  heap st !! df = Some f -> "group" ∈ column_names f ->
  proportional_stratified_sample df cols n buckets st
  = (st, Raise AssertionError).
Proof.
  intros Hf Hg. unfold StratifiedSampling.proportional_stratified_sample.
  apply bind_Raise. unfold StratifiedSampling.stratify_and_check.
  rewrite (bind_Ok _ _ _ _ _ (load_Ok _ _ _ Hf)).
  apply bind_Raise. unfold lift.
  by rewrite bool_decide_eq_false_2 by (by intros ?).
Qed.

(** The frame at [df] after the first half has as many rows as before. *)
Lemma stratify_and_check_rows st df f (cols : list string) (n buckets : Z) st1
    (tcols : list string) :
  heap st !! df = Some f ->
  stratify_and_check df cols n buckets st = (st1, Ok tcols) ->
  exists f1 counts,
    heap st1 !! df = Some f1 /\ nrows f1 = nrows f
    /\ value_counts astype_str f1 tcols = Ok counts
    /\ min_at_least counts.*2 n = true
    /\ nrows f1 <> 0%nat.
Proof.
  intros Hf Hcheck.
  destruct (stratify_and_check_Ok _ _ _ _ _ _ _ _ _ Hcheck)
    as (f0 & f1 & counts & Hf0 & _ & _ & _ & Hadds & Hf1 & Hv & Hmin).
  rewrite Hf in Hf0. injection Hf0 as <-.
  destruct Hadds as (_ & _ & _ & Hdf).
  destruct (Hdf f Hf) as (f1' & Hf1' & Hrows & _).
  rewrite Hf1 in Hf1'. injection Hf1' as <-.
  exists f1, counts. split_and!; [done..|].
  destruct (value_counts_spec _ _ _ _ Hv) as [_ Hnil].
  intros HN. apply Hnil in HN. subst counts. done.
Qed.

(** X24. With fewer than one group asked for, the function never returns
    a frame: it ends with an exception whatever the frame is, and when the
    first half passes, the exception is the [AssertionError] of the last
    check, raised after the loop that had no turn. *)
Theorem fewer_than_one_group_never_returns st df (cols : list string)
    (n buckets : Z) st' (r : result nat) :
  n < 1 ->
  proportional_stratified_sample df cols n buckets st = (st', r) ->
  exists e,
    r = Raise e
    /\ forall st1 tcols,
         stratify_and_check df cols n buckets st = (st1, Ok tcols) ->
         e = AssertionError.
Proof.
  intros Hn. unfold StratifiedSampling.proportional_stratified_sample.
  destruct (stratify_and_check df cols n buckets st) as [st1 [tcols|e]]
    eqn:Hcheck.
  - rewrite (bind_Ok _ _ _ _ _ Hcheck).
    destruct (stratify_and_check_Ok _ _ _ _ _ _ _ _ _ Hcheck)
      as (f & _ & _ & Hf & _).
    destruct (stratify_and_check_rows _ _ _ _ _ _ _ _ Hf Hcheck)
      as (f1 & counts & Hf1 & _ & _ & _ & HN).
    destruct (split_into_groups_nonpos astype_str round_frac st1 df f1 tcols n
                Hn Hf1 HN) as (st'' & ->).
    intros [= <- <-]. by exists AssertionError.
  - rewrite (bind_Raise _ _ _ _ _ Hcheck). intros [= <- <-].
    by exists e.
Qed.

(** X25. A frame without rows is never split: the function ends with an
    exception for every number of groups, the bucket size check having no
    stratum to count. *)
Theorem empty_frame_never_returns st df f (cols : list string)
    (n buckets : Z) st' (r : result nat) :
  heap st !! df = Some f -> nrows f = 0%nat ->
  proportional_stratified_sample df cols n buckets st = (st', r) ->
  exists e, r = Raise e.
Proof.
  intros Hf HN Hrun. destruct r as [out|e]; [exfalso|by exists e].
  unfold StratifiedSampling.proportional_stratified_sample in Hrun.
  apply bind_Ok_inv in Hrun as (st1 & tcols & Hcheck & _).
  destruct (stratify_and_check_rows _ _ _ _ _ _ _ _ Hf Hcheck)
    as (f1 & counts & _ & Hrows & _ & _ & HN1).
  congruence.
Qed.

(** *** A stratifying column that the frame does not have *)

Lemma transform_column_missing st df f (col : string) (buckets : Z) :
  heap st !! df = Some f -> get_column f col = None ->
  transform_column df col buckets st = (st, Raise KeyError).
Proof.
  intros Hf Hc. unfold StratifiedSampling.transform_column.
  rewrite (bind_Ok _ _ _ _ _ (load_Ok _ _ _ Hf)).
  apply bind_Raise. unfold lookup_column, lift. by rewrite Hc.
Qed.

Lemma transform_columns_then_raise (pre post : list string) (col : string)
    (buckets : Z) st df st1 (names : list string) (e : exn) :
  transform_columns df pre buckets st = (st1, Ok names) ->
  transform_column df col buckets st1 = (st1, Raise e) ->
  transform_columns df (pre ++ col :: post) buckets st = (st1, Raise e).
Proof.
  revert st names. induction pre as [|c pre IH]; intros st names.
  - intros [= <- <-] Hcol. simpl. by apply bind_Raise.
  - cbn [StratifiedSampling.transform_columns app].
    intros (st2 & name & Hc & Hrest)%bind_Ok_inv Hcol.
    apply bind_Ok_inv in Hrest as (st3 & names' & Hpre & Hret).
    unfold mret, M_ret in Hret. injection Hret as <- <-.
    rewrite (bind_Ok _ _ _ _ _ Hc). apply bind_Raise. by eapply IH.
Qed.

(** X26. A stratifying column that the frame does not have raises
    [KeyError] when its turn comes, and not before: the string columns of
    the stratifying columns in front of it have been added to the caller's
    frame by then, and they stay. *)
Theorem missing_column_raises_after_adding st df f (pre post : list string)
    (col : string) (n buckets : Z) st1 (names : list string) :
  heap st !! df = Some f -> "group" ∉ column_names f ->
  transform_columns df pre buckets st = (st1, Ok names) ->
  col ∉ column_names f -> col ∉ names ->
  proportional_stratified_sample df (pre ++ col :: post) n buckets st
  = (st1, Raise KeyError)
  /\ names = map stratify_name pre
  /\ adds_columns df names st st1.
Proof.
  intros Hf Hg Hpre Hcol Hnames.
  destruct (transform_columns_spec _ _ _ _ _ _ _ _ _ Hf Hpre)
    as (done_cols & _ & Hadds & Hok).
  destruct (Hok _ eq_refl) as [-> E]. rewrite <- E in Hadds.
  split_and!; [|done..].
  destruct Hadds as (_ & _ & _ & Hdf).
  destruct (Hdf f Hf) as (f1 & Hf1 & _ & Hx).
  assert (get_column f1 col = None) as Hnone.
  { destruct (get_column f1 col) as [c|] eqn:Hc; [|done]. exfalso.
    assert (col ∈ column_names f1) as Hin
      by (apply get_in_is_Some; unfold get_column in Hc; by rewrite Hc).
    apply Hx in Hin as [?|?]; done. }
  unfold StratifiedSampling.proportional_stratified_sample.
  apply bind_Raise. unfold StratifiedSampling.stratify_and_check.
  rewrite (bind_Ok _ _ _ _ _ (load_Ok _ _ _ Hf)).
  erewrite bind_Ok; [|unfold lift; by rewrite bool_decide_eq_true_2].
  apply bind_Raise. eapply transform_columns_then_raise; [done|].
  by apply (transform_column_missing _ _ f1).
Qed.

(** *** The data of the frame *)

(** The first loop writes to the columns of its own names only. *)
Lemma transform_columns_keeps (cols : list string) st df f (buckets : Z) st'
    (r : result (list string)) :
  heap st !! df = Some f ->
  transform_columns df cols buckets st = (st', r) ->
  exists f',
    heap st' !! df = Some f'
    /\ forall x, x ∉ map stratify_name cols ->
         get_column f' x = get_column f x.
Proof.
  revert st f st' r. induction cols as [|col cols IH]; intros st f st' r Hf.
  - intros [= <- <-]. by exists f.
  - cbn [StratifiedSampling.transform_columns].
    destruct (transform_column_spec qcut astype_str st df f col buckets Hf)
      as [[e He]|[vs Hvs]].
    + rewrite (bind_Raise _ _ _ _ _ He). intros [= <- <-]. by exists f.
    + rewrite (bind_Ok _ _ _ _ _ Hvs).
      set (f1 := set_column f _ _) in *.
      set (st1 := State _ _) in *.
      assert (heap st1 !! df = Some f1) as Hf1.
      { apply list_lookup_insert_eq. by eapply lookup_lt_Some. }
      destruct (transform_columns df cols buckets st1) as [st2 r2] eqn:Hrun.
      destruct (IH _ _ _ _ Hf1 Hrun) as (f' & Hf' & Hkeep).
      intros Hres.
      assert (st' = st2) as ->.
      { destruct r2.
        - rewrite (bind_Ok _ _ _ _ _ Hrun) in Hres.
          unfold mret, M_ret in Hres. by simplify_eq.
        - rewrite (bind_Raise _ _ _ _ _ Hrun) in Hres. by simplify_eq. }
      exists f'. split; [done|].
      intros x Hx. cbn [map] in Hx. apply not_elem_of_cons in Hx as [Hne Hx].
      rewrite (Hkeep x Hx). unfold f1, get_column, set_column. simpl.
      by apply get_in_set_in_ne.
Qed.

(** X27. The data are not touched. When the function returns, the frame
    that it returns and the caller's frame have the rows of the input, and
    every column whose name is not one of the added names has in both the
    cells and the type that it had (in the returned frame, the new [group]
    column apart); and every other object is as it was. *)
Theorem data_columns_are_untouched st df (cols : list string) (n buckets : Z)
    st' (out : nat) :
  proportional_stratified_sample df cols n buckets st = (st', Ok out) ->
  exists f f_caller f_out,
    heap st !! df = Some f
    /\ heap st' !! df = Some f_caller
    /\ heap st' !! out = Some f_out
    /\ nrows f_caller = nrows f /\ nrows f_out = nrows f
    /\ (forall x, x ∉ map stratify_name cols ->
          get_column f_caller x = get_column f x
          /\ (x <> "group" -> get_column f_out x = get_column f x))
    /\ forall l : nat, l <> df -> (l < length (heap st))%nat ->
         heap st' !! l = heap st !! l.
Proof.
  unfold StratifiedSampling.proportional_stratified_sample.
  intros (st1 & tcols & Hcheck & Hsplit)%bind_Ok_inv.
  destruct (stratify_and_check_Ok _ _ _ _ _ _ _ _ _ Hcheck)
    as (f & f1 & counts & Hf & _ & Ht & -> & Hadds & Hf1 & _).
  destruct (stratify_and_check_rows _ _ _ _ _ _ _ _ Hf Hcheck)
    as (f1' & _ & Hf1' & Hrows & _ & _ & HN).
  rewrite Hf1 in Hf1'. injection Hf1' as <-.
  destruct (transform_columns_keeps _ _ _ _ _ _ _ Hf Ht)
    as (f1' & Hf1' & Hkeep).
  rewrite Hf1 in Hf1'. injection Hf1' as <-.
  pose proof (group_not_added cols) as Hgroup.
  set (tcols := map stratify_name cols) in *.
  destruct Hadds as (_ & Hlen & Hother & _).
  pose proof (lookup_lt_Some _ _ _ Hf1) as Hlt.
  destruct (split_into_groups_shape astype_str round_frac st1 df f1 tcols n
              st' out Hgroup Hf1 Hsplit) as (g & -> & Hheap).
  exists f, f1, (drop_columns (working f1 g false) tcols).
  split_and!; [done| | |done|done| |].
  - rewrite Hheap. by rewrite lookup_app_l.
  - rewrite Hheap, lookup_app_r by lia.
    by replace (S (length (heap st1)) - length (heap st1))%nat with 1%nat
      by lia.
  - intros x Hx. split; [by apply Hkeep|]. intros Hne.
    rewrite get_column_drop_columns by done.
    rewrite <- (Hkeep x Hx). unfold working, get_column, set_column. simpl.
    by apply get_in_set_in_ne.
  - intros l Hne Hl. rewrite Hheap, lookup_app_l by lia. by apply Hother.
Qed.

(** *** Strata that divide evenly *)

(** X28. Under the conditions of the split (the first half passing, at
    least one group, no missing value in an added column, a rounding to a
    neighbour), a stratum whose number of rows is a multiple of [n_splits]
    is split evenly: every group gets exactly that number divided by
    [n_splits] of its rows, whatever the random draws are. *)
Theorem divisible_stratum_is_split_evenly st df (cols : list string)
    (n buckets : Z) st1 (tcols : list string) f1 (s : list string) :
  1 <= n ->
  stratify_and_check df cols n buckets st = (st1, Ok tcols) ->
  heap st1 !! df = Some f1 ->
  rounds_to_neighbour (nrows f1) n round_frac ->
  (forall p : nat, (p < nrows f1)%nat -> is_Some (row_key f1 tcols p)) ->
  Z.of_nat (length (in_stratum (row_key f1 tcols) (Some s)
                      (seq 0 (nrows f1))))
    mod n = 0 ->
  exists st' (out : nat) f,
    proportional_stratified_sample df cols n buckets st = (st', Ok out)
    /\ heap st' !! out = Some f
    /\ forall i : Z, 0 <= i < n ->
         Z.of_nat
           (length (in_stratum (row_key f1 tcols) (Some s)
                      (filter (fun p => label_of (cell_at f "group" p)
                                        = Some i)
                              (seq 0 (nrows f)))))
         = Z.of_nat (length (in_stratum (row_key f1 tcols) (Some s)
                               (seq 0 (nrows f1)))) / n.
Proof.
  intros Hn Hcheck Hf1 Hround Hcomplete Hdiv.
  destruct (stratify_and_check_Ok _ _ _ _ _ _ _ _ _ Hcheck)
    as (f & _ & _ & _ & _ & _ & -> & _).
  pose proof (group_not_added cols) as Hgroup.
  destruct (split_into_groups_spec astype_str round_frac st1 df f1 _ n Hn
              Hgroup Hround Hcomplete Hf1)
    as (st' & g & Hrun & Hheap & Hbal).
  set (tcols := map stratify_name cols) in *.
  set (fw := working f1 g false) in *.
  assert (forall p, cell_at (drop_columns fw tcols) "group" p = cell_of g p)
    as Hcell.
  { intros p. unfold cell_at. rewrite get_column_drop_columns by done.
    unfold fw, working, get_column. simpl. by rewrite get_in_set_in_eq. }
  destruct (balanced_end _ _ _ _ Hbal) as [_ Hlabels].
  exists st', (S (length (heap st1))), (drop_columns fw tcols).
  split_and!.
  - unfold StratifiedSampling.proportional_stratified_sample.
    by rewrite (bind_Ok _ _ _ _ _ Hcheck).
  - rewrite Hheap. rewrite lookup_app_r by lia.
    by replace (S (length (heap st1)) - length (heap st1))%nat with 1%nat
      by lia.
  - intros i Hi. simpl.
    assert (filter (fun p => label_of (cell_at (drop_columns fw tcols)
                                         "group" p) = Some i)
              (seq 0 (nrows f1))
            = group_rows (nrows f1) g i) as ->.
    { apply filter_ext_in. intros p _. by rewrite Hcell. }
    set (size := length (in_stratum (row_key f1 tcols) (Some s)
                           (seq 0 (nrows f1))))
      in *.
    set (share := fun j : nat =>
           length (in_stratum (row_key f1 tcols) (Some s)
                     (group_rows (nrows f1) g (Z.of_nat j)))).
    set (q := Z.to_nat (Z.of_nat size / n)).
    assert (0 <= Z.of_nat size / n) as Hq0 by (apply Z.div_pos; lia).
    assert (Forall (fun a => (q <= a)%nat) (map share (seq 0 (Z.to_nat n))))
      as Hlow.
    { apply Forall_forall. intros a (j & -> & Hj%elem_of_seq)%list_elem_of_fmap.
      pose proof (bal_done _ _ _ _ _ Hbal (Some s) (Z.of_nat j) ltac:(lia))
        as [Hlow _].
      unfold quota, stratum_size in Hlow. fold size in Hlow.
      unfold share, q. lia. }
    assert (sum_list (map share (seq 0 (Z.to_nat n)))
            = (q * length (map share (seq 0 (Z.to_nat n))))%nat) as Hsum.
    { unfold share.
      rewrite (shares_add_up (row_key f1 tcols) (nrows f1) g (Z.to_nat n)
                 (Some s)).
      - fold size. rewrite length_map, length_seq. unfold q.
        apply Nat2Z.inj. rewrite Nat2Z.inj_mul, !Z2Nat.id by lia.
        pose proof (Z.div_mod (Z.of_nat size) n ltac:(lia)). lia.
      - intros p Hp. destruct (Hlabels p Hp) as (j & Hj & Hg).
        exists j. split; [lia|done]. }
    pose proof (sum_list_all_equal q _ Hlow Hsum) as Hall.
    rewrite Forall_forall in Hall.
    assert (share (Z.to_nat i) = q) as Hi'.
    { apply Hall, list_elem_of_fmap. exists (Z.to_nat i). split; [done|].
      apply elem_of_seq. lia. }
    unfold share in Hi'. rewrite Z2Nat.id in Hi' by lia.
    rewrite Hi'. unfold q. lia.
Qed.

(** *** Missing values *)

(** X29. A row that has, after the first loop, a missing value in an added
    column is counted in no stratum by the bucket size check and is in no
    group of [groupby], so it gets no label: when the first half passes,
    the function ends with the [AssertionError] of its last check, for every
    number of groups and whatever the random draws are. *)
Theorem missing_stratifying_value_raises st df (cols : list string)
    (n buckets : Z) st1 (tcols : list string) f1 (p : nat) :
  stratify_and_check df cols n buckets st = (st1, Ok tcols) ->
  heap st1 !! df = Some f1 ->
  (p < nrows f1)%nat -> row_key f1 tcols p = None ->
  exists st',
    proportional_stratified_sample df cols n buckets st
    = (st', Raise AssertionError).
Proof.
  intros Hcheck Hf1 Hp Hkey.
  destruct (stratify_and_check_Ok _ _ _ _ _ _ _ _ _ Hcheck)
    as (f & _ & _ & _ & _ & _ & -> & _).
  pose proof (group_not_added cols) as Hgroup.
  destruct (split_into_groups_missing astype_str round_frac st1 df f1 _ n p
              Hgroup Hf1 Hp Hkey) as (st' & Hraise).
  exists st'. unfold StratifiedSampling.proportional_stratified_sample.
  by rewrite (bind_Ok _ _ _ _ _ Hcheck).
Qed.

End run.

(** *** The properties on the concrete frame *)

(** The customers with a group column already. *)
Definition example_grouped : state Z :=
  State [set_column example_df "group" (Column false (replicate 7 CNone))] [].

(** A frame with the two columns and no row. *)
Definition example_empty : state Z :=
  State [Frame 0 [("age", Column true []); ("city", Column false [])]] [].

Lemma existing_group_column_is_refused_witness :
  proportional_stratified_sample example_qcut example_str example_round 0 ["city"] 2 10
    example_grouped
  = (example_grouped, Raise AssertionError).
Proof.
  apply (existing_group_column_is_refused example_qcut example_str example_round
           example_grouped 0
           (set_column example_df "group" (Column false (replicate 7 CNone)))
           ["city"] 2 10).
  - reflexivity.
  - apply (bool_decide_unpack _). vm_compute. exact I.
Defined.

Lemma fewer_than_one_group_never_returns_witness :
  exists e,
    (proportional_stratified_sample example_qcut example_str example_round 0 ["city"] 0 10
       example_state).2 = Raise e
    /\ forall st1 tcols,
         stratify_and_check example_qcut example_str 0 ["city"] 0 10
           example_state = (st1, Ok tcols) ->
         e = AssertionError.
Proof.
  apply (fewer_than_one_group_never_returns example_qcut example_str example_round
           example_state 0 ["city"] 0 10
           (proportional_stratified_sample example_qcut example_str
              example_round 0 ["city"] 0 10 example_state).1).
  - lia.
  - apply surjective_pairing.
Defined.

Lemma empty_frame_never_returns_witness :
  exists e,
    (proportional_stratified_sample example_qcut example_str example_round 0 ["city"] 1 10
       example_empty).2 = Raise e.
Proof.
  apply (empty_frame_never_returns example_qcut example_str example_round example_empty 0
           (Frame 0 [("age", Column true []); ("city", Column false [])])
           ["city"] 1 10
           (proportional_stratified_sample example_qcut example_str example_round 0
              ["city"] 1 10 example_empty).1).
  - reflexivity.
  - reflexivity.
  - apply surjective_pairing.
Defined.

Example example_empty_frame :
  (proportional_stratified_sample example_qcut example_str example_round 0 ["city"] 1 10
     example_empty).2 = Raise AssertionError.
Proof. vm_compute. reflexivity. Qed.

Lemma missing_column_raises_after_adding_witness :
  proportional_stratified_sample example_qcut example_str example_round 0
    (["city"] ++ "region" :: ["age"]) 2 10 example_state
  = (example_checked, Raise KeyError)
  /\ ["city_stratify"] = map (fun col => col +:+ "_stratify") ["city"]
  /\ adds_columns 0 ["city_stratify"] example_state example_checked.
Proof.
  apply (missing_column_raises_after_adding example_qcut example_str example_round
           example_state 0 example_df ["city"] ["age"] "region" 2 10
           example_checked ["city_stratify"]).
  - reflexivity.
  - apply (bool_decide_unpack _). vm_compute. exact I.
  - vm_compute. reflexivity.
  - apply (bool_decide_unpack _). vm_compute. exact I.
  - apply (bool_decide_unpack _). vm_compute. exact I.
Defined.

Lemma data_columns_are_untouched_witness :
  exists f f_caller f_out : DataFrame Z,
    heap example_state !! 0%nat = Some f
    /\ heap example_result.1 !! 0%nat = Some f_caller
    /\ heap example_result.1 !! 2%nat = Some f_out
    /\ nrows f_caller = nrows f /\ nrows f_out = nrows f
    /\ (forall x, x ∉ map (fun col => col +:+ "_stratify") ["city"] ->
          get_column f_caller x = get_column f x
          /\ (x <> "group" -> get_column f_out x = get_column f x))
    /\ forall l : nat, l <> 0%nat -> (l < length (heap example_state))%nat ->
         heap example_result.1 !! l = heap example_state !! l.
Proof.
  apply (data_columns_are_untouched example_qcut example_str example_round example_state 0
           ["city"] 2 10 example_result.1 2).
  vm_compute. reflexivity.
Defined.

Lemma divisible_stratum_is_split_evenly_witness :
  exists (st' : state Z) (out : nat) (f : DataFrame Z),
    proportional_stratified_sample example_qcut example_str example_round 0
      ["city"] 2 10 example_state = (st', Ok out)
    /\ heap st' !! out = Some f
    /\ forall i : Z, 0 <= i < 2 ->
         Z.of_nat
           (length (in_stratum
                      (row_key example_str example_stratified
                         ["city_stratify"]) (Some ["a"])
                      (filter (fun p => label_of (cell_at f "group" p)
                                        = Some i)
                              (seq 0 (nrows f)))))
         = Z.of_nat
             (length (in_stratum
                        (row_key example_str example_stratified
                           ["city_stratify"]) (Some ["a"])
                        (seq 0 (nrows example_stratified)))) / 2.
Proof.
  apply (divisible_stratum_is_split_evenly example_qcut example_str
           example_round example_state 0 ["city"] 2 10 example_checked
           ["city_stratify"] example_stratified ["a"]).
  - lia.
  - vm_compute. reflexivity.
  - reflexivity.
  - apply example_round_neighbour.
  - apply example_stratified_complete.
  - vm_compute. reflexivity.
Defined.

(** The four customers once the column [city_stratify] is added, two of
    them without a value in it. *)
Definition example_missing_stratified : DataFrame Z :=
  Frame 4
    [("city", Column false [CStr "a"; CStr "a"; CNone; CNone]);
     ("city_stratify", Column false [CStr "a"; CStr "a"; CNone; CNone])].

Lemma missing_stratifying_value_raises_witness :
  exists st' : state Z,
    proportional_stratified_sample example_qcut example_str_na example_round
      0 ["city"] 2 10 example_missing
    = (st', Raise AssertionError).
Proof.
  apply (missing_stratifying_value_raises example_qcut example_str_na
           example_round example_missing 0 ["city"] 2 10
           (State [example_missing_stratified] (draws example_missing))
           ["city_stratify"] example_missing_stratified 2).
  - vm_compute. reflexivity.
  - reflexivity.
  - simpl. lia.
  - vm_compute. reflexivity.
Defined.

End StratifiedExtra.
